(** * Weighted-average stock cost correction: a shallow embedding of main.py

    The three tables of the program ([Stock], [StockMovements],
    [StockResume]) are pandas data frames that are mutated in place.  They
    are embedded as lists of rows, in row order, and every method becomes a
    function from the old tables to the new ones.  Methods that can raise
    return a [result].

    Cells that hold a float are embedded as [num]: an exact rational, or one
    of the three special values that numpy produces instead of raising
    (a division by zero yields an infinity or NaN).  Rounding, overflow and
    the sign of zero are not modelled.  A missing float is NaN, as in
    pandas.  Text cells and movement dates are taken as present; a date is a
    calendar day; the letters that a case-insensitive test folds are those
    of ASCII.  The labels of a table (movement ids, item ids) are meant to be
    unique: a read by label takes the first row that carries it, a write by
    label goes to every row that carries it. *)

From Stdlib Require Import ZArith QArith Qcanon Qcabs List Bool String Ascii.
From Stdlib Require Import Lia Permutation Sorted Setoid Field.
Import ListNotations.

(** ** Numbers *)

Module Num.

Inductive num : Type :=
| Fin (q : Qc)
| PInf
| NInf
| NaN.

Definition zero : num := Fin (Q2Qc 0).
Definition of_Z (z : Z) : num := Fin (Q2Qc (inject_Z z)).

Definition Qc_eqb (a b : Qc) : bool := Qeq_bool a b.

Definition of_sign (c : comparison) : num :=
  match c with Gt => PInf | Lt => NInf | Eq => NaN end.

Definition sign (x : num) : comparison :=
  match x with
  | Fin q => (q ?= Q2Qc 0)%Qc
  | PInf => Gt
  | NInf => Lt
  | NaN => Eq
  end.

Definition sign_mul (a b : comparison) : comparison :=
  match a, b with
  | Eq, _ | _, Eq => Eq
  | Gt, Gt | Lt, Lt => Gt
  | _, _ => Lt
  end.

Definition isna (x : num) : bool :=
  match x with NaN => true | _ => false end.

Definition notnull (x : num) : bool := negb (isna x).

Definition neg (x : num) : num :=
  match x with
  | Fin q => Fin (- q)%Qc
  | PInf => NInf
  | NInf => PInf
  | NaN => NaN
  end.

Definition add (x y : num) : num :=
  match x, y with
  | NaN, _ | _, NaN => NaN
  | Fin a, Fin b => Fin (a + b)%Qc
  | PInf, NInf | NInf, PInf => NaN
  | PInf, _ | _, PInf => PInf
  | NInf, _ | _, NInf => NInf
  end.

Definition sub (x y : num) : num := add x (neg y).

Definition mul (x y : num) : num :=
  match x, y with
  | NaN, _ | _, NaN => NaN
  | Fin a, Fin b => Fin (a * b)%Qc
  | _, _ => of_sign (sign_mul (sign x) (sign y))
  end.

Definition div (x y : num) : num :=
  match x, y with
  | NaN, _ | _, NaN => NaN
  | Fin a, Fin b =>
      if Qc_eqb b (Q2Qc 0) then of_sign (a ?= Q2Qc 0)%Qc else Fin (a / b)%Qc
  | Fin _, _ => zero
  | _, Fin b => match (b ?= Q2Qc 0)%Qc with Lt => neg x | _ => x end
  | _, _ => NaN
  end.

Definition abs (x : num) : num :=
  match x with
  | Fin q => Fin (Qcabs q)
  | PInf | NInf => PInf
  | NaN => NaN
  end.

(** [x < y]; every comparison with NaN is false. *)
Definition ltb (x y : num) : bool :=
  match x, y with
  | NaN, _ | _, NaN => false
  | Fin a, Fin b => match (a ?= b)%Qc with Lt => true | _ => false end
  | NInf, NInf | PInf, _ | _, NInf => false
  | _, _ => true
  end.

(** [x != y]; NaN differs from everything, itself included. *)
Definition neb (x y : num) : bool :=
  match x, y with
  | NaN, _ | _, NaN => true
  | Fin a, Fin b => negb (Qc_eqb a b)
  | PInf, PInf | NInf, NInf => false
  | _, _ => true
  end.

(** [Series.sum()]: missing values are skipped, the empty sum is 0. *)
Definition sum (xs : list num) : num :=
  fold_left add (filter notnull xs) zero.

Definition is_fin (x : num) : Prop :=
  match x with Fin _ => True | _ => False end.

End Num.

Import Num.

Declare Scope num_scope.
Delimit Scope num_scope with num.
Bind Scope num_scope with num.
Infix "+" := add : num_scope.
Infix "-" := sub : num_scope.
Infix "*" := mul : num_scope.
Infix "/" := div : num_scope.
Notation "- x" := (neg x) : num_scope.

(** ** Strings *)

Fixpoint contains (pat s : string) : bool :=
  if String.prefix pat s then true
  else match s with
       | EmptyString => false
       | String _ rest => contains pat rest
       end.

Definition upper_ascii (c : ascii) : ascii :=
  let n := nat_of_ascii c in
  if (97 <=? n)%nat && (n <=? 122)%nat then ascii_of_nat (n - 32) else c.

Fixpoint upper (s : string) : string :=
  match s with
  | EmptyString => EmptyString
  | String c rest => String (upper_ascii c) (upper rest)
  end.

(** [Series.str.contains(pat, case=False)] for a pattern without regular
    expression operators. *)
Definition contains_nocase (pat s : string) : bool :=
  contains (upper pat) (upper s).

(** ** Dates *)

Record datetime : Type := mkDate { year : Z; month : Z; day : Z }.

Definition datetime_eqb (a b : datetime) : bool :=
  (year a =? year b)%Z && (month a =? month b)%Z && (day a =? day b)%Z.

Definition datetime_ltb (a b : datetime) : bool :=
  (year a <? year b)%Z
  || ((year a =? year b)%Z
      && ((month a <? month b)%Z
          || ((month a =? month b)%Z && (day a <? day b)%Z))).

Definition is_leap (y : Z) : bool :=
  ((y mod 4 =? 0) && (negb (y mod 100 =? 0) || (y mod 400 =? 0)))%Z.

Definition days_in_month (y m : Z) : Z :=
  if (m =? 2)%Z then (if is_leap y then 29 else 28)%Z
  else if ((m =? 4) || (m =? 6) || (m =? 9) || (m =? 11))%Z then 30%Z
  else 31%Z.

(** [d - timedelta(days=1)] *)
Definition minus_one_day (d : datetime) : datetime :=
  if (1 <? day d)%Z then mkDate (year d) (month d) (day d - 1)
  else if (1 <? month d)%Z
       then mkDate (year d) (month d - 1) (days_in_month (year d) (month d - 1))
       else mkDate (year d - 1) 12 31.

(** ** Errors *)

Inductive error : Type :=
| ItemAlreadyExists (item : Z)
| ItemNotFound (item : Z)
| KeyError (movement : Z)
| NoDismantlingFound (id : option Z)
| DismantlingIncomplete (id : option Z)
| NoProductionOrderFound (id : option Z)
| ProductionOrderIncomplete (id : option Z)
| AlreadyCorrect (movement : Z)
| AttributeError (name : string).

Inductive result (A : Type) : Type :=
| OK (a : A)
| Raise (e : error).

Arguments OK {A} a.
Arguments Raise {A} e.

Definition bind {A B : Type} (r : result A) (k : A -> result B) : result B :=
  match r with
  | OK a => k a
  | Raise e => Raise e
  end.

Notation "x <- c ;; k" := (bind c (fun x => k))
  (at level 61, c at next level, right associativity).
Notation "' pat <- c ;; k" := (bind c (fun x => match x with pat => k end))
  (at level 61, pat pattern, c at next level, right associativity).

(** ** StockResume *)

Module StockResume.

Record entry : Type := mkEntry {
  date : datetime;
  corrected_cost : num;
  original_cost : num
}.

Definition t := list entry.

Definition new_empty : t := [].

Definition get_last_day_of_month (month year : Z) : datetime :=
  if (month =? 12)%Z then mkDate year month 31
  else minus_one_day (mkDate year (month + 1) 1).

(** [self.loc[len(self)] = {...}] appends a row. *)
Definition insert_new_entry (month year : Z) (corrected_cost original_cost : num)
    (self : t) : t :=
  self ++ [mkEntry (get_last_day_of_month month year) corrected_cost original_cost].

End StockResume.

(** ** Stock *)

Module Stock.

Record position : Type := mkPosition {
  item_id : Z;
  description : string;
  quantity : num;
  average_cost : num;
  total_cost : num;
  original_total_cost : num
}.

Definition t := list position.

Definition item_id_exists (item : Z) (self : t) : bool :=
  existsb (fun p => (item_id p =? item)%Z) self.

Definition set_average_cost (self : t) : t :=
  map (fun row =>
         mkPosition (item_id row) (description row) (quantity row)
           (if neb (quantity row) zero then (total_cost row / quantity row)%num
            else zero)
           (total_cost row) (original_total_cost row))
      self.

Definition init (rows : t) : t := set_average_cost rows.

Definition insert_new_item_with_empty_stock (item : Z) (descr : string)
    (self : t) : result t :=
  if negb (item_id_exists item self)
  then OK (self ++ [mkPosition item descr zero zero zero zero])
  else Raise (ItemAlreadyExists item).

(** [self.loc[[item_id]]]; the callers read the first row of the answer. *)
Definition get_stock (item : Z) (self : t) : result position :=
  match find (fun p => (item_id p =? item)%Z) self with
  | Some p => OK p
  | None => Raise (ItemNotFound item)
  end.

(** The four writes of [insert_transaction] on the row of the item. *)
Definition transact (qty cost original : num) (p : position) : position :=
  let quantity' := (quantity p + qty)%num in
  let total_cost' := (total_cost p + cost)%num in
  let original_total_cost' := (original_total_cost p + original)%num in
  mkPosition (item_id p) (description p) quantity'
    (if neb quantity' zero then (total_cost' / quantity')%num else zero)
    total_cost' original_total_cost'.

Definition insert_transaction (item : Z) (qty cost original : num)
    (self : t) : result t :=
  if negb (item_id_exists item self) then Raise (ItemNotFound item)
  else OK (map (fun p => if (item_id p =? item)%Z then transact qty cost original p
                         else p) self).

End Stock.

(** ** The movement feed, left-joined with the override table

    [correct_cost] is NaN where the join found no override. *)

Module Feed.

Record row : Type := mkRow {
  movement_id : Z;
  movement_date : datetime;
  production_order_id : option Z;
  entry_date : option datetime;
  document_number : string;
  movement_history : string;
  item_id : Z;
  item_description : string;
  quantity : num;
  average_cost : num;
  total_cost : num;
  correct_cost : num
}.

End Feed.

(** ** StockMovements *)

Module StockMovements.

Record movement : Type := mkMovement {
  movement_id : Z;
  movement_date : datetime;
  production_order_id : option Z;
  entry_date : option datetime;
  document_number : string;
  movement_history : string;
  item_id : Z;
  item_description : string;
  quantity : num;
  average_cost : num;
  total_cost : num;
  correct_cost : num;
  correct_movement_date : datetime;
  is_dismantling : bool;
  is_dismantling_input : bool;
  is_dismantling_output : bool;
  is_production_order : bool;
  is_production_order_input : bool;
  is_production_order_output : bool;
  is_entry : bool;
  dismantling_id : option Z;
  original_cost : num;
  movement_cost_is_already_correct : bool
}.

Definition t := list movement.

(** *** Writing one cell of a row *)

Definition with_total_cost (v : num) (r : movement) : movement :=
  mkMovement (movement_id r) (movement_date r) (production_order_id r)
    (entry_date r) (document_number r) (movement_history r) (item_id r)
    (item_description r) (quantity r) (average_cost r) v (correct_cost r)
    (correct_movement_date r) (is_dismantling r) (is_dismantling_input r)
    (is_dismantling_output r) (is_production_order r)
    (is_production_order_input r) (is_production_order_output r) (is_entry r)
    (dismantling_id r) (original_cost r) (movement_cost_is_already_correct r).

Definition with_average_cost (v : num) (r : movement) : movement :=
  mkMovement (movement_id r) (movement_date r) (production_order_id r)
    (entry_date r) (document_number r) (movement_history r) (item_id r)
    (item_description r) (quantity r) v (total_cost r) (correct_cost r)
    (correct_movement_date r) (is_dismantling r) (is_dismantling_input r)
    (is_dismantling_output r) (is_production_order r)
    (is_production_order_input r) (is_production_order_output r) (is_entry r)
    (dismantling_id r) (original_cost r) (movement_cost_is_already_correct r).

Definition with_already_correct (v : bool) (r : movement) : movement :=
  mkMovement (movement_id r) (movement_date r) (production_order_id r)
    (entry_date r) (document_number r) (movement_history r) (item_id r)
    (item_description r) (quantity r) (average_cost r) (total_cost r)
    (correct_cost r) (correct_movement_date r) (is_dismantling r)
    (is_dismantling_input r) (is_dismantling_output r) (is_production_order r)
    (is_production_order_input r) (is_production_order_output r) (is_entry r)
    (dismantling_id r) (original_cost r) v.

Definition with_dismantling_id (v : option Z) (r : movement) : movement :=
  mkMovement (movement_id r) (movement_date r) (production_order_id r)
    (entry_date r) (document_number r) (movement_history r) (item_id r)
    (item_description r) (quantity r) (average_cost r) (total_cost r)
    (correct_cost r) (correct_movement_date r) (is_dismantling r)
    (is_dismantling_input r) (is_dismantling_output r) (is_production_order r)
    (is_production_order_input r) (is_production_order_output r) (is_entry r)
    v (original_cost r) (movement_cost_is_already_correct r).

Definition with_original_cost (v : num) (r : movement) : movement :=
  mkMovement (movement_id r) (movement_date r) (production_order_id r)
    (entry_date r) (document_number r) (movement_history r) (item_id r)
    (item_description r) (quantity r) (average_cost r) (total_cost r)
    (correct_cost r) (correct_movement_date r) (is_dismantling r)
    (is_dismantling_input r) (is_dismantling_output r) (is_production_order r)
    (is_production_order_input r) (is_production_order_output r) (is_entry r)
    (dismantling_id r) v (movement_cost_is_already_correct r).

(** [self.at[index, column] = value]: the rows labelled [index] are
    rewritten by [f]; the labels are movement ids, which identify a row. *)
Definition at_set (index : Z) (f : movement -> movement) (self : t) : t :=
  map (fun r => if (movement_id r =? index)%Z then f r else r) self.

(** [self.loc[movement_id]]: a copy of the row, taken when it is read. *)
Definition loc (index : Z) (self : t) : result movement :=
  match find (fun r => (movement_id r =? index)%Z) self with
  | Some r => OK r
  | None => Raise (KeyError index)
  end.

(** *** The derived columns of [set_init_columns] *)

Definition set_correct_movement_date (row : Feed.row) : datetime :=
  match Feed.entry_date row with
  | Some d => d
  | None => Feed.movement_date row
  end.

Definition set_is_dismantling (row : Feed.row) : bool :=
  contains_nocase "DESMONTE" (Feed.document_number row).

Definition set_is_dismantling_input (row : Feed.row) : bool :=
  ltb (Feed.total_cost row) zero && set_is_dismantling row.

Definition set_is_dismantling_output (row : Feed.row) : bool :=
  ltb zero (Feed.total_cost row) && set_is_dismantling row.

Definition set_is_production_order (row : Feed.row) : bool :=
  match Feed.production_order_id row with Some _ => true | None => false end.

Definition set_is_production_order_input (row : Feed.row) : bool :=
  contains "REQUISICAO" (Feed.movement_history row)
  && set_is_production_order row.

Definition set_is_production_order_output (row : Feed.row) : bool :=
  contains "ENC" (Feed.movement_history row)
  && contains "ORDEM" (Feed.movement_history row)
  && set_is_production_order row.

Definition set_is_entry (row : Feed.row) : bool :=
  contains "RECEBIMENTO" (Feed.movement_history row).

(** The frame after [set_init_columns].  The three columns that
    [__init__] adds later are not there yet: [dismantling_id] is missing
    everywhere, and the cells of [original_cost] and
    [movement_cost_is_already_correct] are written by
    [set_movement_cost_is_already_correct] before anything reads them. *)
Definition set_init_columns (row : Feed.row) : movement :=
  mkMovement (Feed.movement_id row) (Feed.movement_date row)
    (Feed.production_order_id row) (Feed.entry_date row)
    (Feed.document_number row) (Feed.movement_history row) (Feed.item_id row)
    (Feed.item_description row) (Feed.quantity row) (Feed.average_cost row)
    (Feed.total_cost row) (Feed.correct_cost row)
    (set_correct_movement_date row) (set_is_dismantling row)
    (set_is_dismantling_input row) (set_is_dismantling_output row)
    (set_is_production_order row) (set_is_production_order_input row)
    (set_is_production_order_output row) (set_is_entry row)
    None (Feed.total_cost row) false.

(** *** [order_by_correct_movement_date] *)

Definition key_leb (a b : movement) : bool :=
  datetime_ltb (correct_movement_date a) (correct_movement_date b)
  || (datetime_eqb (correct_movement_date a) (correct_movement_date b)
      && (movement_id a <=? movement_id b)%Z).

Fixpoint insert_by_key (r : movement) (l : t) : t :=
  match l with
  | [] => [r]
  | x :: rest => if key_leb r x then r :: l else x :: insert_by_key r rest
  end.

(** [sort_values(by=['correct_movement_date', 'movement_id'])] *)
Definition order_by_correct_movement_date (self : t) : t :=
  fold_right insert_by_key [] self.

(** *** [set_dismantling_id] *)

Fixpoint set_dismantling_id_loop (dismantlings : list movement)
    (current : option Z) (last_was_output : bool) (self : t) : t :=
  match dismantlings with
  | [] => self
  | row :: rest =>
      let index := movement_id row in
      let opens :=
        match current with None => true | Some _ => false end
        || (is_dismantling_input row && last_was_output) in
      let current := if opens then Some index else current in
      let last_was_output := if opens then false else last_was_output in
      let last_was_output :=
        if is_dismantling_output row then true else last_was_output in
      set_dismantling_id_loop rest current last_was_output
        (at_set index (with_dismantling_id current) self)
  end.

Definition set_dismantling_id (self : t) : t :=
  set_dismantling_id_loop (filter is_dismantling self) None false self.

(** *** [set_movement_cost_is_already_correct] *)

(** The three assignments, on one row. *)
Definition already_correct_row (row : movement) : movement :=
  with_already_correct (negb (isna (correct_cost row)) || is_entry row)
    (with_total_cost
       (if notnull (correct_cost row) then correct_cost row else total_cost row)
       (with_original_cost (total_cost row) row)).

Definition set_movement_cost_is_already_correct (self : t) : t :=
  map already_correct_row self.

(** [StockMovements(...)]: the constructor.  [correct_column_types] only
    changes the storage type of [production_order_id]. *)
Definition init (feed : list Feed.row) : t :=
  set_movement_cost_is_already_correct
    (set_dismantling_id
       (order_by_correct_movement_date (map set_init_columns feed))).

(** *** The group resolvers

    A resolver writes three cells of a row: [total_cost], [average_cost]
    and [movement_cost_is_already_correct]. *)

Definition resolved (total average : num) (r : movement) : movement :=
  with_already_correct true (with_average_cost average (with_total_cost total r)).

Definition same_id (a b : option Z) : bool :=
  match a, b with
  | Some x, Some y => (x =? y)%Z
  | _, _ => false
  end.

Definition empty (rows : list movement) : bool :=
  match rows with [] => true | _ :: _ => false end.

(** The loop over [input_movements]; it is the same text in
    [correct_dismantling] and in [correct_production_order].  The rows it
    iterates over are copies taken when the selection was made. *)
Fixpoint correct_inputs (input_movements : list movement) (stock : Stock.t)
    (self : t) (inputs_corrected_cost : num) : result (t * num) :=
  match input_movements with
  | [] => OK (self, inputs_corrected_cost)
  | row :: rest =>
      p <- Stock.get_stock (item_id row) stock ;;
      let avg_stock := Stock.average_cost p in
      correct_inputs rest stock
        (at_set (movement_id row)
           (resolved (quantity row * avg_stock)%num avg_stock) self)
        (inputs_corrected_cost + (quantity row * avg_stock) * of_Z (-1))%num
  end.

(** The loop over [output_movements], also shared.  [average_cost] is
    computed from the [total_cost] cell written on the line before. *)
Fixpoint correct_outputs (output_movements : list movement)
    (outputs_original_cost inputs_corrected_cost : num) (self : t) : t :=
  match output_movements with
  | [] => self
  | row :: rest =>
      let participation := (original_cost row / outputs_original_cost)%num in
      let total := (inputs_corrected_cost * participation)%num in
      correct_outputs rest outputs_original_cost inputs_corrected_cost
        (at_set (movement_id row) (resolved total (total / quantity row)%num) self)
  end.

(** The frame has a column [dismantling_id] once [set_dismantling_id] has
    written a cell of it, which it does for every dismantling and for no
    other row: a table has the column exactly when it has a dismantling. *)
Definition has_dismantling_id (self : t) : bool := existsb is_dismantling self.

(** [self.dismantling_id], on a frame without that column, raises before
    anything is selected. *)
Definition correct_dismantling (id : option Z) (stock : Stock.t) (self : t)
    : result t :=
  if negb (has_dismantling_id self) then Raise (AttributeError "dismantling_id")
  else
  let dismantling := filter (fun r => same_id (dismantling_id r) id) self in
  if empty dismantling then Raise (NoDismantlingFound id)
  else
    let input_movements := filter is_dismantling_input dismantling in
    let output_movements := filter is_dismantling_output dismantling in
    let outputs_original_cost := sum (map original_cost output_movements) in
    if empty input_movements || empty output_movements
    then Raise (DismantlingIncomplete id)
    else
      '(self, inputs_corrected_cost) <-
         correct_inputs input_movements stock self zero ;;
      OK (correct_outputs output_movements outputs_original_cost
            inputs_corrected_cost self).

Definition correct_production_order (id : option Z) (stock : Stock.t) (self : t)
    : result t :=
  let production_order := filter (fun r => same_id (production_order_id r) id) self in
  if empty production_order then Raise (NoProductionOrderFound id)
  else
    let input_movements := filter is_production_order_input production_order in
    let output_movements := filter is_production_order_output production_order in
    if empty input_movements
    then Raise (ProductionOrderIncomplete id)
    else
      '(self, inputs_corrected_cost) <-
         correct_inputs input_movements stock self zero ;;
      OK (correct_outputs output_movements
            (sum (map original_cost output_movements))
            inputs_corrected_cost self).

Definition correct_movement_cost_by_stock (index : Z) (stock : Stock.t)
    (self : t) : result t :=
  movement <- loc index self ;;
  if movement_cost_is_already_correct movement then Raise (AlreadyCorrect index)
  else
    p <- Stock.get_stock (item_id movement) stock ;;
    let avg_stock := Stock.average_cost p in
    OK (at_set index (resolved (avg_stock * quantity movement)%num avg_stock) self).

(** *** [insert_movement_to_stock]

    [movement] is the copy of the row that [self.loc] returned; the write
    to [self.at[movement_id, 'total_cost']] goes to the table. *)
Definition insert_movement_to_stock (index : Z) (stock : Stock.t) (self : t)
    : result (t * Stock.t) :=
  movement <- loc index self ;;
  stock <- (if negb (Stock.item_id_exists (item_id movement) stock)
            then Stock.insert_new_item_with_empty_stock (item_id movement)
                   (item_description movement) stock
            else OK stock) ;;
  let delta := (original_cost movement - total_cost movement)%num in
  let delta_p := abs (delta / original_cost movement) in
  let self :=
    if ltb (of_Z 10) delta_p && contains "INVENT" (movement_history movement)
    then at_set index (with_total_cost (original_cost movement)) self
    else self in
  stock <- Stock.insert_transaction (item_id movement) (quantity movement)
             (total_cost movement) (original_cost movement) stock ;;
  OK (self, stock).

(** *** [correct_costs_and_generate_stocks]

    The state of the pass: the three tables and the local [last_date]. *)
Record pass : Type := mkPass {
  last_date : option datetime;
  movements : t;
  stock : Stock.t;
  stock_resume : StockResume.t
}.

Definition month_changed (l d : datetime) : bool :=
  negb (month l =? month d)%Z || negb (year l =? year d)%Z.

(** The first statement of the loop body. *)
Definition close_month (last : option datetime) (d : datetime)
    (stock : Stock.t) (resume : StockResume.t) : StockResume.t :=
  match last with
  | Some l =>
      if month_changed l d
      then StockResume.insert_new_entry (month l) (year l)
             (sum (map Stock.total_cost stock))
             (sum (map Stock.original_total_cost stock)) resume
      else resume
  | None => resume
  end.

(** One turn of the loop.  [row] comes from [self.iterrows()], which
    copies the cells of the whole frame when the loop starts: the flags the
    loop tests are those of that copy, the resolvers work on the table. *)
Definition pass_step (st : pass) (row : movement) : result pass :=
  let index := movement_id row in
  let resume := close_month (last_date st) (correct_movement_date row)
                  (stock st) (stock_resume st) in
  let last := Some (correct_movement_date row) in
  self <-
    (if movement_cost_is_already_correct row then OK (movements st)
     else if is_dismantling row
          then correct_dismantling (dismantling_id row) (stock st) (movements st)
          else if is_production_order row
               then correct_production_order (production_order_id row)
                      (stock st) (movements st)
               else correct_movement_cost_by_stock index (stock st) (movements st)) ;;
  '(self, stock) <- insert_movement_to_stock index (stock st) self ;;
  OK (mkPass last self stock resume).

Fixpoint pass_loop (rows : list movement) (st : pass) : result pass :=
  match rows with
  | [] => OK st
  | row :: rest => st <- pass_step st row ;; pass_loop rest st
  end.

Definition correct_costs_and_generate_stocks (self : t) (start_stock : Stock.t)
    (stock_resume : StockResume.t) : result pass :=
  pass_loop self (mkPass None self start_stock stock_resume).

End StockMovements.

(** * Vocabulary of the properties *)

Section Vocabulary.

Import StockMovements.
Open Scope Z_scope.

(** ** Rows, ledger and timeline *)

(** The cells of a row that no correction writes: everything but
    [total_cost], [average_cost] and [movement_cost_is_already_correct]. *)
Definition frame (r : movement) : movement := resolved zero zero r.

(** The quantity the ledger holds of an item; an item without a row has
    none, which is also what [insert_new_item_with_empty_stock] records. *)
Definition ledger_quantity (item : Z) (stock : Stock.t) : num :=
  match find (fun p => (Stock.item_id p =? item)%Z) stock with
  | Some p => Stock.quantity p
  | None => zero
  end.

(** The ledger as it stands when each movement of [rows] is reached,
    before that movement is resolved and applied. *)
Fixpoint ledgers_before (rows : list movement) (st : pass) : list Stock.t :=
  match rows with
  | [] => []
  | row :: rest =>
      stock st ::
      match pass_step st row with
      | OK st' => ledgers_before rest st'
      | Raise _ => []
      end
  end.

(** The timeline in the words of the specification: going through the
    processed movements, each with its effective date and the ledger found
    before it, one snapshot is due whenever the date falls in another
    (month, year) than the date of the movement processed before; it is
    dated at the end of that earlier month and totals the ledger found.
    Nothing is due after the last movement. *)
Fixpoint month_ends (last : option datetime) (log : list (datetime * Stock.t))
    : StockResume.t :=
  match log with
  | [] => []
  | (d, ledger) :: rest =>
      match last with
      | Some l =>
          if month_changed l d
          then [StockResume.mkEntry
                  (StockResume.get_last_day_of_month (month l) (year l))
                  (sum (map Stock.total_cost ledger))
                  (sum (map Stock.original_total_cost ledger))]
          else []
      | None => []
      end ++ month_ends (Some d) rest
  end.

(** ** The processing order *)

Definition datetime_lt (a b : datetime) : Prop :=
  (year a < year b
   \/ (year a = year b
       /\ (month a < month b \/ (month a = month b /\ day a < day b))))%Z.

(** Earlier effective date first; on the same date, smaller id first. *)
Definition key_le (a b : movement) : Prop :=
  datetime_lt (correct_movement_date a) (correct_movement_date b)
  \/ (correct_movement_date a = correct_movement_date b
      /\ (movement_id a <= movement_id b)%Z).

(** The two cells that [sort_values] compares. *)
Definition key (r : movement) : datetime * Z :=
  (correct_movement_date r, movement_id r).

(** ** The resolver loops as lists of writes *)

(** One turn of a resolver loop writes, on the row labelled [w_id], the
    cells [total_cost] and [average_cost], and sets the flag. *)
Record cell_write : Type := mkWrite {
  w_id : Z;
  w_total : num;
  w_average : num
}.

(** What one write does to one row. *)
Definition write_row (w : cell_write) (r : movement) : movement :=
  if (movement_id r =? w_id w)%Z then resolved (w_total w) (w_average w) r else r.

(** What a list of writes, made in order, does to one row. *)
Definition row_writes (ws : list cell_write) (r : movement) : movement :=
  fold_left (fun r' w => write_row w r') ws r.

(** The writes made in order on the table, each through [at_set]. *)
Definition apply_writes (ws : list cell_write) (self : t) : t :=
  fold_left (fun tb w => at_set (w_id w) (resolved (w_total w) (w_average w)) tb)
    ws self.

(** The average cost that [stock.get_stock(item).average_cost.iloc[0]]
    reads, for an item that is in the ledger. *)
Definition avg_of (stock : Stock.t) (item : Z) : num :=
  match Stock.get_stock item stock with
  | OK p => Stock.average_cost p
  | Raise _ => zero
  end.

(** The writes of the loop over the inputs. *)
Definition writes_in (stock : Stock.t) (rows : list movement) : list cell_write :=
  map (fun row =>
         mkWrite (movement_id row)
           (quantity row * avg_of stock (item_id row))%num
           (avg_of stock (item_id row)))
      rows.

(** The value of [inputs_corrected_cost] after the loop over the inputs. *)
Definition liberated (stock : Stock.t) (rows : list movement) (acc : num) : num :=
  fold_left
    (fun acc row =>
       (acc + (quantity row * avg_of stock (item_id row)) * of_Z (-1))%num)
    rows acc.

(** The writes of the loop over the outputs, [s] being the sum of their
    original costs and [l] the value taken from the inputs. *)
Definition writes_out (s l : num) (rows : list movement) : list cell_write :=
  map (fun row =>
         mkWrite (movement_id row)
           (l * (original_cost row / s))%num
           ((l * (original_cost row / s)) / quantity row)%num)
      rows.

(** The item of the row is in the ledger. *)
Definition known (stock : Stock.t) (row : movement) : bool :=
  Stock.item_id_exists (item_id row) stock.

(** The selections of the two resolvers. *)
Definition dismantling_inputs (id : option Z) (self : t) : list movement :=
  filter is_dismantling_input
    (filter (fun r => same_id (dismantling_id r) id) self).

Definition dismantling_outputs (id : option Z) (self : t) : list movement :=
  filter is_dismantling_output
    (filter (fun r => same_id (dismantling_id r) id) self).

Definition production_order_inputs (id : option Z) (self : t) : list movement :=
  filter is_production_order_input
    (filter (fun r => same_id (production_order_id r) id) self).

Definition production_order_outputs (id : option Z) (self : t) : list movement :=
  filter is_production_order_output
    (filter (fun r => same_id (production_order_id r) id) self).

(** All the writes of one resolution, in the order they are made. *)
Definition resolve_writes (stock : Stock.t) (inputs outputs : list movement)
    : list cell_write :=
  writes_in stock inputs
  ++ writes_out (sum (map original_cost outputs)) (liberated stock inputs zero)
       outputs.

(** ** Tables to run the program on *)

Definition of_Q (q : Q) : num := Fin (Q2Qc q).

(** A feed row with no procurement record and no feed average. *)
Definition feed_row (id : Z) (d : datetime) (order : option Z)
    (document history : string) (item : Z) (qty total override : num) : Feed.row :=
  Feed.mkRow id d order None document history item "item" qty NaN total override.

(** A row of the starting inventory. *)
Definition seed (item : Z) (qty total : num) : Stock.position :=
  Stock.mkPosition item "item" qty NaN total total.

(** A group of one input and one output, both with an override and
    therefore marked correct, and a ledger that holds item 1 at 10 a unit. *)
Definition overridden_group : t :=
  init [ feed_row 2 (mkDate 2024 1 5) None "DESMONTE 7" "DESMONTE" 1
           (of_Z (-2)) (of_Z (-30)) (of_Z (-44));
         feed_row 3 (mkDate 2024 1 5) None "DESMONTE 7" "DESMONTE" 2
           (of_Z 2) (of_Z 30) (of_Z 30) ].

Definition ledger_at_ten : Stock.t :=
  Stock.init [ seed 1 (of_Z 10) (of_Z 100) ].

(** The same group between an entry of item 1 at another cost: the input
    on the 5th, the entry on the 6th, the output on the 7th. *)
Definition interleaved : t :=
  init [ feed_row 2 (mkDate 2024 1 5) None "DESMONTE 7" "DESMONTE" 1
           (of_Z (-2)) (of_Z (-30)) NaN;
         feed_row 3 (mkDate 2024 1 6) None "NF 3" "RECEBIMENTO NF 3" 1
           (of_Z 10) (of_Z 200) NaN;
         feed_row 4 (mkDate 2024 1 7) None "DESMONTE 7" "DESMONTE" 2
           (of_Z 2) (of_Z 30) NaN ].

(** A production order with one requisition and nothing else. *)
Definition order_without_outputs : t :=
  init [ feed_row 4 (mkDate 2024 2 1) (Some 9) "OP 9" "REQUISICAO OP 9" 1
           (of_Z (-3)) (of_Z (-27)) NaN ].

(** A ledger that has item 1 and holds none of it. *)
Definition ledger_without_stock : Stock.t :=
  Stock.init [ seed 1 (of_Z 0) (of_Z 0) ].

(** An inventory count recorded at cost 1 whose override says 100: the
    deviation is 99 times the recorded cost. *)
Definition inventory_count : t :=
  init [ feed_row 1 (mkDate 2024 1 5) None "INV 1" "INVENT 2024" 1
           (of_Z 5) (of_Z 1) (of_Z 100) ].

(** A movement of production order 9 whose history is in lower case. *)
Definition lower_case_history : t :=
  init [ feed_row 5 (mkDate 2024 1 8) (Some 9) "NF 12"
           "Recebimento e requisicao" 1 (of_Z 1) (of_Z 10) NaN ].

Definition lower_case_movement : movement :=
  already_correct_row
    (set_init_columns
       (feed_row 5 (mkDate 2024 1 8) (Some 9) "NF 12"
          "Recebimento e requisicao" 1 (of_Z 1) (of_Z 10) NaN)).

(** Three receipts, fed latest first: 3 March, and twice 20 January. *)
Definition three_movements : list Feed.row :=
  [ feed_row 3 (mkDate 2024 3 3) None "NF 3" "RECEBIMENTO NF 3" 1
      (of_Z 1) (of_Z 12) NaN;
    feed_row 2 (mkDate 2024 1 20) None "NF 2" "RECEBIMENTO NF 2" 1
      (of_Z 2) (of_Z 22) NaN;
    feed_row 1 (mkDate 2024 1 20) None "NF 1" "RECEBIMENTO NF 1" 1
      (of_Z 5) (of_Z 50) NaN ].

(** ** The group scan *)

(** The rows that [set_dismantling_id_loop] visits, with the group id it
    gives to each. *)
Fixpoint scan (rows : list movement) (current : option Z) (last_was_output : bool)
    : list movement :=
  match rows with
  | [] => []
  | row :: rest =>
      let opens :=
        match current with None => true | Some _ => false end
        || (is_dismantling_input row && last_was_output) in
      let current := if opens then Some (movement_id row) else current in
      let last_was_output := if opens then false else last_was_output in
      let last_was_output :=
        if is_dismantling_output row then true else last_was_output in
      with_dismantling_id current row :: scan rest current last_was_output
  end.

(** In the words of the specification.  After the dismantling movements
    [pre], the open group is the group of the last of them; there is none
    before the first. *)
Definition open_group (pre : list movement) : option Z :=
  last (map dismantling_id pre) None.

(** The group [g] has produced an output among [pre]. *)
Definition has_output (pre : list movement) (g : option Z) : Prop :=
  exists o, In o pre /\ is_dismantling_output o = true /\ dismantling_id o = g.

(** The movement [r], arriving after [pre], starts a new group. *)
Definition opens_group (pre : list movement) (r : movement) : Prop :=
  open_group pre = None
  \/ (is_dismantling_input r = true /\ has_output pre (open_group pre)).

(** What the scan knows after the movements [done]. *)
Definition scan_inv (done : list movement) (current : option Z) (lwo : bool) : Prop :=
  current = open_group done
  /\ (forall g, current = Some g -> exists o, In o done /\ g = movement_id o)
  /\ (lwo = true <-> has_output done current)
  /\ (forall o, In o done ->
        exists p, In p done /\ dismantling_id o = Some (movement_id p)).

(** What the specification says of the movement [r] that follows [pre]. *)
Definition scanned (pre : list movement) (r : movement) : Prop :=
  dismantling_id r <> None
  /\ (opens_group pre r <-> dismantling_id r = Some (movement_id r))
  /\ (~ opens_group pre r -> dismantling_id r = open_group pre).

(** ** Value conservation *)

(** The value that one resolution takes from the inputs comes back in the
    outputs. *)
Definition value_conserved (inputs outputs : list movement) : Prop :=
  sum (map total_cost outputs) = neg (sum (map total_cost inputs)).

(** The rational a finite cell holds. *)
Definition to_Qc (x : num) : Qc :=
  match x with Fin q => q | _ => Q2Qc 0 end.

Definition Qsum (xs : list Qc) : Qc := fold_right Qcplus (Q2Qc 0) xs.

(** The two dismantling flags as the classifier sets them: by the sign of
    the cost the feed recorded, which [original_cost] keeps. *)
Definition dismantling_classified (r : movement) : Prop :=
  is_dismantling_input r = ltb (original_cost r) zero && is_dismantling r
  /\ is_dismantling_output r = ltb zero (original_cost r) && is_dismantling r.

(** A production order whose only output was recorded at cost 0. *)
Definition zero_cost_output : t :=
  init [ feed_row 6 (mkDate 2024 2 1) (Some 9) "OP 9" "REQUISICAO OP 9" 1
           (of_Z (-3)) (of_Z (-27)) NaN;
         feed_row 7 (mkDate 2024 2 2) (Some 9) "OP 9" "ENC ORDEM 9" 3
           (of_Z 1) (of_Z 0) NaN ].

(** A production order whose first movement is a requisition and, by its
    history, a closing of the order as well. *)
Definition both_ways : t :=
  init [ feed_row 6 (mkDate 2024 2 1) (Some 9) "OP 9" "REQUISICAO E ENC ORDEM 9" 1
           (of_Z (-3)) (of_Z (-27)) NaN;
         feed_row 7 (mkDate 2024 2 2) (Some 9) "OP 9" "ENC ORDEM 9" 3
           (of_Z 1) (of_Z 9) NaN ].

(** One input of item 1 and one output of item 2, without overrides. *)
Definition dismantling_pair : t :=
  init [ feed_row 2 (mkDate 2024 1 5) None "DESMONTE 7" "DESMONTE" 1
           (of_Z (-2)) (of_Z (-30)) NaN;
         feed_row 3 (mkDate 2024 1 5) None "DESMONTE 7" "DESMONTE" 2
           (of_Z 2) (of_Z 30) NaN ].

(** A row to stand for a missing one. *)
Definition blank_row : movement :=
  set_init_columns
    (feed_row 0 (mkDate 2024 1 1) None "" "" 0 zero zero NaN).

(** Input, output, output, input, output. *)
Definition five_dismantlings : t :=
  map set_init_columns
    [ feed_row 1 (mkDate 2024 1 5) None "DESMONTE 1" "D" 1 (of_Z (-2)) (of_Z (-30)) NaN;
      feed_row 2 (mkDate 2024 1 5) None "DESMONTE 1" "D" 2 (of_Z 1) (of_Z 10) NaN;
      feed_row 3 (mkDate 2024 1 5) None "DESMONTE 1" "D" 3 (of_Z 1) (of_Z 20) NaN;
      feed_row 4 (mkDate 2024 1 6) None "DESMONTE 2" "D" 1 (of_Z (-1)) (of_Z (-15)) NaN;
      feed_row 5 (mkDate 2024 1 6) None "DESMONTE 2" "D" 2 (of_Z 1) (of_Z 15) NaN ].

(** ** The ledger's own invariant and cells *)

(** The average cost of a position is its total cost by unit, and zero for
    a position that holds nothing: what [set_average_cost] and
    [insert_transaction] compute. *)
Definition average_ok (p : Stock.position) : Prop :=
  Stock.average_cost p
  = if neb (Stock.quantity p) zero
    then (Stock.total_cost p / Stock.quantity p)%num
    else zero.

(** The original total cost the ledger holds of an item. *)
Definition ledger_original (item : Z) (stock : Stock.t) : num :=
  match find (fun p => (Stock.item_id p =? item)%Z) stock with
  | Some p => Stock.original_total_cost p
  | None => zero
  end.

(** The test of the anomaly guard on finite costs: [o] the original cost,
    [c] the cost at hand.  By zero the deviation is infinite, unless the
    cost at hand is zero too. *)
Definition deviates (o c : Qc) : bool :=
  if Qc_eqb o (Q2Qc 0) then negb (Qc_eqb c (Q2Qc 0))
  else match (Q2Qc 10 ?= Qcabs ((o - c) / o))%Qc with Lt => true | _ => false end.

(** The row that [insert_new_item_with_empty_stock] appends. *)
Definition empty_position (item : Z) (descr : string) : Stock.position :=
  Stock.mkPosition item descr zero zero zero zero.

(** The ledger in which [insert_movement_to_stock] finds the item of [m]. *)
Definition with_item (m : movement) (stock : Stock.t) : Stock.t :=
  if Stock.item_id_exists (item_id m) stock then stock
  else stock ++ [empty_position (item_id m) (item_description m)].

(** The ledger after the movement [m], as it was read, is applied. *)
Definition applied (m : movement) (stock : Stock.t) : Stock.t :=
  map (fun p => if (Stock.item_id p =? item_id m)%Z
                then Stock.transact (quantity m) (total_cost m) (original_cost m) p
                else p)
      (with_item m stock).

(** The anomaly guard, on the row as it was read. *)
Definition guard_fires (m : movement) : bool :=
  ltb (of_Z 10) (abs ((original_cost m - total_cost m) / original_cost m))
  && contains "INVENT" (movement_history m).

(** The item ids of the ledger once a movement of item [item] is applied. *)
Definition add_item (item : Z) (ids : list Z) : list Z :=
  if existsb (fun i => (i =? item)%Z) ids then ids else ids ++ [item].

(** The item of the first of [rows] whose item the ledger does not have. *)
Definition first_unknown (stock : Stock.t) (rows : list movement) : option Z :=
  option_map item_id (find (fun r => negb (known stock r)) rows).

(** A row after some steps of the pass, beside the row before: the cells
    outside the three that corrections write are the same, and a mark that
    was set is still set. *)
Definition carried (r r' : movement) : Prop :=
  frame r' = frame r
  /\ (movement_cost_is_already_correct r = true ->
      movement_cost_is_already_correct r' = true).

(** The flags of a row agree with its ids: a dismantling has a group, a
    row of a production order has an order, and the input and output flags
    are set only within their kind. *)
Definition grouped (r : movement) : Prop :=
  (is_dismantling r = true -> exists g, dismantling_id r = Some g)
  /\ (is_dismantling_input r = true \/ is_dismantling_output r = true ->
      is_dismantling r = true)
  /\ (is_production_order r = true -> exists o, production_order_id r = Some o)
  /\ (is_production_order_input r = true \/ is_production_order_output r = true ->
      is_production_order r = true).

(** The errors that tell of the data: a group without inputs or outputs, an
    order without inputs, an item that the ledger does not have. *)
Definition data_error (e : error) : bool :=
  match e with
  | DismantlingIncomplete _ | ProductionOrderIncomplete _ | ItemNotFound _ => true
  | _ => false
  end.

(** A row after the turn of [row], beside the row before: the mark of a
    movement that is corrected on its own moves only in its own turn. *)
Definition touched (row m m' : movement) : Prop :=
  frame m' = frame m
  /\ (movement_id m <> movement_id row ->
      is_dismantling m = false -> is_production_order m = false ->
      movement_cost_is_already_correct m' = movement_cost_is_already_correct m).

(** ** Dates *)

(** The dates that [datetime] can hold. *)
Definition valid_date (d : datetime) : bool :=
  (1 <=? year d) && (year d <=? 9999)
  && (1 <=? month d) && (month d <=? 12)
  && (1 <=? day d) && (day d <=? days_in_month (year d) (month d)).

(** In an earlier month. *)
Definition month_lt (a b : datetime) : Prop :=
  year a < year b \/ (year a = year b /\ month a < month b).

Definition date_le (a b : datetime) : Prop := datetime_lt a b \/ a = b.

(** A timeline beside the date of the movement processed last: its dates
    go up, each is the last day of a month in which a movement of [table]
    falls, and each lies in a month before that of the last movement. *)
Definition timeline_ok (table : t) (last : option datetime)
    (resume : StockResume.t) : Prop :=
  StronglySorted datetime_lt (map StockResume.date resume)
  /\ Forall (fun e =>
               exists r, In r table
                 /\ StockResume.date e
                    = mkDate (year (correct_movement_date r))
                        (month (correct_movement_date r))
                        (days_in_month (year (correct_movement_date r))
                           (month (correct_movement_date r))))
       resume
  /\ match last with
     | Some l =>
         (exists r, In r table /\ l = correct_movement_date r)
         /\ Forall (fun e => month_lt (StockResume.date e) l) resume
     | None => resume = []
     end.

(** ** The cells a correction writes *)

(** Every cell of [r'] but [total_cost], [average_cost] and the mark is the
    cell of [r]. *)
Definition kept (r r' : movement) : Prop :=
  movement_id r' = movement_id r
  /\ movement_date r' = movement_date r
  /\ production_order_id r' = production_order_id r
  /\ entry_date r' = entry_date r
  /\ document_number r' = document_number r
  /\ movement_history r' = movement_history r
  /\ item_id r' = item_id r
  /\ item_description r' = item_description r
  /\ quantity r' = quantity r
  /\ correct_cost r' = correct_cost r
  /\ correct_movement_date r' = correct_movement_date r
  /\ is_dismantling r' = is_dismantling r
  /\ is_dismantling_input r' = is_dismantling_input r
  /\ is_dismantling_output r' = is_dismantling_output r
  /\ is_production_order r' = is_production_order r
  /\ is_production_order_input r' = is_production_order_input r
  /\ is_production_order_output r' = is_production_order_output r
  /\ is_entry r' = is_entry r
  /\ dismantling_id r' = dismantling_id r
  /\ original_cost r' = original_cost r.

(** The row [r'] is the input [r] costed from the ledger: its item has a
    position there, its total cost is its quantity at the average cost of
    that position, its average cost is that average, and it is marked. *)
Definition input_cells (stock : Stock.t) (r r' : movement) : Prop :=
  kept r r'
  /\ exists p,
       Stock.get_stock (item_id r) stock = OK p
       /\ total_cost r' = (quantity r * Stock.average_cost p)%num
       /\ average_cost r' = Stock.average_cost p
       /\ movement_cost_is_already_correct r' = true.

(** The row [r'] is the output [r] given its share of the value [l], [s]
    being the sum of the original costs of the outputs: its total cost is
    [l] times its original cost over [s], its average cost is that total
    over its quantity, and it is marked. *)
Definition output_cells (l s : num) (r r' : movement) : Prop :=
  kept r r'
  /\ total_cost r' = (l * (original_cost r / s))%num
  /\ average_cost r' = ((l * (original_cost r / s)) / quantity r)%num
  /\ movement_cost_is_already_correct r' = true.

(** One row before and after a resolution with these inputs and outputs:
    an input is costed from the ledger, an output gets its share of the
    value taken from the inputs, and any other row is left alone. *)
Definition resolution_cells (stock : Stock.t) (inputs outputs : list movement)
    (r r' : movement) : Prop :=
  (In r inputs -> input_cells stock r r')
  /\ (In r outputs ->
      output_cells (liberated stock inputs zero)
        (sum (map original_cost outputs)) r r')
  /\ (~ In r inputs -> ~ In r outputs -> r' = r).

(** ** More tables to run the program on *)

(** A ledger that holds the last two units of item 1, at 10 a unit. *)
Definition last_two_units : Stock.t :=
  Stock.init [ seed 1 (of_Z 2) (of_Z 20) ].


(** A production order with one requisition of item 1 and two outputs. *)
Definition order_with_outputs : t :=
  init [ feed_row 6 (mkDate 2024 2 1) (Some 9) "OP 9" "REQUISICAO OP 9" 1
           (of_Z (-4)) (of_Z (-50)) NaN;
         feed_row 7 (mkDate 2024 2 2) (Some 9) "OP 9" "ENC ORDEM 9" 3
           (of_Z 3) (of_Z 30) NaN;
         feed_row 8 (mkDate 2024 2 2) (Some 9) "OP 9" "ENC ORDEM 9" 4
           (of_Z 1) (of_Z 10) NaN ].

End Vocabulary.

(** * Properties *)

Lemma bind_OK {A B : Type} (r : result A) (k : A -> result B) (b : B) :
  bind r k = OK b -> exists a, r = OK a /\ k a = OK b.
Proof.
  destruct r as [a|e]; simpl; intros H; [eauto | discriminate].
Qed.

(** ** Numbers *)

Lemma Qc_eqb_true (a b : Qc) : Qc_eqb a b = true <-> a = b.
Proof.
  unfold Qc_eqb. rewrite Qeq_bool_iff. split.
  - apply Qc_is_canon.
  - intros ->. reflexivity.
Qed.

Lemma Qc_eqb_false (a b : Qc) : Qc_eqb a b = false <-> a <> b.
Proof.
  rewrite <- Qc_eqb_true. destruct (Qc_eqb a b); split; congruence.
Qed.

Lemma neb_Fin_zero (q : Qc) :
  neb (Fin q) zero = negb (Qc_eqb q (Q2Qc 0)).
Proof. reflexivity. Qed.

Lemma div_Fin (a b : Qc) :
  b <> Q2Qc 0 -> (Fin a / Fin b)%num = Fin (a / b)%Qc.
Proof.
  intros Hb. simpl. apply Qc_eqb_false in Hb. rewrite Hb. reflexivity.
Qed.

(** ** Stock *)

Section StockFacts.

Import Stock.

Lemma find_map_same_key (f : position -> position) (item : Z) (self : Stock.t) :
  (forall p, item_id (f p) = item_id p) ->
  find (fun p => (item_id p =? item)%Z) (map f self)
  = option_map f (find (fun p => (item_id p =? item)%Z) self).
Proof.
  intros Hf. induction self as [|p rest IH]; simpl; [reflexivity|].
  rewrite Hf. destruct (item_id p =? item)%Z; [reflexivity | exact IH].
Qed.

Lemma item_id_exists_find (item : Z) (self : Stock.t) :
  item_id_exists item self = true
  <-> exists p, find (fun p => (item_id p =? item)%Z) self = Some p.
Proof.
  unfold item_id_exists. induction self as [|p rest IH]; simpl.
  - split; [discriminate | intros [p H]; discriminate].
  - destruct (item_id p =? item)%Z; simpl; [split; eauto | exact IH].
Qed.

Lemma find_item_id (item : Z) (self : Stock.t) (p : position) :
  find (fun p => (item_id p =? item)%Z) self = Some p -> item_id p = item.
Proof.
  intros H. apply find_some in H. destruct H as [_ H]. lia.
Qed.

(** What [insert_transaction] does to the row that [get_stock] reads. *)
Lemma insert_transaction_get_stock (item : Z) (qty cost original : num)
    (self : Stock.t) (p : position) :
  get_stock item self = OK p ->
  exists self',
    insert_transaction item qty cost original self = OK self'
    /\ get_stock item self' = OK (transact qty cost original p).
Proof.
  unfold get_stock, insert_transaction. intros H.
  destruct (find _ self) as [p0|] eqn:Hfind; [|discriminate].
  injection H as ->.
  assert (Hex : item_id_exists item self = true)
    by (apply item_id_exists_find; eauto).
  rewrite Hex. simpl. eexists. split; [reflexivity|].
  rewrite find_map_same_key.
  - rewrite Hfind. simpl. apply find_item_id in Hfind.
    rewrite Hfind, Z.eqb_refl. reflexivity.
  - intros p0. destruct (item_id p0 =? item)%Z; reflexivity.
Qed.

(** C5.  A position that holds quantity [q1] at average cost [a1], with
    total cost [q1 * a1], and receives a transaction of quantity [q2] and
    cost [c2], has afterwards the average cost [(q1*a1 + c2) / (q1+q2)]
    when [q1 + q2] is not zero, and [0] when it is. *)
Theorem insert_transaction_weighted_average
    (self : Stock.t) (item : Z) (p : position) (q1 a1 q2 c2 : Qc) (original : num) :
  get_stock item self = OK p ->
  quantity p = Fin q1 ->
  average_cost p = Fin a1 ->
  total_cost p = Fin (q1 * a1)%Qc ->
  exists self' p',
    insert_transaction item (Fin q2) (Fin c2) original self = OK self'
    /\ get_stock item self' = OK p'
    /\ quantity p' = Fin (q1 + q2)%Qc
    /\ average_cost p' =
         Fin (if Qc_eq_dec (q1 + q2) (Q2Qc 0) then Q2Qc 0
              else ((q1 * a1 + c2) / (q1 + q2))%Qc).
Proof.
  intros Hget Hq _ Ht.
  destruct (insert_transaction_get_stock item (Fin q2) (Fin c2) original self p Hget)
    as [self' [Hins Hget']].
  exists self', (transact (Fin q2) (Fin c2) original p).
  repeat split; try assumption.
  - simpl. rewrite Hq. reflexivity.
  - simpl. rewrite Hq, Ht. cbn [add]. rewrite neb_Fin_zero.
    destruct (Qc_eq_dec (q1 + q2) (Q2Qc 0)) as [Hz|Hz].
    + apply Qc_eqb_true in Hz. rewrite Hz. reflexivity.
    + rewrite (proj2 (Qc_eqb_false _ _) Hz). simpl negb. cbv iota.
      apply div_Fin. exact Hz.
Qed.

Lemma insert_transaction_weighted_average_witness :
  exists self' p',
    insert_transaction 1 (Fin (Q2Qc (-4))) (Fin (Q2Qc (-44))) (Fin (Q2Qc (-40)))
      [mkPosition 1 "item" (Fin (Q2Qc 10)) (Fin (Q2Qc 10))
         (Fin (Q2Qc 10 * Q2Qc 10)%Qc) (Fin (Q2Qc 100))]
    = OK self'
    /\ get_stock 1 self' = OK p'
    /\ quantity p' = Fin (Q2Qc 10 + Q2Qc (-4))%Qc
    /\ average_cost p' =
         Fin (if Qc_eq_dec (Q2Qc 10 + Q2Qc (-4)) (Q2Qc 0) then Q2Qc 0
              else ((Q2Qc 10 * Q2Qc 10 + Q2Qc (-44))
                    / (Q2Qc 10 + Q2Qc (-4)))%Qc).
Proof.
  apply (insert_transaction_weighted_average
           [mkPosition 1 "item" (Fin (Q2Qc 10)) (Fin (Q2Qc 10))
              (Fin (Q2Qc 10 * Q2Qc 10)%Qc) (Fin (Q2Qc 100))]
           1
           (mkPosition 1 "item" (Fin (Q2Qc 10)) (Fin (Q2Qc 10))
              (Fin (Q2Qc 10 * Q2Qc 10)%Qc) (Fin (Q2Qc 100)))
           (Q2Qc 10) (Q2Qc 10) (Q2Qc (-4)) (Q2Qc (-44)) (Fin (Q2Qc (-40))));
    reflexivity.
Defined.

End StockFacts.

(** ** Strings *)

Section StringFacts.

Open Scope string_scope.

Lemma prefix_true (pat s : string) :
  String.prefix pat s = true <-> exists post, s = pat ++ post.
Proof.
  revert s. induction pat as [|c pat IH]; intros s; simpl.
  - split; [intros _; exists s; reflexivity | destruct s; reflexivity].
  - destruct s as [|c' s].
    + split; [discriminate | intros [post H]; discriminate].
    + simpl. destruct (ascii_dec c c') as [->|Hne].
      * rewrite IH. split; intros [post H]; exists post; congruence.
      * split; [discriminate | intros [post H]; congruence].
Qed.

Lemma contains_unfold (pat s : string) :
  contains pat s =
  if String.prefix pat s then true
  else match s with
       | EmptyString => false
       | String _ rest => contains pat rest
       end.
Proof. destruct s; reflexivity. Qed.

(** [contains] is the substring test. *)
Lemma contains_true (pat s : string) :
  contains pat s = true <-> exists pre post, s = pre ++ pat ++ post.
Proof.
  induction s as [|c s IH]; rewrite contains_unfold;
    destruct (String.prefix pat _) eqn:Hp.
  - split; [intros _ | reflexivity].
    apply prefix_true in Hp. destruct Hp as [post Hp].
    exists "", post. exact Hp.
  - split; [discriminate|]. intros [pre [post H]].
    destruct pre; [|discriminate]. simpl in H.
    assert (String.prefix pat "" = true) by (apply prefix_true; eauto).
    congruence.
  - split; [intros _ | reflexivity].
    apply prefix_true in Hp. destruct Hp as [post Hp].
    exists "", post. exact Hp.
  - rewrite IH. split.
    + intros [pre [post H]]. exists (String c pre), post. simpl. congruence.
    + intros [pre [post H]]. destruct pre as [|c' pre].
      * simpl in H.
        assert (String.prefix pat (String c s) = true)
          by (apply prefix_true; eauto).
        congruence.
      * simpl in H. injection H as _ H. eauto.
Qed.

Lemma upper_app (a b : string) : upper (a ++ b) = upper a ++ upper b.
Proof. induction a as [|c a IH]; simpl; [reflexivity | now rewrite IH]. Qed.

Lemma upper_split (s a b : string) :
  upper s = a ++ b -> exists s1 s2, s = s1 ++ s2 /\ upper s1 = a /\ upper s2 = b.
Proof.
  revert s. induction a as [|c a IH]; intros s H.
  - exists "", s. auto.
  - destruct s as [|c' s]; [discriminate|]. simpl in H. injection H as Hc H.
    destruct (IH s H) as [s1 [s2 [-> [H1 H2]]]].
    exists (String c' s1), s2. simpl. repeat split; congruence.
Qed.

(** [contains_nocase] finds the pattern in any mix of upper and lower case. *)
Lemma contains_nocase_true (pat s : string) :
  contains_nocase pat s = true
  <-> exists pre mid post, s = pre ++ mid ++ post /\ upper mid = upper pat.
Proof.
  unfold contains_nocase. rewrite contains_true. split.
  - intros [pre [post H]].
    destruct (upper_split _ _ _ H) as [s1 [s2 [-> [H1 H2]]]].
    destruct (upper_split _ _ _ H2) as [s3 [s4 [-> [H3 H4]]]].
    exists s1, s3, s4. auto.
  - intros [pre [mid [post [-> H]]]].
    exists (upper pre), (upper post). rewrite !upper_app. congruence.
Qed.

End StringFacts.

(** ** Lists *)

Lemma map_cons_inv {A B : Type} (f : A -> B) (a b : A) (l l' : list A) :
  map f (a :: l) = map f (b :: l') -> f a = f b /\ map f l = map f l'.
Proof. simpl. intros H. injection H as H1 H2. auto. Qed.

(** ** The movement table *)

Section MovementFacts.

Import StockMovements.

Lemma frame_resolved (a b : num) (r : movement) : frame (resolved a b r) = frame r.
Proof. reflexivity. Qed.

Lemma frame_with_total_cost (v : num) (r : movement) :
  frame (with_total_cost v r) = frame r.
Proof. reflexivity. Qed.

Lemma frame_movement_id (r r' : movement) :
  frame r = frame r' -> movement_id r = movement_id r'.
Proof. intros H. exact (f_equal movement_id H). Qed.

Lemma at_set_frame (index : Z) (f : movement -> movement) (self : t) :
  (forall r, frame (f r) = frame r) ->
  map frame (at_set index f self) = map frame self.
Proof.
  intros Hf. unfold at_set. rewrite map_map. apply map_ext.
  intros r. destruct (movement_id r =? index)%Z; [apply Hf | reflexivity].
Qed.

Lemma correct_inputs_frame (rows : list movement) (stock : Stock.t) :
  forall (self self' : t) (acc acc' : num),
    correct_inputs rows stock self acc = OK (self', acc') ->
    map frame self' = map frame self.
Proof.
  induction rows as [|row rest IH]; simpl; intros self self' acc acc' H.
  - injection H as <- _. reflexivity.
  - apply bind_OK in H. destruct H as [p [_ H]].
    apply IH in H. rewrite H. apply at_set_frame. intros r. reflexivity.
Qed.

Lemma correct_outputs_frame (rows : list movement) (s l : num) :
  forall self : t, map frame (correct_outputs rows s l self) = map frame self.
Proof.
  induction rows as [|row rest IH]; simpl; intros self; [reflexivity|].
  rewrite IH. apply at_set_frame. intros r. reflexivity.
Qed.

Lemma correct_dismantling_frame (id : option Z) (stock : Stock.t) (self self' : t) :
  correct_dismantling id stock self = OK self' -> map frame self' = map frame self.
Proof.
  unfold correct_dismantling. intros H.
  destruct (negb (has_dismantling_id self)); [discriminate|].
  destruct (empty (filter _ self)); [discriminate|].
  destruct (_ || _); [discriminate|].
  apply bind_OK in H. destruct H as [[self1 l] [H1 H]].
  injection H as <-. rewrite correct_outputs_frame.
  exact (correct_inputs_frame _ _ _ _ _ _ H1).
Qed.

Lemma correct_production_order_frame (id : option Z) (stock : Stock.t)
    (self self' : t) :
  correct_production_order id stock self = OK self' ->
  map frame self' = map frame self.
Proof.
  unfold correct_production_order. intros H.
  destruct (empty (filter _ self)); [discriminate|].
  destruct (empty _); [discriminate|].
  apply bind_OK in H. destruct H as [[self1 l] [H1 H]].
  injection H as <-. rewrite correct_outputs_frame.
  exact (correct_inputs_frame _ _ _ _ _ _ H1).
Qed.

Lemma correct_movement_cost_by_stock_frame (index : Z) (stock : Stock.t)
    (self self' : t) :
  correct_movement_cost_by_stock index stock self = OK self' ->
  map frame self' = map frame self.
Proof.
  unfold correct_movement_cost_by_stock. intros H.
  apply bind_OK in H. destruct H as [m [_ H]].
  destruct (movement_cost_is_already_correct m); [discriminate|].
  apply bind_OK in H. destruct H as [p [_ H]].
  injection H as <-. apply at_set_frame. intros r. reflexivity.
Qed.

Lemma insert_movement_to_stock_frame (index : Z) (stock stock' : Stock.t)
    (self self' : t) :
  insert_movement_to_stock index stock self = OK (self', stock') ->
  map frame self' = map frame self.
Proof.
  unfold insert_movement_to_stock. intros H.
  apply bind_OK in H. destruct H as [m [_ H]].
  apply bind_OK in H. destruct H as [stock1 [_ H]].
  apply bind_OK in H. destruct H as [stock2 [_ H]].
  injection H as <- _.
  destruct (_ && _); [|reflexivity].
  apply at_set_frame. intros r. reflexivity.
Qed.

Lemma pass_step_frame (st st' : pass) (row : movement) :
  pass_step st row = OK st' ->
  map frame (movements st') = map frame (movements st).
Proof.
  unfold pass_step. intros H.
  apply bind_OK in H. destruct H as [self [Hc H]].
  apply bind_OK in H. destruct H as [[self2 stock2] [Hi H]].
  injection H as <-. simpl.
  rewrite (insert_movement_to_stock_frame _ _ _ _ _ Hi).
  destruct (movement_cost_is_already_correct row).
  { injection Hc as <-. reflexivity. }
  destruct (is_dismantling row).
  { exact (correct_dismantling_frame _ _ _ _ Hc). }
  destruct (is_production_order row).
  { exact (correct_production_order_frame _ _ _ _ Hc). }
  exact (correct_movement_cost_by_stock_frame _ _ _ _ Hc).
Qed.

Lemma pass_loop_frame (rows : list movement) :
  forall st st' : pass,
    pass_loop rows st = OK st' ->
    map frame (movements st') = map frame (movements st).
Proof.
  induction rows as [|row rest IH]; simpl; intros st st' H.
  - injection H as <-. reflexivity.
  - apply bind_OK in H. destruct H as [st1 [H1 H]].
    rewrite (IH _ _ H). exact (pass_step_frame _ _ _ H1).
Qed.

(** Reading a row by its label. *)

Lemma loc_In (index : Z) (self : t) (m : movement) :
  loc index self = OK m -> In m self /\ movement_id m = index.
Proof.
  unfold loc. destruct (find _ self) as [r|] eqn:Hf; [|discriminate].
  intros H. injection H as <-. apply find_some in Hf.
  destruct Hf as [Hin Hid]. split; [exact Hin | lia].
Qed.

Lemma loc_unique (self : t) (row : movement) :
  NoDup (map movement_id self) -> In row self ->
  loc (movement_id row) self = OK row.
Proof.
  unfold loc. induction self as [|r rest IH]; simpl; intros Hnd Hin; [contradiction|].
  inversion Hnd as [|x l Hnotin Hnd']; subst.
  destruct Hin as [->|Hin].
  - rewrite Z.eqb_refl. reflexivity.
  - destruct (movement_id r =? movement_id row)%Z eqn:He.
    + exfalso. apply Hnotin. apply Z.eqb_eq in He. rewrite He.
      apply in_map. exact Hin.
    + apply IH; assumption.
Qed.

Lemma loc_frame (index : Z) (self self' : t) (m : movement) :
  map frame self' = map frame self ->
  loc index self = OK m ->
  exists m', loc index self' = OK m' /\ frame m' = frame m.
Proof.
  unfold loc. revert self'.
  induction self as [|r rest IH]; intros [|r' rest'] Hmap; simpl;
    try discriminate.
  apply map_cons_inv in Hmap. destruct Hmap as [Hr Hrest].
  rewrite (frame_movement_id _ _ Hr).
  destruct (movement_id r =? index)%Z.
  - intros H. injection H as <-. eauto.
  - apply IH. exact Hrest.
Qed.

End MovementFacts.

(** ** The ledger under the pass *)

Section LedgerFacts.

Import StockMovements.

Lemma add_zero_l (x : num) : (zero + x)%num = x.
Proof.
  destruct x as [q| | |]; try reflexivity.
  unfold zero. cbn [add]. f_equal. apply Qcplus_0_l.
Qed.

Lemma find_app_one {A : Type} (f : A -> bool) (l : list A) (a : A) :
  find f (l ++ [a])
  = match find f l with Some x => Some x | None => if f a then Some a else None end.
Proof.
  induction l as [|x l IH]; simpl; [reflexivity|].
  destruct (f x); [reflexivity | exact IH].
Qed.

Lemma ledger_quantity_new_item (item item' : Z) (descr : string) (stock stock' : Stock.t) :
  Stock.insert_new_item_with_empty_stock item' descr stock = OK stock' ->
  ledger_quantity item stock' = ledger_quantity item stock
  /\ Stock.item_id_exists item' stock' = true.
Proof.
  unfold Stock.insert_new_item_with_empty_stock.
  destruct (Stock.item_id_exists item' stock) eqn:Hex; simpl; [discriminate|].
  intros H. injection H as <-. split.
  - unfold ledger_quantity. rewrite find_app_one. simpl.
    destruct (find _ stock); [reflexivity|].
    destruct (item' =? item)%Z; reflexivity.
  - unfold Stock.item_id_exists. rewrite existsb_app. simpl.
    rewrite Z.eqb_refl. apply orb_true_r.
Qed.

Lemma ledger_quantity_transaction (item item' : Z) (qty cost original : num)
    (stock stock' : Stock.t) :
  Stock.insert_transaction item' qty cost original stock = OK stock' ->
  ledger_quantity item stock'
  = if (item' =? item)%Z then (ledger_quantity item stock + qty)%num
    else ledger_quantity item stock.
Proof.
  unfold Stock.insert_transaction.
  destruct (Stock.item_id_exists item' stock) eqn:Hex; simpl; [|discriminate].
  intros H. injection H as <-. unfold ledger_quantity.
  rewrite find_map_same_key.
  2:{ intros p. destruct (Stock.item_id p =? item')%Z; reflexivity. }
  destruct (find _ stock) as [p|] eqn:Hf; simpl.
  - apply find_item_id in Hf. rewrite Hf.
    rewrite (Z.eqb_sym item item').
    destruct (item' =? item)%Z; reflexivity.
  - destruct (item' =? item)%Z eqn:He; [|reflexivity].
    apply Z.eqb_eq in He. subst item'.
    apply item_id_exists_find in Hex. destruct Hex as [p Hp]. congruence.
Qed.

(** [insert_movement_to_stock] adds the quantity of the movement to the
    position of its item and to no other. *)
Lemma insert_movement_to_stock_quantity (index item : Z) (stock stock' : Stock.t)
    (self self' : t) (m : movement) :
  loc index self = OK m ->
  insert_movement_to_stock index stock self = OK (self', stock') ->
  ledger_quantity item stock'
  = if (item_id m =? item)%Z then (ledger_quantity item stock + quantity m)%num
    else ledger_quantity item stock.
Proof.
  unfold insert_movement_to_stock. intros Hloc H. rewrite Hloc in H. simpl in H.
  apply bind_OK in H. destruct H as [stock1 [H1 H]].
  apply bind_OK in H. destruct H as [stock2 [H2 H]].
  injection H as _ <-.
  rewrite (ledger_quantity_transaction item _ _ _ _ _ _ H2).
  assert (Hq : ledger_quantity item stock1 = ledger_quantity item stock).
  { destruct (negb _).
    - apply (ledger_quantity_new_item item) in H1. tauto.
    - injection H1 as <-. reflexivity. }
  rewrite Hq. reflexivity.
Qed.

Lemma pass_step_quantity (table : t) (st st' : pass) (row : movement) (item : Z) :
  NoDup (map movement_id table) ->
  In row table ->
  map frame (movements st) = map frame table ->
  pass_step st row = OK st' ->
  ledger_quantity item (stock st')
  = if (item_id row =? item)%Z
    then (ledger_quantity item (stock st) + quantity row)%num
    else ledger_quantity item (stock st).
Proof.
  intros Hnd Hin Hframe H.
  assert (Hstep := pass_step_frame _ _ _ H).
  unfold pass_step in H.
  apply bind_OK in H. destruct H as [self [Hc H]].
  apply bind_OK in H. destruct H as [[self2 stock2] [Hi H]].
  injection H as <-. simpl.
  assert (Hself : map frame self = map frame table).
  { rewrite <- Hframe.
    destruct (movement_cost_is_already_correct row).
    { injection Hc as <-. reflexivity. }
    destruct (is_dismantling row).
    { exact (correct_dismantling_frame _ _ _ _ Hc). }
    destruct (is_production_order row).
    { exact (correct_production_order_frame _ _ _ _ Hc). }
    exact (correct_movement_cost_by_stock_frame _ _ _ _ Hc). }
  destruct (loc_frame (movement_id row) table self row Hself
              (loc_unique _ _ Hnd Hin)) as [m [Hm Hfm]].
  rewrite (insert_movement_to_stock_quantity _ item _ _ _ _ _ Hm Hi).
  assert (Hitem : item_id m = item_id row) by exact (f_equal item_id Hfm).
  assert (Hqty : quantity m = quantity row) by exact (f_equal quantity Hfm).
  rewrite Hitem, Hqty. reflexivity.
Qed.

Lemma pass_loop_quantity (table : t) (item : Z) (rows : list movement) :
  NoDup (map movement_id table) ->
  incl rows table ->
  forall st st' : pass,
    map frame (movements st) = map frame table ->
    pass_loop rows st = OK st' ->
    ledger_quantity item (stock st')
    = fold_left add
        (map quantity (filter (fun r => (item_id r =? item)%Z) rows))
        (ledger_quantity item (stock st)).
Proof.
  intros Hnd. induction rows as [|row rest IH]; simpl; intros Hincl st st' Hf H.
  - injection H as <-. reflexivity.
  - apply bind_OK in H. destruct H as [st1 [H1 H]].
    assert (Hin : In row table) by (apply Hincl; left; reflexivity).
    assert (Hrest : incl rest table)
      by (intros x Hx; apply Hincl; right; exact Hx).
    assert (Hf1 : map frame (movements st1) = map frame table)
      by (rewrite (pass_step_frame _ _ _ H1); exact Hf).
    rewrite (IH Hrest _ _ Hf1 H).
    rewrite (pass_step_quantity table st st1 row item Hnd Hin Hf H1).
    destruct (item_id row =? item)%Z; reflexivity.
Qed.

End LedgerFacts.

(** ** The valuation timeline *)

Section TimelineFacts.

Import StockMovements.

Lemma pass_step_timeline (st st' : pass) (row : movement) :
  pass_step st row = OK st' ->
  last_date st' = Some (correct_movement_date row)
  /\ stock_resume st'
     = close_month (last_date st) (correct_movement_date row) (stock st)
         (stock_resume st).
Proof.
  unfold pass_step. intros H.
  apply bind_OK in H. destruct H as [self [_ H]].
  apply bind_OK in H. destruct H as [[self2 stock2] [_ H]].
  injection H as <-. split; reflexivity.
Qed.

Lemma close_month_month_ends (last : option datetime) (d : datetime)
    (ledger : Stock.t) (resume : StockResume.t) (rest : list (datetime * Stock.t)) :
  close_month last d ledger resume ++ month_ends (Some d) rest
  = resume ++ month_ends last ((d, ledger) :: rest).
Proof.
  unfold close_month, StockResume.insert_new_entry. simpl.
  destruct last as [l|]; [|reflexivity].
  destruct (month_changed l d); [|reflexivity].
  rewrite <- app_assoc. reflexivity.
Qed.

(** C6.  A pass that completes leaves in the timeline, after what was there,
    exactly one snapshot per movement whose effective date falls in another
    (month, year) than that of the movement before it; the snapshot is
    dated at the end of the earlier month and totals the ledger as it stood
    before the later movement was applied.  No snapshot follows the last
    movement. *)
Theorem pass_loop_timeline (rows : list movement) :
  forall st st' : pass,
    pass_loop rows st = OK st' ->
    stock_resume st'
    = stock_resume st
      ++ month_ends (last_date st)
           (combine (map correct_movement_date rows) (ledgers_before rows st)).
Proof.
  induction rows as [|row rest IH]; intros st st' H.
  - simpl in H. injection H as <-. simpl. symmetry. apply app_nil_r.
  - simpl in H. apply bind_OK in H. destruct H as [st1 [H1 H]].
    rewrite (IH _ _ H).
    destruct (pass_step_timeline _ _ _ H1) as [Hlast Hresume].
    rewrite Hlast, Hresume.
    cbn [ledgers_before map combine]. rewrite H1.
    apply close_month_month_ends.
Qed.

End TimelineFacts.

(** ** The processing order *)

Section OrderFacts.

Import StockMovements.

Lemma datetime_eq_iff (a b : datetime) :
  a = b <-> (year a = year b /\ month a = month b /\ day a = day b).
Proof.
  destruct a, b; simpl. split.
  - intros H. injection H as -> -> ->. auto.
  - intros [-> [-> ->]]. reflexivity.
Qed.

Lemma datetime_ltb_spec (a b : datetime) :
  datetime_ltb a b = true <-> datetime_lt a b.
Proof.
  unfold datetime_ltb, datetime_lt.
  rewrite !orb_true_iff, !andb_true_iff, !orb_true_iff, !andb_true_iff,
    !Z.ltb_lt, !Z.eqb_eq.
  tauto.
Qed.

Lemma datetime_eqb_spec (a b : datetime) : datetime_eqb a b = true <-> a = b.
Proof.
  unfold datetime_eqb. rewrite !andb_true_iff, !Z.eqb_eq, datetime_eq_iff. tauto.
Qed.

Lemma key_leb_spec (a b : movement) : key_leb a b = true <-> key_le a b.
Proof.
  unfold key_leb, key_le.
  rewrite orb_true_iff, andb_true_iff, datetime_ltb_spec, datetime_eqb_spec,
    Z.leb_le.
  tauto.
Qed.

Lemma key_le_total (a b : movement) : key_le a b \/ key_le b a.
Proof.
  unfold key_le, datetime_lt. rewrite !datetime_eq_iff. lia.
Qed.

Lemma key_le_trans (a b c : movement) : key_le a b -> key_le b c -> key_le a c.
Proof.
  unfold key_le, datetime_lt. rewrite !datetime_eq_iff. lia.
Qed.


Lemma insert_by_key_perm (r : movement) (l : t) :
  Permutation (insert_by_key r l) (r :: l).
Proof.
  induction l as [|x rest IH]; simpl; [reflexivity|].
  destruct (key_leb r x); [reflexivity|].
  rewrite IH. apply perm_swap.
Qed.

Lemma order_perm (self : t) :
  Permutation (order_by_correct_movement_date self) self.
Proof.
  unfold order_by_correct_movement_date.
  induction self as [|r rest IH]; simpl; [reflexivity|].
  rewrite insert_by_key_perm. apply perm_skip. exact IH.
Qed.

Lemma insert_by_key_sorted (r : movement) (l : t) :
  StronglySorted key_le l -> StronglySorted key_le (insert_by_key r l).
Proof.
  induction 1 as [|x rest Hs IH Hall]; simpl.
  - constructor; constructor.
  - destruct (key_leb r x) eqn:Hk.
    + apply key_leb_spec in Hk. constructor.
      * constructor; assumption.
      * constructor; [exact Hk|].
        eapply Forall_impl; [|exact Hall].
        intros y Hy. exact (key_le_trans _ _ _ Hk Hy).
    + assert (Hxr : key_le x r).
      { destruct (key_le_total r x) as [H|H]; [|exact H].
        apply key_leb_spec in H. congruence. }
      constructor; [exact IH|].
      eapply Permutation_Forall.
      * symmetry. apply insert_by_key_perm.
      * constructor; assumption.
Qed.

Lemma order_sorted (self : t) :
  StronglySorted key_le (order_by_correct_movement_date self).
Proof.
  unfold order_by_correct_movement_date.
  induction self as [|r rest IH]; simpl; [constructor|].
  apply insert_by_key_sorted. exact IH.
Qed.

(** Selecting rows keeps their labels distinct. *)
Lemma NoDup_map_filter {K R : Type} (label : R -> K) (keep : R -> bool) :
  forall rows : list R,
    NoDup (map label rows) -> NoDup (map label (filter keep rows)).
Proof.
  intros rows. induction rows as [|a l IH]; simpl; intros H; [constructor|].
  inversion H as [|x l' Hnotin Hnd]; subst.
  destruct (keep a); simpl; [|apply IH; exact Hnd].
  constructor; [|apply IH; exact Hnd].
  intros Hin. apply Hnotin. apply in_map_iff in Hin.
  destruct Hin as [y [Hy Hin]]. apply filter_In in Hin.
  apply in_map_iff. exists y. tauto.
Qed.

Lemma NoDup_map_inj {A B : Type} (f : A -> B) (l : list A) (a b : A) :
  NoDup (map f l) -> In a l -> In b l -> f a = f b -> a = b.
Proof.
  induction l as [|x rest IH]; simpl; intros Hnd Ha Hb Hf; [contradiction|].
  inversion Hnd as [|y l' Hnotin Hnd']; subst.
  destruct Ha as [->|Ha], Hb as [->|Hb].
  - reflexivity.
  - exfalso. apply Hnotin. rewrite Hf. apply in_map. exact Hb.
  - exfalso. apply Hnotin. rewrite <- Hf. apply in_map. exact Ha.
  - apply IH; assumption.
Qed.



End OrderFacts.

(** ** The constructor *)

Section InitFacts.

Import StockMovements.

Lemma key_le_key (a a' b b' : movement) :
  key a = key a' -> key b = key b' -> key_le a b -> key_le a' b'.
Proof.
  unfold key, key_le. intros Ha Hb.
  injection Ha as -> ->. injection Hb as -> ->. tauto.
Qed.

Lemma sorted_same_keys (l : t) :
  forall l' : t,
    map key l = map key l' ->
    StronglySorted key_le l -> StronglySorted key_le l'.
Proof.
  induction l as [|a l IH]; intros [|a' l'] Hk Hs; try discriminate.
  - constructor.
  - apply map_cons_inv in Hk. destruct Hk as [Ha Hl].
    apply StronglySorted_inv in Hs. destruct Hs as [Hs Hall].
    constructor; [apply IH; assumption|].
    clear IH Hs. revert l' Hl.
    induction Hall as [|b l Hb Hall IHall]; intros [|b' l'] Hl;
      try discriminate; constructor.
    + apply map_cons_inv in Hl. destruct Hl as [Hb' _].
      exact (key_le_key _ _ _ _ Ha Hb' Hb).
    + apply map_cons_inv in Hl. apply IHall. tauto.
Qed.

Lemma at_set_cells {B : Type} (view : movement -> B) (index : Z)
    (f : movement -> movement) (self : t) :
  (forall r, view (f r) = view r) ->
  map view (at_set index f self) = map view self.
Proof.
  intros Hf. unfold at_set. rewrite map_map. apply map_ext.
  intros r. destruct (movement_id r =? index)%Z; [apply Hf | reflexivity].
Qed.

(** [set_dismantling_id] writes the column [dismantling_id] and no other. *)
Lemma set_dismantling_id_loop_cells (rows : list movement) :
  forall (current : option Z) (last_was_output : bool) (self : t),
    map (with_dismantling_id None)
      (set_dismantling_id_loop rows current last_was_output self)
    = map (with_dismantling_id None) self.
Proof.
  induction rows as [|row rest IH]; intros current lwo self; simpl;
    [reflexivity|].
  rewrite IH. apply at_set_cells. intros r. reflexivity.
Qed.

Lemma with_dismantling_id_same (r : movement) :
  with_dismantling_id (dismantling_id r) r = r.
Proof. destruct r; reflexivity. Qed.

Lemma map_eq_In {A B : Type} (f : A -> B) (l : list A) :
  forall (l' : list A) (x : A),
    map f l' = map f l -> In x l' -> exists y, In y l /\ f x = f y.
Proof.
  induction l as [|a l IH]; intros [|a' l'] x Hm Hin; try discriminate;
    try contradiction.
  apply map_cons_inv in Hm. destruct Hm as [Ha Hl].
  destruct Hin as [->|Hin].
  - exists a. split; [left; reflexivity | exact Ha].
  - destruct (IH l' x Hl Hin) as [y [Hy Hxy]].
    exists y. split; [right; exact Hy | exact Hxy].
Qed.

(** Every row of a constructed table is a row of the feed, classified by
    [set_init_columns], given some group id and finished by
    [set_movement_cost_is_already_correct]. *)
Lemma init_rows (feed : list Feed.row) (m : movement) :
  In m (init feed) ->
  exists row g,
    In row feed
    /\ m = already_correct_row (with_dismantling_id g (set_init_columns row)).
Proof.
  unfold init, set_movement_cost_is_already_correct, set_dismantling_id.
  intros H. apply in_map_iff in H. destruct H as [r1 [<- H]].
  destruct (map_eq_In _ _ _ _ (set_dismantling_id_loop_cells _ _ _ _) H)
    as [r0 [Hr0 Heq]].
  apply (Permutation_in _ (order_perm _)) in Hr0.
  apply in_map_iff in Hr0. destruct Hr0 as [row [<- Hrow]].
  exists row, (dismantling_id r1). split; [exact Hrow|].
  f_equal. rewrite <- (with_dismantling_id_same r1) at 1.
  change (with_dismantling_id (dismantling_id r1) (with_dismantling_id None r1)
          = with_dismantling_id (dismantling_id r1)
              (with_dismantling_id None (set_init_columns row))).
  rewrite Heq. reflexivity.
Qed.

Lemma init_keys (feed : list Feed.row) :
  map key (init feed)
  = map key (order_by_correct_movement_date (map set_init_columns feed)).
Proof.
  unfold init, set_movement_cost_is_already_correct, set_dismantling_id.
  rewrite map_map.
  change (fun x => key (already_correct_row x))
    with (fun x => key (with_dismantling_id None x)).
  rewrite <- map_map, set_dismantling_id_loop_cells, map_map. reflexivity.
Qed.

Lemma init_sorted (feed : list Feed.row) : StronglySorted key_le (init feed).
Proof.
  apply (sorted_same_keys
           (order_by_correct_movement_date (map set_init_columns feed))).
  - symmetry. apply init_keys.
  - apply order_sorted.
Qed.


End InitFacts.

(** ** The group resolvers as lists of cell writes *)

Section ResolverFacts.

Import StockMovements.

Lemma apply_writes_map (ws : list cell_write) :
  forall self : t, apply_writes ws self = map (row_writes ws) self.
Proof.
  induction ws as [|w ws IH]; intros self; simpl.
  - symmetry. apply map_id.
  - unfold apply_writes in *. simpl. rewrite IH. unfold at_set.
    rewrite map_map. reflexivity.
Qed.

Lemma get_stock_known (stock : Stock.t) (item : Z) :
  Stock.item_id_exists item stock = true ->
  exists p, Stock.get_stock item stock = OK p.
Proof.
  intros H. apply item_id_exists_find in H. destruct H as [p Hp].
  exists p. unfold Stock.get_stock. rewrite Hp. reflexivity.
Qed.

Lemma get_stock_OK_known (stock : Stock.t) (item : Z) (p : Stock.position) :
  Stock.get_stock item stock = OK p -> Stock.item_id_exists item stock = true.
Proof.
  unfold Stock.get_stock. destruct (find _ stock) as [q|] eqn:Hf; [|discriminate].
  intros _. apply item_id_exists_find. eauto.
Qed.

Lemma correct_inputs_known (stock : Stock.t) (rows : list movement) :
  forall (self : t) (acc : num),
    forallb (known stock) rows = true ->
    correct_inputs rows stock self acc
    = OK (apply_writes (writes_in stock rows) self, liberated stock rows acc).
Proof.
  induction rows as [|row rest IH]; intros self acc Hk; simpl; [reflexivity|].
  simpl in Hk. apply andb_true_iff in Hk. destruct Hk as [Hrow Hrest].
  unfold avg_of.
  destruct (get_stock_known _ _ Hrow) as [p Hp]. rewrite Hp. simpl.
  rewrite (IH _ _ Hrest). reflexivity.
Qed.

Lemma correct_inputs_OK (stock : Stock.t) (rows : list movement) :
  forall (self self' : t) (acc acc' : num),
    correct_inputs rows stock self acc = OK (self', acc') ->
    forallb (known stock) rows = true.
Proof.
  induction rows as [|row rest IH]; intros self self' acc acc' H; simpl;
    [reflexivity|].
  simpl in H. apply bind_OK in H. destruct H as [p [Hp H]].
  unfold known at 1. rewrite (get_stock_OK_known _ _ _ Hp). simpl.
  exact (IH _ _ _ _ H).
Qed.

Lemma correct_inputs_Raise (stock : Stock.t) (rows : list movement) :
  forall (self : t) (acc : num) (e : error),
    correct_inputs rows stock self acc = Raise e ->
    exists item, e = ItemNotFound item.
Proof.
  induction rows as [|row rest IH]; intros self acc e H; simpl in H;
    [discriminate|].
  unfold Stock.get_stock in H.
  destruct (find _ stock) as [p|]; simpl in H.
  - exact (IH _ _ _ H).
  - injection H as <-. eauto.
Qed.

Lemma correct_outputs_writes (rows : list movement) (s l : num) :
  forall self : t,
    correct_outputs rows s l self = apply_writes (writes_out s l rows) self.
Proof.
  induction rows as [|row rest IH]; intros self; simpl; [reflexivity|].
  rewrite IH. reflexivity.
Qed.

Lemma apply_writes_app (ws1 ws2 : list cell_write) (self : t) :
  apply_writes (ws1 ++ ws2) self = apply_writes ws2 (apply_writes ws1 self).
Proof. unfold apply_writes. apply fold_left_app. Qed.

Lemma write_row_frame (w : cell_write) (r : movement) :
  frame (write_row w r) = frame r.
Proof. unfold write_row. destruct (_ =? _)%Z; reflexivity. Qed.

Lemma row_writes_frame (ws : list cell_write) :
  forall r : movement, frame (row_writes ws r) = frame r.
Proof.
  induction ws as [|w ws IH]; intros r; simpl; [reflexivity|].
  unfold row_writes in *. simpl. rewrite IH. apply write_row_frame.
Qed.

Lemma row_writes_miss (ws : list cell_write) :
  forall r : movement,
    (forall w, In w ws -> w_id w <> movement_id r) -> row_writes ws r = r.
Proof.
  induction ws as [|w ws IH]; intros r H; [reflexivity|].
  unfold row_writes in *. simpl. unfold write_row at 2.
  destruct (movement_id r =? w_id w)%Z eqn:He.
  - exfalso. apply (H w); [left; reflexivity|]. apply Z.eqb_eq in He. congruence.
  - apply IH. intros w' Hw'. apply H. right. exact Hw'.
Qed.

(** When no two writes go to the same row, a row keeps what the one write
    that is addressed to it has put there. *)
Lemma row_writes_hit (ws : list cell_write) :
  forall (r : movement) (w : cell_write),
    NoDup (map w_id ws) -> In w ws -> w_id w = movement_id r ->
    row_writes ws r = resolved (w_total w) (w_average w) r.
Proof.
  induction ws as [|w0 ws IH]; intros r w Hnd Hin Hid; [contradiction|].
  simpl in Hnd. inversion Hnd as [|x l Hnotin Hnd']; subst.
  unfold row_writes in *. simpl. unfold write_row at 2.
  destruct Hin as [->|Hin].
  - rewrite Hid, Z.eqb_refl. apply row_writes_miss.
    intros w' Hw' Heq. apply Hnotin. simpl in Heq. rewrite Hid, <- Heq.
    apply in_map. exact Hw'.
  - destruct (movement_id r =? w_id w0)%Z eqn:He.
    + exfalso. apply Hnotin. apply Z.eqb_eq in He. rewrite <- He, <- Hid.
      apply in_map. exact Hin.
    + apply IH; assumption.
Qed.

Lemma write_row_id (w : cell_write) (r : movement) :
  movement_id (write_row w r) = movement_id r.
Proof. unfold write_row. destruct (_ =? _)%Z; reflexivity. Qed.

(** All rows with one label fare alike: the writes leave them alone, or
    the last write addressed to them decides the three cells. *)
Lemma row_writes_cases (ws : list cell_write) (index : Z) :
  (forall r, movement_id r = index -> row_writes ws r = r)
  \/ (exists a b, forall r, movement_id r = index ->
                           row_writes ws r = resolved a b r).
Proof.
  induction ws as [|w ws IH]; [left; reflexivity|].
  unfold row_writes in *. simpl.
  destruct IH as [Hsame|[a [b Hab]]].
  - destruct (index =? w_id w)%Z eqn:He.
    + right. exists (w_total w), (w_average w). intros r Hr.
      rewrite Hsame by (rewrite write_row_id; exact Hr).
      unfold write_row. rewrite Hr, He. reflexivity.
    + left. intros r Hr.
      rewrite Hsame by (rewrite write_row_id; exact Hr).
      unfold write_row. rewrite Hr, He. reflexivity.
  - right. exists a, b. intros r Hr.
    rewrite Hab by (rewrite write_row_id; exact Hr).
    unfold write_row. destruct (_ =? _)%Z; reflexivity.
Qed.

(** Running the same writes a second time changes nothing. *)
Lemma row_writes_idem (ws : list cell_write) (r : movement) :
  row_writes ws (row_writes ws r) = row_writes ws r.
Proof.
  destruct (row_writes_cases ws (movement_id r)) as [H|[a [b H]]].
  - rewrite !(H r eq_refl). reflexivity.
  - rewrite (H r eq_refl). rewrite (H (resolved a b r) eq_refl). reflexivity.
Qed.

End ResolverFacts.

(** ** What a resolver selects and what it returns *)

Section GroupFacts.

Import StockMovements.

Lemma empty_false (rows : list movement) : empty rows = false <-> rows <> [].
Proof. destruct rows; simpl; split; congruence. Qed.

Lemma resolve_OK (stock : Stock.t) (inputs outputs : list movement) (self self' : t) :
  ('(self1, l) <- correct_inputs inputs stock self zero ;;
   OK (correct_outputs outputs (sum (map original_cost outputs)) l self1))
  = OK self' ->
  forallb (known stock) inputs = true
  /\ self' = map (row_writes (resolve_writes stock inputs outputs)) self.
Proof.
  intros H. apply bind_OK in H. destruct H as [[self1 l] [H1 H]].
  assert (Hk := correct_inputs_OK _ _ _ _ _ _ H1).
  rewrite (correct_inputs_known _ _ _ _ Hk) in H1.
  injection H1 as <- <-. injection H as <-.
  split; [exact Hk|].
  rewrite correct_outputs_writes, <- apply_writes_app.
  apply apply_writes_map.
Qed.

Lemma resolve_known (stock : Stock.t) (inputs outputs : list movement) (self : t) :
  forallb (known stock) inputs = true ->
  ('(self1, l) <- correct_inputs inputs stock self zero ;;
   OK (correct_outputs outputs (sum (map original_cost outputs)) l self1))
  = OK (map (row_writes (resolve_writes stock inputs outputs)) self).
Proof.
  intros Hk. rewrite (correct_inputs_known _ _ _ _ Hk). simpl.
  rewrite correct_outputs_writes.
  rewrite <- apply_writes_map. unfold resolve_writes.
  rewrite apply_writes_app. reflexivity.
Qed.

Lemma correct_dismantling_OK (id : option Z) (stock : Stock.t) (self self' : t) :
  correct_dismantling id stock self = OK self' ->
  dismantling_inputs id self <> []
  /\ dismantling_outputs id self <> []
  /\ forallb (known stock) (dismantling_inputs id self) = true
  /\ self' = map (row_writes (resolve_writes stock (dismantling_inputs id self)
                                (dismantling_outputs id self))) self.
Proof.
  unfold correct_dismantling, dismantling_inputs, dismantling_outputs. intros H.
  destruct (negb (has_dismantling_id self)); [discriminate|].
  destruct (empty (filter _ self)); [discriminate|].
  destruct (empty (filter is_dismantling_input _)) eqn:Hi; [discriminate|].
  destruct (empty (filter is_dismantling_output _)) eqn:Ho; [discriminate|].
  simpl in H. apply resolve_OK in H.
  rewrite empty_false in Hi, Ho. tauto.
Qed.

Lemma correct_dismantling_column (id : option Z) (stock : Stock.t) (self self' : t) :
  correct_dismantling id stock self = OK self' -> has_dismantling_id self = true.
Proof.
  unfold correct_dismantling.
  destruct (has_dismantling_id self); [reflexivity | discriminate].
Qed.

Lemma has_dismantling_id_frame (self : t) :
  forall self' : t,
    map frame self' = map frame self ->
    has_dismantling_id self' = has_dismantling_id self.
Proof.
  unfold has_dismantling_id.
  induction self as [|r self IH]; intros [|r' self'] H; try discriminate;
    [reflexivity|].
  apply map_cons_inv in H. destruct H as [Hr Hrest]. simpl.
  rewrite (IH _ Hrest).
  rewrite (f_equal is_dismantling Hr : is_dismantling r' = is_dismantling r).
  reflexivity.
Qed.

Lemma correct_dismantling_known (id : option Z) (stock : Stock.t) (self : t) :
  has_dismantling_id self = true ->
  dismantling_inputs id self <> [] ->
  dismantling_outputs id self <> [] ->
  forallb (known stock) (dismantling_inputs id self) = true ->
  correct_dismantling id stock self
  = OK (map (row_writes (resolve_writes stock (dismantling_inputs id self)
                           (dismantling_outputs id self))) self).
Proof.
  unfold correct_dismantling, dismantling_inputs, dismantling_outputs.
  intros Hcol Hi Ho Hk. rewrite Hcol. cbn [negb].
  destruct (filter (fun r => same_id (dismantling_id r) id) self) as [|r g] eqn:Hg.
  { exfalso. apply Hi. reflexivity. }
  simpl empty at 1. cbv iota.
  apply empty_false in Hi. apply empty_false in Ho. rewrite Hi, Ho. simpl orb.
  cbv iota. apply resolve_known. exact Hk.
Qed.

Lemma correct_production_order_OK (id : option Z) (stock : Stock.t)
    (self self' : t) :
  correct_production_order id stock self = OK self' ->
  production_order_inputs id self <> []
  /\ forallb (known stock) (production_order_inputs id self) = true
  /\ self' = map (row_writes (resolve_writes stock
                                (production_order_inputs id self)
                                (production_order_outputs id self))) self.
Proof.
  unfold correct_production_order, production_order_inputs,
    production_order_outputs. intros H.
  destruct (empty (filter _ self)); [discriminate|].
  destruct (empty (filter is_production_order_input _)) eqn:Hi; [discriminate|].
  apply resolve_OK in H. rewrite empty_false in Hi. tauto.
Qed.

Lemma correct_production_order_known (id : option Z) (stock : Stock.t) (self : t) :
  production_order_inputs id self <> [] ->
  forallb (known stock) (production_order_inputs id self) = true ->
  correct_production_order id stock self
  = OK (map (row_writes (resolve_writes stock (production_order_inputs id self)
                           (production_order_outputs id self))) self).
Proof.
  unfold correct_production_order, production_order_inputs,
    production_order_outputs.
  intros Hi Hk.
  destruct (filter (fun r => same_id (production_order_id r) id) self)
    as [|r g] eqn:Hg.
  { exfalso. apply Hi. reflexivity. }
  simpl empty at 1. cbv iota.
  apply empty_false in Hi. rewrite Hi.
  apply resolve_known. exact Hk.
Qed.

(** The selections and the writes read only cells of the frame. *)

Lemma filter_map_frame (p : movement -> bool) (g : movement -> movement) (l : t) :
  (forall r, p (g r) = p r) -> filter p (map g l) = map g (filter p l).
Proof.
  intros Hp. induction l as [|r l IH]; simpl; [reflexivity|].
  rewrite Hp. destruct (p r); simpl; rewrite IH; reflexivity.
Qed.

Section FramePreserving.

Variable g : movement -> movement.
Hypothesis g_frame : forall r, frame (g r) = frame r.

Lemma g_cell {B : Type} (cell : movement -> B) :
  (forall r, cell (frame r) = cell r) -> forall r, cell (g r) = cell r.
Proof. intros Hc r. rewrite <- (Hc (g r)), g_frame. apply Hc. Qed.

Lemma dismantling_inputs_map (id : option Z) (self : t) :
  dismantling_inputs id (map g self) = map g (dismantling_inputs id self).
Proof.
  unfold dismantling_inputs. rewrite !filter_map_frame; [reflexivity| |].
  - intros r. apply (g_cell is_dismantling_input). reflexivity.
  - intros r. apply (g_cell (fun r => same_id (dismantling_id r) id)). reflexivity.
Qed.

Lemma dismantling_outputs_map (id : option Z) (self : t) :
  dismantling_outputs id (map g self) = map g (dismantling_outputs id self).
Proof.
  unfold dismantling_outputs. rewrite !filter_map_frame; [reflexivity| |].
  - intros r. apply (g_cell is_dismantling_output). reflexivity.
  - intros r. apply (g_cell (fun r => same_id (dismantling_id r) id)). reflexivity.
Qed.

Lemma production_order_inputs_map (id : option Z) (self : t) :
  production_order_inputs id (map g self)
  = map g (production_order_inputs id self).
Proof.
  unfold production_order_inputs. rewrite !filter_map_frame; [reflexivity| |].
  - intros r. apply (g_cell is_production_order_input). reflexivity.
  - intros r.
    apply (g_cell (fun r => same_id (production_order_id r) id)). reflexivity.
Qed.

Lemma production_order_outputs_map (id : option Z) (self : t) :
  production_order_outputs id (map g self)
  = map g (production_order_outputs id self).
Proof.
  unfold production_order_outputs. rewrite !filter_map_frame; [reflexivity| |].
  - intros r. apply (g_cell is_production_order_output). reflexivity.
  - intros r.
    apply (g_cell (fun r => same_id (production_order_id r) id)). reflexivity.
Qed.

Lemma writes_in_map (stock : Stock.t) (rows : list movement) :
  writes_in stock (map g rows) = writes_in stock rows.
Proof.
  unfold writes_in. rewrite map_map. apply map_ext. intros r.
  rewrite (g_cell movement_id), (g_cell quantity), (g_cell item_id);
    reflexivity.
Qed.

Lemma liberated_map (stock : Stock.t) (rows : list movement) :
  forall acc, liberated stock (map g rows) acc = liberated stock rows acc.
Proof.
  unfold liberated. induction rows as [|r rows IH]; intros acc; simpl;
    [reflexivity|].
  rewrite IH, (g_cell quantity), (g_cell item_id); reflexivity.
Qed.

Lemma writes_out_map (s l : num) (rows : list movement) :
  writes_out s l (map g rows) = writes_out s l rows.
Proof.
  unfold writes_out. rewrite map_map. apply map_ext. intros r.
  rewrite (g_cell movement_id), (g_cell quantity), (g_cell original_cost);
    reflexivity.
Qed.

Lemma known_map (stock : Stock.t) (rows : list movement) :
  forallb (known stock) (map g rows) = forallb (known stock) rows.
Proof.
  induction rows as [|r rows IH]; simpl; [reflexivity|].
  rewrite IH. unfold known. rewrite (g_cell item_id); reflexivity.
Qed.

Lemma resolve_writes_map (stock : Stock.t) (inputs outputs : list movement) :
  resolve_writes stock (map g inputs) (map g outputs)
  = resolve_writes stock inputs outputs.
Proof.
  unfold resolve_writes.
  rewrite writes_in_map, writes_out_map, liberated_map. do 3 f_equal.
  rewrite map_map. apply map_ext. intros r.
  apply (g_cell original_cost). reflexivity.
Qed.

End FramePreserving.

End GroupFacts.

(** ** Evaluating the program on given tables *)

Lemma Fin_eq (a b : Qc) : this a = this b -> Fin a = Fin b.
Proof. intros H. f_equal. apply Qc_is_canon. rewrite H. reflexivity. Qed.

Ltac num_eq :=
  vm_compute;
  repeat first [ reflexivity | apply Fin_eq; vm_compute; reflexivity | f_equal ].

(** ** The cells written *)

Section CellsWritten.

Import StockMovements.

Lemma kept_resolved (a b : num) (r : movement) : kept r (resolved a b r).
Proof. repeat split. Qed.

Lemma known_avg_of (stock : Stock.t) (rows : list movement) (r : movement) :
  forallb (known stock) rows = true -> In r rows ->
  exists p, Stock.get_stock (item_id r) stock = OK p
            /\ avg_of stock (item_id r) = Stock.average_cost p.
Proof.
  intros Hk Hr. rewrite forallb_forall in Hk. specialize (Hk r Hr).
  destruct (get_stock_known _ _ Hk) as [p Hp]. exists p. split; [exact Hp|].
  unfold avg_of. rewrite Hp. reflexivity.
Qed.

Lemma input_cells_resolved (stock : Stock.t) (rows : list movement) (r : movement) :
  forallb (known stock) rows = true -> In r rows ->
  input_cells stock r
    (resolved (quantity r * avg_of stock (item_id r))%num
       (avg_of stock (item_id r)) r).
Proof.
  intros Hk Hr. split; [apply kept_resolved|].
  destruct (known_avg_of stock rows r Hk Hr) as [p [Hp Havg]].
  exists p. rewrite Havg. repeat split. exact Hp.
Qed.

Lemma output_cells_resolved (l s : num) (r : movement) :
  output_cells l s r
    (resolved (l * (original_cost r / s))%num
       ((l * (original_cost r / s)) / quantity r)%num r).
Proof. split; [apply kept_resolved | repeat split]. Qed.

Lemma Forall2_map_In {A B : Type} (R : A -> B -> Prop) (f : A -> B) (l : list A) :
  (forall x, In x l -> R x (f x)) -> Forall2 R l (map f l).
Proof.
  induction l as [|a l IH]; intros H; simpl; constructor.
  - apply H. left. reflexivity.
  - apply IH. intros x Hx. apply H. right. exact Hx.
Qed.

End CellsWritten.

(** ** The claims *)

Section Claims.

Import StockMovements.
Open Scope string_scope.
Open Scope Z_scope.

(** *** C3: resolving a dismantling group again *)

(** [correct_dismantling] does not look at the flag: called on a group
    whose members are all marked correct it rewrites the costs from the
    ledger.  Here the input goes from the override -44 to -2 * 10 = -20. *)
Remark correct_dismantling_rewrites_correct_group :
  forallb movement_cost_is_already_correct
    (filter (fun r => same_id (dismantling_id r) (Some 2)) overridden_group) = true
  /\ map total_cost overridden_group = [of_Z (-44); of_Z 30]
  /\ exists self',
       correct_dismantling (Some 2) ledger_at_ten overridden_group = OK self'
       /\ map total_cost self' = [of_Z (-20); of_Z 20]
       /\ map total_cost self' <> map total_cost overridden_group.
Proof.
  split; [reflexivity|]. split; [num_eq|].
  eexists. split; [vm_compute; reflexivity|]. split; [num_eq|].
  vm_compute. discriminate.
Qed.

(** The same in the course of a pass.  The input is resolved at 10 a unit
    and applied; the entry moves the average; when the output is reached,
    its flag in the copy the loop iterates over is still unset, the group is
    resolved again, and the input, already applied at -20, is rewritten. *)
Remark second_resolution_in_a_pass :
  exists st,
    pass_loop (firstn 2 interleaved) (mkPass None interleaved ledger_at_ten [])
    = OK st
    /\ forallb movement_cost_is_already_correct (movements st) = true
    /\ map total_cost (movements st) = [of_Z (-20); of_Z 200; of_Z 20]
    /\ exists self',
         correct_dismantling (Some 2) (stock st) (movements st) = OK self'
         /\ map total_cost self' = [of_Q (-280 # 9); of_Z 200; of_Q (280 # 9)].
Proof.
  eexists. split; [vm_compute; reflexivity|].
  split; [reflexivity|]. split; [num_eq|].
  eexists. split; [vm_compute; reflexivity | num_eq].
Qed.

(** C3, on the code.  The pass resolves a group whose members are all
    marked correct, and the resolution is no no-op.  The ledger holds the
    last two units of item 1, at 10 a unit.  In the turn of the input the
    group is resolved, input at -20 and output at 20, both marked, and the
    input is applied, which empties the position of item 1.  In the turn of
    the output the loop tests the mark in the copy of the row that
    [iterrows] took before the pass, finds it unset, and resolves the group
    again, now against an average cost of 0: both costs become 0, the output
    enters the ledger at 0, and the 20 the input took out are nowhere. *)
Theorem driver_resolves_marked_group :
  exists st,
    pass_loop (firstn 1 dismantling_pair)
      (mkPass None dismantling_pair last_two_units []) = OK st
    /\ forallb movement_cost_is_already_correct
         (filter (fun r => same_id (dismantling_id r) (Some 2)) (movements st))
       = true
    /\ map total_cost (movements st) = [of_Z (-20); of_Z 20]
    /\ map average_cost (movements st) = [of_Z 10; of_Z 10]
    /\ (exists self',
          correct_dismantling (Some 2) (stock st) (movements st) = OK self'
          /\ map total_cost self' = [of_Z 0; of_Z 0]
          /\ map average_cost self' = [of_Z 0; of_Z 0]
          /\ map total_cost self' <> map total_cost (movements st))
    /\ exists st',
         correct_costs_and_generate_stocks dismantling_pair last_two_units []
         = OK st'
         /\ map total_cost (movements st') = [of_Z 0; of_Z 0]
         /\ map Stock.item_id (stock st') = [1; 2]
         /\ map Stock.quantity (stock st') = [of_Z 0; of_Z 2]
         /\ map Stock.total_cost (stock st') = [of_Z 0; of_Z 0].
Proof.
  eexists. split; [vm_compute; reflexivity|].
  split; [reflexivity|]. split; [num_eq|]. split; [num_eq|].
  split.
  - eexists. split; [vm_compute; reflexivity|]. split; [num_eq|].
    split; [num_eq|]. vm_compute. discriminate.
  - eexists. split; [vm_compute; reflexivity|].
    split; [num_eq|]. split; [reflexivity|]. split; num_eq.
Qed.

(** What does hold of a second resolution: a dismantling group that
    [correct_dismantling] has resolved against a ledger is left as it is by
    a second resolution against the same ledger, which raises no error
    either. *)
Lemma correct_dismantling_again (id : option Z) (stock : Stock.t) (self self' : t) :
  correct_dismantling id stock self = OK self' ->
  correct_dismantling id stock self' = OK self'.
Proof.
  intros H. pose proof (correct_dismantling_column _ _ _ _ H) as Hcol.
  apply correct_dismantling_OK in H.
  destruct H as [Hi [Ho [Hk Hself]]].
  set (g := row_writes (resolve_writes stock (dismantling_inputs id self)
                          (dismantling_outputs id self))) in *.
  assert (Hg : forall r, frame (g r) = frame r)
    by (intros r; apply row_writes_frame).
  subst self'.
  rewrite correct_dismantling_known.
  - rewrite (dismantling_inputs_map g Hg), (dismantling_outputs_map g Hg).
    rewrite (resolve_writes_map g Hg). fold g.
    rewrite map_map. f_equal. apply map_ext. intros r. apply row_writes_idem.
  - rewrite (has_dismantling_id_frame self); [exact Hcol|].
    rewrite map_map. apply map_ext. exact Hg.
  - rewrite (dismantling_inputs_map g Hg).
    destruct (dismantling_inputs id self); [congruence | discriminate].
  - rewrite (dismantling_outputs_map g Hg).
    destruct (dismantling_outputs id self); [congruence | discriminate].
  - rewrite (dismantling_inputs_map g Hg), (known_map g Hg). exact Hk.
Qed.

Remark correct_dismantling_again_example :
  exists self',
    correct_dismantling (Some 2) ledger_at_ten overridden_group = OK self'
    /\ correct_dismantling (Some 2) ledger_at_ten self' = OK self'.
Proof.
  eexists. split.
  - vm_compute. reflexivity.
  - apply (correct_dismantling_again (Some 2) ledger_at_ten overridden_group).
    vm_compute. reflexivity.
Qed.

(** *** C9: a production order without inputs, or without outputs *)

(** C9.  On a production order that selects some movement,
    [correct_production_order] raises the error of an incomplete order
    exactly when the order has no input movement.  With inputs and no
    output it returns, when the items of the inputs are in the ledger, and
    the inputs are resolved: ids being unique, a row that is an input of the
    order has, as total cost, its quantity times the average cost of the
    position of its item, as average cost that average, the mark, and every
    other cell as before; a row that is not is left as it is. *)
Theorem correct_production_order_incomplete
    (id : option Z) (stock : Stock.t) (self : t) :
  filter (fun r => same_id (production_order_id r) id) self <> [] ->
  (correct_production_order id stock self = Raise (ProductionOrderIncomplete id)
   <-> production_order_inputs id self = [])
  /\ (production_order_inputs id self <> [] ->
      production_order_outputs id self = [] ->
      forallb (known stock) (production_order_inputs id self) = true ->
      exists self',
        correct_production_order id stock self = OK self'
        /\ List.length self' = List.length self
        /\ (NoDup (map movement_id self) ->
            Forall2 (fun r r' =>
                       (In r (production_order_inputs id self) ->
                        kept r r'
                        /\ exists p,
                             Stock.get_stock (item_id r) stock = OK p
                             /\ total_cost r'
                                = (quantity r * Stock.average_cost p)%num
                             /\ average_cost r' = Stock.average_cost p
                             /\ movement_cost_is_already_correct r' = true)
                       /\ (~ In r (production_order_inputs id self) -> r' = r))
              self self')).
Proof.
  intros Hsel. split; [split|].
  - unfold correct_production_order, production_order_inputs.
    destruct (filter (fun r => same_id (production_order_id r) id) self)
      as [|r0 g]; [congruence|].
    simpl empty at 1. cbv iota.
    destruct (filter is_production_order_input (r0 :: g)) as [|r1 ins] eqn:Hins;
      [reflexivity|].
    simpl empty. cbv iota. intros H. exfalso.
    destruct (correct_inputs (r1 :: ins) stock self zero) as [[self1 l]|e] eqn:Hc;
      simpl in H; [discriminate|].
    apply correct_inputs_Raise in Hc. destruct Hc as [item ->]. discriminate.
  - unfold correct_production_order, production_order_inputs.
    destruct (filter (fun r => same_id (production_order_id r) id) self)
      as [|r0 g]; [congruence|].
    simpl empty at 1. cbv iota. intros ->. reflexivity.
  - intros Hi Ho Hk.
    exists (map (row_writes (writes_in stock (production_order_inputs id self))) self).
    split; [|split].
    + rewrite (correct_production_order_known id stock self Hi Hk).
      unfold resolve_writes. rewrite Ho. simpl. rewrite app_nil_r. reflexivity.
    + apply length_map.
    + intros Hnd.
      assert (Hws : NoDup (map w_id (writes_in stock
                                       (production_order_inputs id self)))).
      { unfold writes_in. rewrite map_map. simpl.
        unfold production_order_inputs.
        apply NoDup_map_filter, NoDup_map_filter. exact Hnd. }
      apply Forall2_map_In. intros r Hr. split.
      * intros Hin.
        rewrite (row_writes_hit _ r
                   (mkWrite (movement_id r)
                      (quantity r * avg_of stock (item_id r))%num
                      (avg_of stock (item_id r))) Hws).
        -- exact (input_cells_resolved stock _ r Hk Hin).
        -- unfold writes_in. apply in_map_iff. exists r. auto.
        -- reflexivity.
      * intros Hnot. apply row_writes_miss. intros w Hw Hid.
        unfold writes_in in Hw. apply in_map_iff in Hw.
        destruct Hw as [x [<- Hx]]. simpl in Hid.
        assert (x = r).
        { apply (NoDup_map_inj movement_id self); try assumption.
          unfold production_order_inputs in Hx.
          apply filter_In in Hx. destruct Hx as [Hx _].
          apply filter_In in Hx. tauto. }
        subst x. exact (Hnot Hx).
Qed.

(** A requisition of three units against a position at 10 a unit, in an
    order without outputs: the call returns and the requisition is costed
    at -30, at 10 a unit, and marked. *)
Lemma correct_production_order_incomplete_witness :
  production_order_outputs (Some 9) order_without_outputs = []
  /\ (correct_production_order (Some 9) ledger_at_ten order_without_outputs
      = Raise (ProductionOrderIncomplete (Some 9))
      <-> production_order_inputs (Some 9) order_without_outputs = [])
  /\ exists self',
       correct_production_order (Some 9) ledger_at_ten order_without_outputs
       = OK self'
       /\ map total_cost self' = [of_Z (-30)]
       /\ map average_cost self' = [of_Z 10]
       /\ map movement_cost_is_already_correct self' = [true]
       /\ Forall2 (fun r r' =>
                     (In r (production_order_inputs (Some 9) order_without_outputs) ->
                      kept r r'
                      /\ exists p,
                           Stock.get_stock (item_id r) ledger_at_ten = OK p
                           /\ total_cost r'
                              = (quantity r * Stock.average_cost p)%num
                           /\ average_cost r' = Stock.average_cost p
                           /\ movement_cost_is_already_correct r' = true)
                     /\ (~ In r (production_order_inputs (Some 9)
                                   order_without_outputs) -> r' = r))
            order_without_outputs self'.
Proof.
  assert (Hsel : filter (fun r => same_id (production_order_id r) (Some 9))
                   order_without_outputs <> [])
    by (vm_compute; discriminate).
  destruct (correct_production_order_incomplete (Some 9) ledger_at_ten
              order_without_outputs Hsel) as [Hiff Hres].
  split; [reflexivity|]. split; [exact Hiff|].
  destruct Hres as [self' [Hok [_ Hcells]]].
  - vm_compute. discriminate.
  - reflexivity.
  - reflexivity.
  - exists self'. split; [exact Hok|].
    assert (Hrun : exists run,
               correct_production_order (Some 9) ledger_at_ten
                 order_without_outputs = OK run
               /\ map total_cost run = [of_Z (-30)]
               /\ map average_cost run = [of_Z 10]
               /\ map movement_cost_is_already_correct run = [true]).
    { eexists. split; [vm_compute; reflexivity|].
      split; [num_eq|]. split; [num_eq | reflexivity]. }
    destruct Hrun as [run [Hrun [Ht [Ha Hm]]]].
    rewrite Hok in Hrun. injection Hrun as <-.
    split; [exact Ht|]. split; [exact Ha|]. split; [exact Hm|].
    apply Hcells. vm_compute. repeat constructor. simpl. tauto.
Defined.

(** *** C1: the anomaly guard of [insert_movement_to_stock] *)

(** C1, on the code.  On an inventory count whose cost deviates by more
    than 10 times the recorded cost, the guard fires and the table gets the
    recorded cost back, but the ledger is given the cost of the copy of the
    row that was read before the guard: 100, not the reverted 1. *)
Theorem insert_movement_to_stock_stale_cost :
  map original_cost inventory_count = [of_Z 1]
  /\ map total_cost inventory_count = [of_Z 100]
  /\ exists self' stock',
       insert_movement_to_stock 1 ledger_without_stock inventory_count
       = OK (self', stock')
       /\ map total_cost self' = [of_Z 1]
       /\ map Stock.total_cost stock' = [of_Z 100]
       /\ map Stock.total_cost stock' <> [of_Z 1].
Proof.
  split; [num_eq|]. split; [num_eq|].
  eexists. eexists. split; [vm_compute; reflexivity|].
  split; [num_eq|]. split; [num_eq|].
  vm_compute. discriminate.
Qed.

(** *** C4: the substring tests of the classifier *)

(** A history in lower case contains both words when case is ignored, and
    sets neither flag. *)
Lemma history_tests_are_case_sensitive :
  exists m,
    In m lower_case_history
    /\ contains_nocase "RECEBIMENTO" (movement_history m) = true
    /\ is_entry m = false
    /\ contains_nocase "REQUISICAO" (movement_history m) = true
    /\ production_order_id m = Some 9
    /\ is_production_order_input m = false.
Proof.
  eexists. split; [left; reflexivity|]. repeat split; reflexivity.
Qed.

(** C4, amended.  Only the test on the document number ignores case:
    [is_dismantling] holds iff the document number contains DESMONTE in any
    mix of cases.  The tests on the history are exact: [is_entry] holds iff
    the history contains RECEBIMENTO as written, and
    [is_production_order_input] holds iff it contains REQUISICAO as written
    and the movement has a production order id. *)
Theorem classifier_substring_tests (feed : list Feed.row) (m : movement) :
  In m (init feed) ->
  (is_dismantling m = true
   <-> exists pre mid post,
         document_number m = (pre ++ mid ++ post)%string
         /\ upper mid = "DESMONTE")
  /\ (is_entry m = true
      <-> exists pre post,
            movement_history m = (pre ++ "RECEBIMENTO" ++ post)%string)
  /\ (is_production_order_input m = true
      <-> (exists pre post,
             movement_history m = (pre ++ "REQUISICAO" ++ post)%string)
          /\ production_order_id m <> None).
Proof.
  intros H. apply init_rows in H. destruct H as [row [g [_ ->]]].
  cbn [already_correct_row with_already_correct with_total_cost
         with_original_cost with_dismantling_id set_init_columns
         is_dismantling is_entry is_production_order_input document_number
         movement_history production_order_id].
  unfold set_is_dismantling, set_is_entry, set_is_production_order_input,
    set_is_production_order.
  rewrite andb_true_iff, contains_nocase_true, !contains_true.
  split; [reflexivity|]. split; [reflexivity|].
  destruct (Feed.production_order_id row); split; intros [H1 H2];
    (split; [exact H1|]); congruence.
Qed.

Lemma classifier_substring_tests_witness :
  In lower_case_movement lower_case_history
  /\ (is_dismantling lower_case_movement = true
      <-> exists pre mid post,
            document_number lower_case_movement = (pre ++ mid ++ post)%string
            /\ upper mid = "DESMONTE")
  /\ (is_entry lower_case_movement = true
      <-> exists pre post,
            movement_history lower_case_movement
            = (pre ++ "RECEBIMENTO" ++ post)%string)
  /\ (is_production_order_input lower_case_movement = true
      <-> (exists pre post,
             movement_history lower_case_movement
             = (pre ++ "REQUISICAO" ++ post)%string)
          /\ production_order_id lower_case_movement <> None).
Proof.
  split; [left; reflexivity|].
  apply (classifier_substring_tests
           [ feed_row 5 (mkDate 2024 1 8) (Some 9) "NF 12"
               "Recebimento e requisicao" 1 (of_Z 1) (of_Z 10) NaN ]
           lower_case_movement).
  left. reflexivity.
Defined.

(** *** C8: the processing order *)


(** *** C6: the monthly snapshots *)

(** January, January, March. *)
Lemma pass_loop_timeline_witness :
  exists st',
    correct_costs_and_generate_stocks (init three_movements) [] [] = OK st'
    /\ map (fun r => month (correct_movement_date r)) (init three_movements)
       = [1; 1; 3]
    /\ map StockResume.date (stock_resume st') = [mkDate 2024 1 31].
Proof.
  unfold correct_costs_and_generate_stocks.
  destruct (pass_loop (init three_movements)
              (mkPass None (init three_movements) [] [])) as [st'|e] eqn:H.
  - exists st'. split; [reflexivity|]. split; [reflexivity|].
    rewrite (pass_loop_timeline _ _ _ H). vm_compute. reflexivity.
  - vm_compute in H. discriminate.
Defined.

(** *** C10: what the corrections leave alone *)

(** C10.  The three corrections write the cells [total_cost],
    [average_cost] and [movement_cost_is_already_correct] and no other:
    every row keeps its frame, and with it its quantity, item, dates, id and
    original cost.  Hence, after a pass that completes on a table with
    unique ids, the ledger holds of every item the quantity it was seeded
    with (none for an item without a row) plus the quantities of the
    movements of that item, added in processing order. *)
Theorem corrections_keep_frame :
  (forall id stock self self',
      correct_dismantling id stock self = OK self' ->
      map frame self' = map frame self)
  /\ (forall id stock self self',
        correct_production_order id stock self = OK self' ->
        map frame self' = map frame self)
  /\ (forall index stock self self',
        correct_movement_cost_by_stock index stock self = OK self' ->
        map frame self' = map frame self)
  /\ (forall r r',
        frame r' = frame r ->
        quantity r' = quantity r /\ item_id r' = item_id r
        /\ movement_id r' = movement_id r
        /\ movement_date r' = movement_date r /\ entry_date r' = entry_date r
        /\ correct_movement_date r' = correct_movement_date r
        /\ original_cost r' = original_cost r)
  /\ (forall self start_stock resume st',
        NoDup (map movement_id self) ->
        correct_costs_and_generate_stocks self start_stock resume = OK st' ->
        forall item,
          ledger_quantity item (stock st')
          = fold_left add
              (map quantity (filter (fun r => item_id r =? item) self))
              (ledger_quantity item start_stock)).
Proof.
  split; [exact correct_dismantling_frame|].
  split; [exact correct_production_order_frame|].
  split; [exact correct_movement_cost_by_stock_frame|].
  split.
  - intros r r' H. repeat split.
    + exact (f_equal quantity H).
    + exact (f_equal item_id H).
    + exact (f_equal movement_id H).
    + exact (f_equal movement_date H).
    + exact (f_equal entry_date H).
    + exact (f_equal correct_movement_date H).
    + exact (f_equal original_cost H).
  - intros self start_stock resume st' Hnd H item.
    unfold correct_costs_and_generate_stocks in H.
    exact (pass_loop_quantity self item self Hnd (incl_refl self)
             (mkPass None self start_stock resume) st' eq_refl H).
Qed.

Lemma corrections_keep_frame_witness :
  exists st',
    correct_costs_and_generate_stocks (init three_movements) [] [] = OK st'
    /\ ledger_quantity 1 (stock st') = of_Z 8.
Proof.
  unfold correct_costs_and_generate_stocks.
  destruct (pass_loop (init three_movements)
              (mkPass None (init three_movements) [] [])) as [st'|e] eqn:H.
  - exists st'. split; [reflexivity|].
    rewrite (proj2 (proj2 (proj2 (proj2 corrections_keep_frame)))
               (init three_movements) [] [] st').
    + num_eq.
    + vm_compute. repeat constructor; simpl; intuition discriminate.
    + exact H.
  - vm_compute in H. discriminate.
Defined.

End Claims.

(** ** The group scan *)

Section ScanFacts.

Import StockMovements.

Lemma at_set_unique (f : movement -> movement) (r : movement) (l1 l2 : t) :
  NoDup (map movement_id (l1 ++ r :: l2)) ->
  at_set (movement_id r) f (l1 ++ r :: l2) = l1 ++ f r :: l2.
Proof.
  intros Hnd. rewrite map_app in Hnd. simpl in Hnd.
  apply NoDup_remove_2 in Hnd.
  unfold at_set. rewrite map_app. simpl. rewrite Z.eqb_refl.
  assert (Hkeep : forall l, (forall x, In x l -> In (movement_id x)
                                                    (map movement_id l1 ++ map movement_id l2)) ->
            map (fun x => if movement_id x =? movement_id r then f x else x)%Z l = l).
  { intros l Hl. rewrite <- (map_id l) at 2. apply map_ext_in.
    intros x Hx. destruct (movement_id x =? movement_id r)%Z eqn:He; [|reflexivity].
    exfalso. apply Hnd. apply Z.eqb_eq in He. rewrite <- He. apply Hl. exact Hx. }
  rewrite !Hkeep; [reflexivity| |].
  - intros x Hx. apply in_or_app. right. apply in_map. exact Hx.
  - intros x Hx. apply in_or_app. left. apply in_map. exact Hx.
Qed.

Lemma filter_at_set (p : movement -> bool) (index : Z) (f : movement -> movement)
    (l : t) :
  (forall r, p (f r) = p r) ->
  filter p (at_set index f l) = at_set index f (filter p l).
Proof.
  intros Hp. unfold at_set. apply filter_map_frame.
  intros r. destruct (movement_id r =? index)%Z; [apply Hp | reflexivity].
Qed.

Lemma at_set_ids (index : Z) (f : movement -> movement) (l : t) :
  (forall r, movement_id (f r) = movement_id r) ->
  map movement_id (at_set index f l) = map movement_id l.
Proof. apply at_set_cells. Qed.

(** The loop leaves in the table what the scan computes. *)
Lemma loop_scan (todo : list movement) :
  forall (current : option Z) (lwo : bool) (table : t) (done : list movement),
    NoDup (map movement_id table) ->
    filter is_dismantling table = done ++ todo ->
    filter is_dismantling (set_dismantling_id_loop todo current lwo table)
    = done ++ scan todo current lwo.
Proof.
  induction todo as [|row rest IH]; intros current lwo table done Hnd Hf.
  - simpl. exact Hf.
  - cbn [set_dismantling_id_loop scan].
    set (opens := match current with None => true | Some _ => false end
                  || (is_dismantling_input row && lwo)).
    set (cur' := if opens then Some (movement_id row) else current).
    set (lwo' := if is_dismantling_output row then true
                 else if opens then false else lwo).
    rewrite (IH cur' lwo'
               (at_set (movement_id row) (with_dismantling_id cur') table)
               (done ++ [with_dismantling_id cur' row])).
    + rewrite <- app_assoc. reflexivity.
    + rewrite at_set_ids; [exact Hnd | reflexivity].
    + rewrite filter_at_set by reflexivity. rewrite Hf.
      rewrite at_set_unique.
      * rewrite <- app_assoc. reflexivity.
      * rewrite <- Hf. apply NoDup_map_filter. exact Hnd.
Qed.

Lemma set_dismantling_id_scan (self : t) :
  NoDup (map movement_id self) ->
  filter is_dismantling (set_dismantling_id self)
  = scan (filter is_dismantling self) None false.
Proof.
  intros Hnd. unfold set_dismantling_id.
  exact (loop_scan _ None false self [] Hnd eq_refl).
Qed.

End ScanFacts.

Section ScanSpec.

Import StockMovements.

Lemma open_group_snoc (pre : list movement) (r : movement) :
  open_group (pre ++ [r]) = dismantling_id r.
Proof. unfold open_group. rewrite map_app. simpl. apply last_last. Qed.

Lemma has_output_snoc (pre : list movement) (r : movement) (g : option Z) :
  has_output (pre ++ [r]) g
  <-> has_output pre g \/ (is_dismantling_output r = true /\ dismantling_id r = g).
Proof.
  unfold has_output. split.
  - intros [o [Hin [Ho Hg]]]. apply in_app_or in Hin. destruct Hin as [Hin|Hin].
    + left. eauto.
    + destruct Hin as [<-|[]]. right. auto.
  - intros [[o [Hin [Ho Hg]]]|[Ho Hg]].
    + exists o. split; [apply in_or_app; left; exact Hin | auto].
    + exists r. split; [apply in_or_app; right; left; reflexivity | auto].
Qed.

Lemma scan_step (done : list movement) (current : option Z) (lwo : bool)
    (x : movement) :
  scan_inv done current lwo ->
  ~ In (movement_id x) (map movement_id done) ->
  let opens := match current with None => true | Some _ => false end
               || (is_dismantling_input x && lwo) in
  let current' := if opens then Some (movement_id x) else current in
  let lwo' := if is_dismantling_output x then true
              else if opens then false else lwo in
  scanned done (with_dismantling_id current' x)
  /\ scan_inv (done ++ [with_dismantling_id current' x]) current' lwo'.
Proof.
  intros [Hcur [Hsome [Hlwo Hids]]] Hnew opens current' lwo'.
  set (x' := with_dismantling_id current' x).
  assert (Hfresh : forall o, In o done -> dismantling_id o <> Some (movement_id x)).
  { intros o Ho Heq. destruct (Hids o Ho) as [p [Hp Hgp]].
    apply Hnew. rewrite Hgp in Heq. injection Heq as <-.
    apply in_map. exact Hp. }
  assert (Hopens : opens = true <-> opens_group done x').
  { unfold opens, opens_group. rewrite <- Hcur. split.
    - intros H. apply orb_true_iff in H. destruct H as [H|H].
      + left. destruct current; [discriminate | reflexivity].
      + apply andb_true_iff in H. destruct H as [Hin Hl].
        right. split; [exact Hin | apply Hlwo; exact Hl].
    - intros [->|[Hin Hout]]; [reflexivity|].
      apply Hlwo in Hout. change (is_dismantling_input x = true) in Hin.
      rewrite Hin, Hout. apply orb_true_r. }
  assert (Hclosed : opens = false -> exists g, current = Some g).
  { unfold opens. destruct current as [g|]; [eauto | discriminate]. }
  assert (Hcur' : forall g, current' = Some g ->
            exists o, In o (done ++ [x']) /\ g = movement_id o).
  { intros g Hg. unfold current' in Hg. destruct opens.
    - injection Hg as <-. exists x'.
      split; [apply in_or_app; right; left; reflexivity | reflexivity].
    - destruct (Hsome g Hg) as [o [Ho Hgo]].
      exists o. split; [apply in_or_app; left; exact Ho | exact Hgo]. }
  split; [split; [|split]|split; [|split; [|split]]].
  - change (current' <> None). unfold current'.
    destruct opens eqn:Ho; [discriminate|].
    destruct (Hclosed eq_refl) as [g ->]. discriminate.
  - rewrite <- Hopens. change (opens = true <-> current' = Some (movement_id x)).
    unfold current'. destruct opens eqn:Ho; [tauto|].
    split; [discriminate|]. intros Hc. exfalso.
    destruct (Hsome _ Hc) as [o [Hin Hid]].
    apply Hnew. rewrite Hid. apply in_map. exact Hin.
  - intros Hno. change (current' = open_group done). rewrite <- Hcur.
    unfold current'. destruct opens; [|reflexivity].
    exfalso. apply Hno. apply Hopens. reflexivity.
  - rewrite open_group_snoc. reflexivity.
  - exact Hcur'.
  - rewrite has_output_snoc.
    change (lwo' = true
            <-> has_output done current'
                \/ (is_dismantling_output x = true /\ current' = current')).
    unfold lwo', current'.
    destruct (is_dismantling_output x); [tauto|].
    destruct opens.
    + split; [discriminate|]. intros [[o [Hin [_ Hg]]]|[H _]]; [|discriminate].
      exfalso. exact (Hfresh o Hin Hg).
    + rewrite Hlwo. split; [tauto|]. intros [H|[H _]]; [exact H | discriminate].
  - intros o Ho. apply in_app_or in Ho. destruct Ho as [Ho|[<-|[]]].
    + destruct (Hids o Ho) as [p [Hp Hgp]].
      exists p. split; [apply in_or_app; left; exact Hp | exact Hgp].
    + change (exists p, In p (done ++ [x']) /\ current' = Some (movement_id p)).
      destruct current' as [g|] eqn:Hc.
      * destruct (Hcur' g eq_refl) as [o [Hin Hg]]. exists o. split; congruence.
      * exfalso. unfold current' in Hc. destruct opens eqn:Ho; [discriminate|].
        destruct (Hclosed eq_refl) as [g Hg]. congruence.
Qed.

Lemma app_eq_same_length {A : Type} (l1 : list A) :
  forall (l2 a b : list A),
    List.length l1 = List.length l2 -> l1 ++ a = l2 ++ b -> l1 = l2 /\ a = b.
Proof.
  induction l1 as [|x l1 IH]; intros [|y l2] a b Hlen H; try discriminate.
  - auto.
  - simpl in *. injection H as -> H. injection Hlen as Hlen.
    destruct (IH _ _ _ Hlen H) as [-> ->]. auto.
Qed.

Lemma scan_ids (rows : list movement) :
  forall current lwo,
    map movement_id (scan rows current lwo) = map movement_id rows.
Proof.
  induction rows as [|r rows IH]; intros current lwo; simpl; [reflexivity|].
  rewrite IH. reflexivity.
Qed.

Lemma scan_spec (todo : list movement) :
  forall (done : list movement) (current : option Z) (lwo : bool),
    scan_inv done current lwo ->
    NoDup (map movement_id (done ++ todo)) ->
    forall pre r post,
      done ++ scan todo current lwo = pre ++ r :: post ->
      (List.length done <= List.length pre)%nat ->
      scanned pre r.
Proof.
  induction todo as [|x rest IH]; intros done current lwo Hinv Hnd pre r post Heq Hlen.
  - exfalso. apply (f_equal (@List.length _)) in Heq. simpl in Heq.
    rewrite app_nil_r, length_app in Heq. simpl in Heq. lia.
  - cbn [scan] in Heq.
    set (opens := match current with None => true | Some _ => false end
                  || (is_dismantling_input x && lwo)) in *.
    set (current' := if opens then Some (movement_id x) else current) in *.
    set (lwo' := if is_dismantling_output x then true
                 else if opens then false else lwo) in *.
    assert (Hnew : ~ In (movement_id x) (map movement_id done)).
    { rewrite map_app in Hnd. simpl in Hnd. apply NoDup_remove_2 in Hnd.
      intros H. apply Hnd. apply in_or_app. left. exact H. }
    destruct (scan_step done current lwo x Hinv Hnew) as [Hx Hinv'].
    fold opens current' lwo' in Hx, Hinv'.
    destruct (Nat.eq_dec (List.length done) (List.length pre)) as [Hsame|Hdiff].
    + destruct (app_eq_same_length _ _ _ _ Hsame Heq) as [<- Hr].
      injection Hr as <- _. exact Hx.
    + apply (IH (done ++ [with_dismantling_id current' x]) current' lwo' Hinv')
        with (post := post).
      * rewrite <- app_assoc. simpl.
        rewrite map_app in *. simpl in *. exact Hnd.
      * rewrite <- app_assoc. exact Heq.
      * rewrite length_app. simpl. lia.
Qed.

End ScanSpec.

(** ** Value conservation *)

Section Conservation.

Import StockMovements.

Lemma fin_to_Qc (x : num) : is_fin x -> x = Fin (to_Qc x).
Proof. destruct x; simpl; intros H; [reflexivity | | | ]; contradiction. Qed.

Lemma fold_add_Fin (xs : list Qc) :
  forall a : Qc, fold_left add (map Fin xs) (Fin a) = Fin (a + Qsum xs)%Qc.
Proof.
  induction xs as [|x xs IH]; intros a; simpl.
  - f_equal. ring.
  - rewrite IH. f_equal. ring.
Qed.

Lemma sum_Fin (xs : list Qc) : sum (map Fin xs) = Fin (Qsum xs).
Proof.
  unfold sum.
  assert (H : filter notnull (map Fin xs) = map Fin xs).
  { induction xs as [|x xs IH]; simpl; [reflexivity | now rewrite IH]. }
  rewrite H. unfold zero. rewrite fold_add_Fin. f_equal. ring.
Qed.

Lemma map_fin {A : Type} (f : A -> num) (l : list A) :
  Forall (fun r => is_fin (f r)) l ->
  map f l = map Fin (map (fun r => to_Qc (f r)) l).
Proof.
  induction 1 as [|r l Hr Hl IH]; simpl; [reflexivity|].
  rewrite <- IH, <- (fin_to_Qc _ Hr). reflexivity.
Qed.

Lemma minus_one : Q2Qc (inject_Z (-1)) = (- Q2Qc 1)%Qc.
Proof. apply Qc_is_canon. reflexivity. Qed.

Lemma Qsum_scale (l s : Qc) (xs : list Qc) :
  Qsum (map (fun x => l * (x / s))%Qc xs) = (l * (Qsum xs / s))%Qc.
Proof.
  induction xs as [|x xs IH]; simpl.
  - unfold Qcdiv. ring.
  - rewrite IH. unfold Qcdiv. ring.
Qed.

Lemma Qsum_positive (xs : list Qc) :
  xs <> [] -> Forall (fun x => (Q2Qc 0 < x)%Qc) xs -> (Q2Qc 0 < Qsum xs)%Qc.
Proof.
  assert (Hadd : forall x s : Qc,
             (Q2Qc 0 < x)%Qc -> (Q2Qc 0 <= s)%Qc -> (Q2Qc 0 < x + s)%Qc).
  { intros x s Hx Hs. unfold Qclt, Qcle in *.
    change (this (x + s)%Qc) with (Qred (this x + this s)).
    rewrite Qred_correct.
    exact (Qplus_lt_le_compat 0 (this x) 0 (this s) Hx Hs). }
  intros Hne H. induction H as [|x xs Hx Hxs IH]; [congruence|].
  simpl. apply Hadd; [exact Hx|].
  destruct xs as [|y ys].
  - apply Qcle_refl.
  - apply Qclt_le_weak. apply IH. discriminate.
Qed.

Section OneResolution.

Variable stock : Stock.t.
Variables inputs outputs : list movement.

Hypothesis one_write_per_row :
  NoDup (map movement_id inputs ++ map movement_id outputs).
Hypothesis inputs_finite :
  Forall (fun r => is_fin (quantity r * avg_of stock (item_id r))%num) inputs.
Hypothesis outputs_finite : Forall (fun r => is_fin (original_cost r)) outputs.
Hypothesis outputs_sum : sum (map original_cost outputs) <> zero.

Let g : movement -> movement :=
  row_writes (resolve_writes stock inputs outputs).

Let in_value (r : movement) : Qc :=
  to_Qc (quantity r * avg_of stock (item_id r))%num.

Let out_value (r : movement) : Qc := to_Qc (original_cost r).

Lemma resolve_writes_ids :
  map w_id (resolve_writes stock inputs outputs)
  = map movement_id inputs ++ map movement_id outputs.
Proof.
  unfold resolve_writes, writes_in, writes_out.
  rewrite map_app, !map_map. reflexivity.
Qed.

Lemma resolved_input (r : movement) :
  In r inputs -> total_cost (g r) = (quantity r * avg_of stock (item_id r))%num.
Proof.
  intros Hr. unfold g.
  rewrite (row_writes_hit (resolve_writes stock inputs outputs) r
             (mkWrite (movement_id r)
                (quantity r * avg_of stock (item_id r))%num
                (avg_of stock (item_id r)))).
  - reflexivity.
  - rewrite resolve_writes_ids. exact one_write_per_row.
  - unfold resolve_writes. apply in_or_app. left.
    unfold writes_in. apply in_map_iff. exists r. auto.
  - reflexivity.
Qed.

Lemma resolved_output (r : movement) :
  In r outputs ->
  total_cost (g r)
  = (liberated stock inputs zero
     * (original_cost r / sum (map original_cost outputs)))%num.
Proof.
  intros Hr. unfold g.
  set (total := (liberated stock inputs zero
                 * (original_cost r / sum (map original_cost outputs)))%num).
  rewrite (row_writes_hit (resolve_writes stock inputs outputs) r
             (mkWrite (movement_id r) total (total / quantity r)%num)).
  - reflexivity.
  - rewrite resolve_writes_ids. exact one_write_per_row.
  - unfold resolve_writes. apply in_or_app. right.
    unfold writes_out. apply in_map_iff. exists r. auto.
  - reflexivity.
Qed.

Lemma liberated_finite :
  forall (rows : list movement) (a : Qc),
    Forall (fun r => is_fin (quantity r * avg_of stock (item_id r))%num) rows ->
    liberated stock rows (Fin a) = Fin (a - Qsum (map in_value rows))%Qc.
Proof.
  unfold liberated.
  induction rows as [|r rows IH]; intros a H; simpl.
  - f_equal. ring.
  - inversion H as [|x l Hr Hrows]; subst.
    rewrite (fin_to_Qc _ Hr). cbn [mul add of_Z].
    rewrite (IH _ Hrows). f_equal. fold (in_value r).
    rewrite minus_one. ring.
Qed.

(** In exact arithmetic: the outputs receive [l * (c / s)] each, where the
    [c] add up to [s]. *)
Lemma resolve_conserves :
  value_conserved (map g inputs) (map g outputs).
Proof.
  unfold value_conserved.
  assert (Hin : map total_cost (map g inputs) = map Fin (map in_value inputs)).
  { rewrite map_map. rewrite (map_ext_in _ _ _ resolved_input).
    apply (map_fin (fun r => (quantity r * avg_of stock (item_id r))%num)).
    exact inputs_finite. }
  assert (Hs : sum (map original_cost outputs) = Fin (Qsum (map out_value outputs))).
  { rewrite (map_fin original_cost outputs outputs_finite). apply sum_Fin. }
  assert (Hs0 : Qsum (map out_value outputs) <> Q2Qc 0).
  { intros H. apply outputs_sum. rewrite Hs, H. reflexivity. }
  assert (Hl : liberated stock inputs zero
               = Fin (Q2Qc 0 - Qsum (map in_value inputs))%Qc)
    by (apply liberated_finite; exact inputs_finite).
  assert (Hout : map total_cost (map g outputs)
                 = map Fin (map (fun r => (Q2Qc 0 - Qsum (map in_value inputs))
                                          * (out_value r
                                             / Qsum (map out_value outputs)))%Qc
                              outputs)).
  { rewrite !map_map. apply map_ext_in. intros r Hr.
    rewrite (resolved_output r Hr), Hl, Hs.
    rewrite Forall_forall in outputs_finite.
    rewrite (fin_to_Qc _ (outputs_finite r Hr)).
    rewrite div_Fin by exact Hs0. reflexivity. }
  rewrite Hin, Hout, !sum_Fin. cbn [neg]. f_equal.
  rewrite <- (map_map out_value
                (fun x => (Q2Qc 0 - Qsum (map in_value inputs))
                          * (x / Qsum (map out_value outputs)))%Qc).
  rewrite Qsum_scale. field. exact Hs0.
Qed.

End OneResolution.

End Conservation.

Section ConservationClaims.

Import StockMovements.
Open Scope Z_scope.

Lemma init_classified (feed : list Feed.row) :
  Forall dismantling_classified (init feed).
Proof.
  apply Forall_forall. intros m H.
  apply init_rows in H. destruct H as [row [g [_ ->]]].
  split; reflexivity.
Qed.

(** The flags and the original cost are cells of the frame: what holds of
    them in the constructed table holds all through a pass. *)
Lemma classified_frame (self : t) :
  forall self' : t,
    map frame self' = map frame self ->
    Forall dismantling_classified self -> Forall dismantling_classified self'.
Proof.
  induction self as [|r self IH]; intros [|r' self'] Hf H; try discriminate;
    [constructor|].
  apply map_cons_inv in Hf. destruct Hf as [Hr Hrest].
  inversion H as [|x l [Hin Hout] Hl]; subst.
  constructor; [|apply IH; assumption].
  unfold dismantling_classified.
  rewrite (f_equal is_dismantling_input Hr : is_dismantling_input r' = _),
    (f_equal is_dismantling_output Hr : is_dismantling_output r' = _),
    (f_equal original_cost Hr : original_cost r' = _),
    (f_equal is_dismantling Hr : is_dismantling r' = _).
  split; assumption.
Qed.

Lemma pass_loop_classified (feed : list Feed.row) (rows : list movement)
    (st st' : pass) :
  map frame (movements st) = map frame (init feed) ->
  pass_loop rows st = OK st' ->
  Forall dismantling_classified (movements st').
Proof.
  intros Hf H. apply (classified_frame (init feed)).
  - rewrite (pass_loop_frame _ _ _ H). exact Hf.
  - apply init_classified.
Qed.

Lemma ltb_zero_positive (q : Qc) : ltb zero (Fin q) = true -> (Q2Qc 0 < q)%Qc.
Proof.
  unfold ltb, zero. destruct (Q2Qc 0 ?= q)%Qc eqn:H; try discriminate.
  intros _. apply Qclt_alt. exact H.
Qed.

Lemma ltb_zero_negative (q : Qc) : ltb (Fin q) zero = true -> (q < Q2Qc 0)%Qc.
Proof.
  unfold ltb, zero. destruct (q ?= Q2Qc 0)%Qc eqn:H; try discriminate.
  intros _. apply Qclt_alt. exact H.
Qed.

Lemma NoDup_filter_app {A B : Type} (f : A -> B) (p q : A -> bool) (l : list A) :
  NoDup (map f l) ->
  (forall r, In r l -> p r = true -> q r = true -> False) ->
  NoDup (map f (filter p l) ++ map f (filter q l)).
Proof.
  induction l as [|a l IH]; simpl; intros Hnd Hpq; [constructor|].
  inversion Hnd as [|x l' Hnotin Hnd']; subst.
  assert (IH' : NoDup (map f (filter p l) ++ map f (filter q l))).
  { apply IH; [exact Hnd'|]. intros r Hr. apply Hpq. right. exact Hr. }
  assert (Hfresh : ~ In (f a) (map f (filter p l) ++ map f (filter q l))).
  { intros H. apply Hnotin. apply in_app_or in H.
    destruct H as [H|H]; apply in_map_iff in H; destruct H as [y [Hy Hin]];
      apply filter_In in Hin; apply in_map_iff; exists y; tauto. }
  destruct (p a) eqn:Hp, (q a) eqn:Hq; simpl.
  - exfalso. apply (Hpq a); auto.
  - constructor; assumption.
  - apply NoDup_Add with (a := f a) (l := map f (filter p l) ++ map f (filter q l)).
    + apply Add_app.
    + split; assumption.
  - exact IH'.
Qed.

Lemma avg_of_finite (stock : Stock.t) (item : Z) :
  Forall (fun p => is_fin (Stock.average_cost p)) stock ->
  is_fin (avg_of stock item).
Proof.
  intros H. unfold avg_of, Stock.get_stock.
  destruct (find _ stock) as [p|] eqn:Hf; [|exact I].
  apply find_some in Hf. rewrite Forall_forall in H. apply H. tauto.
Qed.

Lemma mul_finite (x y : num) : is_fin x -> is_fin y -> is_fin (x * y)%num.
Proof. destruct x, y; simpl; tauto. Qed.

(** C2, amended.  On a table with unique ids, finite quantities and
    original costs, and a ledger with finite averages:
    a dismantling group that [correct_dismantling] resolves, its flags
    being those of the classifier, conserves value; so does a production
    order that [correct_production_order] resolves, provided the original
    costs of its outputs do not add up to zero and none of its movements is
    both an input and an output. *)
Theorem resolution_conserves_value
    (id : option Z) (stock : Stock.t) (self self' : t) :
  NoDup (map movement_id self) ->
  Forall (fun r => is_fin (quantity r) /\ is_fin (original_cost r)) self ->
  Forall (fun p => is_fin (Stock.average_cost p)) stock ->
  (Forall dismantling_classified self ->
   correct_dismantling id stock self = OK self' ->
   value_conserved (dismantling_inputs id self') (dismantling_outputs id self'))
  /\ (sum (map original_cost (production_order_outputs id self)) <> zero ->
      (forall r, In r self -> is_production_order_input r = true ->
                 is_production_order_output r = true -> False) ->
      correct_production_order id stock self = OK self' ->
      value_conserved (production_order_inputs id self')
        (production_order_outputs id self')).
Proof.
  intros Hnd Hfin Hstock.
  rewrite Forall_forall in Hfin.
  assert (Hins : forall rows : list movement,
             incl rows self ->
             Forall (fun r => is_fin (quantity r * avg_of stock (item_id r))%num)
               rows).
  { intros rows Hincl. apply Forall_forall. intros r Hr.
    apply mul_finite; [apply Hfin, Hincl, Hr | apply avg_of_finite, Hstock]. }
  assert (Houts : forall rows : list movement,
             incl rows self -> Forall (fun r => is_fin (original_cost r)) rows).
  { intros rows Hincl. apply Forall_forall. intros r Hr.
    apply Hfin, Hincl, Hr. }
  assert (Hsub : forall (p q : movement -> bool), incl (filter p (filter q self)) self).
  { intros p q r Hr. apply filter_In in Hr. destruct Hr as [Hr _].
    apply filter_In in Hr. tauto. }
  split.
  - intros Hcl H. rewrite Forall_forall in Hcl.
    apply correct_dismantling_OK in H. destruct H as [Hi [Ho [Hk ->]]].
    set (g := row_writes _).
    assert (Hg : forall r, frame (g r) = frame r)
      by (intros r; apply row_writes_frame).
    rewrite (dismantling_inputs_map g Hg), (dismantling_outputs_map g Hg).
    apply resolve_conserves.
    + unfold dismantling_inputs, dismantling_outputs.
      apply NoDup_filter_app; [apply NoDup_map_filter; exact Hnd|].
      intros r Hr Hin Hout. apply filter_In in Hr. destruct Hr as [Hr _].
      destruct (Hcl r Hr) as [Hcin Hcout]. rewrite Hcin in Hin. rewrite Hcout in Hout.
      apply andb_true_iff in Hin, Hout.
      destruct (Hfin r Hr) as [_ Hoc]. apply fin_to_Qc in Hoc.
      rewrite Hoc in Hin, Hout.
      apply (Qclt_not_le _ _ (ltb_zero_positive _ (proj1 Hout))).
      apply Qclt_le_weak. exact (ltb_zero_negative _ (proj1 Hin)).
    + apply Hins, Hsub.
    + apply Houts, Hsub.
    + assert (Hpos : Forall (fun x => (Q2Qc 0 < x)%Qc)
                       (map (fun r => to_Qc (original_cost r))
                          (dismantling_outputs id self))).
      { apply Forall_forall. intros x Hx. apply in_map_iff in Hx.
        destruct Hx as [r [<- Hr]].
        assert (Hself : In r self) by (apply (Hsub _ _ r Hr)).
        apply filter_In in Hr. destruct Hr as [_ Hout].
        destruct (Hcl r Hself) as [_ Hcout]. rewrite Hcout in Hout.
        apply andb_true_iff in Hout.
        destruct (Hfin r Hself) as [_ Hoc]. apply fin_to_Qc in Hoc.
        rewrite Hoc in Hout. apply ltb_zero_positive. tauto. }
      rewrite (map_fin original_cost (dismantling_outputs id self)
                 (Houts (dismantling_outputs id self) (Hsub _ _))), sum_Fin.
      intros Hz. injection Hz as Hz.
      apply Qsum_positive in Hpos.
      * rewrite Hz in Hpos. exact (Qclt_not_eq _ _ Hpos eq_refl).
      * destruct (dismantling_outputs id self); [congruence | discriminate].
  - intros Hsum Hdisj H.
    apply correct_production_order_OK in H. destruct H as [Hi [Hk ->]].
    set (g := row_writes _).
    assert (Hg : forall r, frame (g r) = frame r)
      by (intros r; apply row_writes_frame).
    rewrite (production_order_inputs_map g Hg),
      (production_order_outputs_map g Hg).
    apply resolve_conserves.
    + unfold production_order_inputs, production_order_outputs.
      apply NoDup_filter_app; [apply NoDup_map_filter; exact Hnd|].
      intros r Hr. apply filter_In in Hr. apply Hdisj. tauto.
    + apply Hins, Hsub.
    + apply Houts, Hsub.
    + exact Hsum.
Qed.

End ConservationClaims.

Section GroupClaims.

Import StockMovements.
Open Scope string_scope.
Open Scope Z_scope.

(** *** C2: value conservation *)

(** The order is resolved without an error.  The input takes 30 from the
    ledger; the share of the output is 0 / 0, its cost is NaN, and the
    costs of the outputs do not add up to 30. *)
Lemma zero_cost_output_loses_value :
  exists self',
    correct_production_order (Some 9) ledger_at_ten zero_cost_output = OK self'
    /\ production_order_inputs (Some 9) self' <> []
    /\ production_order_outputs (Some 9) self' <> []
    /\ map total_cost self' = [of_Z (-30); NaN]
    /\ ~ value_conserved (production_order_inputs (Some 9) self')
           (production_order_outputs (Some 9) self').
Proof.
  eexists. split; [vm_compute; reflexivity|].
  split; [vm_compute; discriminate|].
  split; [vm_compute; discriminate|].
  split; [num_eq|].
  unfold value_conserved. vm_compute. discriminate.
Qed.

(** A movement that is both an input and an output is written twice; what
    it holds in the end is its share as an output, 45, while the outputs
    share out the 30 it gave as an input. *)
Lemma both_ways_loses_value :
  exists self',
    correct_production_order (Some 9) ledger_at_ten both_ways = OK self'
    /\ map total_cost self' = [of_Z 45; of_Z (-15)]
    /\ ~ value_conserved (production_order_inputs (Some 9) self')
           (production_order_outputs (Some 9) self').
Proof.
  eexists. split; [vm_compute; reflexivity|]. split; [num_eq|].
  unfold value_conserved. vm_compute. discriminate.
Qed.

Lemma resolution_conserves_value_witness :
  exists self',
    correct_dismantling (Some 2) ledger_at_ten dismantling_pair = OK self'
    /\ value_conserved (dismantling_inputs (Some 2) self')
         (dismantling_outputs (Some 2) self').
Proof.
  destruct (correct_dismantling (Some 2) ledger_at_ten dismantling_pair)
    as [self'|e] eqn:H; [|vm_compute in H; discriminate].
  exists self'. split; [reflexivity|].
  apply (proj1 (resolution_conserves_value (Some 2) ledger_at_ten
                  dismantling_pair self'
                  ltac:(vm_compute; repeat constructor; simpl; intuition discriminate)
                  ltac:(vm_compute; repeat constructor)
                  ltac:(vm_compute; repeat constructor))).
  - apply init_classified.
  - exact H.
Defined.

(** *** C7: the groups of [set_dismantling_id] *)

(** C7.  On a table with unique ids, [set_dismantling_id] gives a group id
    to every dismantling movement.  Taking the dismantling movements in
    table order, a movement gets its own id, and so starts a group, exactly
    when no group is open or it is an input and the open group has produced
    an output; otherwise it gets the id of the open group. *)
Theorem set_dismantling_id_groups (self : t) :
  NoDup (map movement_id self) ->
  (forall r, In r (set_dismantling_id self) -> is_dismantling r = true ->
             dismantling_id r <> None)
  /\ (forall pre r post,
        filter is_dismantling (set_dismantling_id self) = (pre ++ r :: post)%list ->
        (opens_group pre r <-> dismantling_id r = Some (movement_id r))
        /\ (~ opens_group pre r -> dismantling_id r = open_group pre)).
Proof.
  intros Hnd.
  assert (Hinv : scan_inv [] None false).
  { split; [reflexivity|]. split; [discriminate|]. split.
    - split; [discriminate | intros [o [[] _]]].
    - intros o []. }
  assert (Hall : forall pre r post,
             filter is_dismantling (set_dismantling_id self) = (pre ++ r :: post)%list ->
             scanned pre r).
  { intros pre r post H. rewrite (set_dismantling_id_scan self Hnd) in H.
    apply (scan_spec (filter is_dismantling self) [] None false Hinv)
      with (post := post).
    - simpl. apply NoDup_map_filter. exact Hnd.
    - exact H.
    - simpl. lia. }
  split.
  - intros r Hr Hd.
    assert (Hin : In r (filter is_dismantling (set_dismantling_id self)))
      by (apply filter_In; auto).
    apply in_split in Hin. destruct Hin as [pre [post Heq]].
    exact (proj1 (Hall pre r post Heq)).
  - intros pre r post H. exact (proj2 (Hall pre r post H)).
Qed.

Lemma set_dismantling_id_groups_witness :
  let scanned_rows := filter is_dismantling (set_dismantling_id five_dismantlings) in
  let pre := firstn 3 scanned_rows in
  let r := nth 3 scanned_rows blank_row in
  map dismantling_id scanned_rows = [Some 1; Some 1; Some 1; Some 4; Some 4]
  /\ (opens_group pre r <-> dismantling_id r = Some (movement_id r))
  /\ (~ opens_group pre r -> dismantling_id r = open_group pre).
Proof.
  intros scanned_rows pre r. split; [reflexivity|].
  apply (proj2 (set_dismantling_id_groups five_dismantlings
                  ltac:(vm_compute; repeat constructor; simpl; intuition discriminate))
           pre r (skipn 4 scanned_rows)).
  vm_compute. reflexivity.
Defined.

End GroupClaims.

(** * Further properties of the code *)

(** ** The ledger operations *)

Section StockOperations.

Import Stock.

Lemma get_stock_other_app (item other : Z) (self : Stock.t) (p : position) :
  item_id p <> other ->
  get_stock other (self ++ [p]) = get_stock other self.
Proof.
  intros Hne. unfold get_stock. rewrite find_app_one.
  destruct (find _ self); [reflexivity|].
  destruct (item_id p =? other)%Z eqn:He; [|reflexivity].
  apply Z.eqb_eq in He. contradiction.
Qed.

Lemma get_stock_absent (item : Z) (self : Stock.t) :
  item_id_exists item self = false <-> get_stock item self = Raise (ItemNotFound item).
Proof.
  unfold get_stock. split.
  - intros H. destruct (find _ self) as [p|] eqn:Hf; [|reflexivity].
    assert (item_id_exists item self = true)
      by (apply item_id_exists_find; eauto).
    congruence.
  - intros H. destruct (item_id_exists item self) eqn:Hex; [|reflexivity].
    apply item_id_exists_find in Hex. destruct Hex as [p Hp].
    rewrite Hp in H. discriminate.
Qed.

(** X1.  [insert_new_item_with_empty_stock] refuses an item that the ledger
    has, and otherwise appends one row: the item can then be read back as a
    position with the description given and nothing in it, and every other
    item reads as before. *)
Theorem insert_new_item_with_empty_stock_spec
    (item : Z) (descr : string) (self : Stock.t) :
  (item_id_exists item self = true ->
   insert_new_item_with_empty_stock item descr self
   = Raise (ItemAlreadyExists item))
  /\ (item_id_exists item self = false ->
      insert_new_item_with_empty_stock item descr self
      = OK (self ++ [mkPosition item descr zero zero zero zero])
      /\ get_stock item (self ++ [mkPosition item descr zero zero zero zero])
         = OK (mkPosition item descr zero zero zero zero)
      /\ forall other, other <> item ->
           get_stock other (self ++ [mkPosition item descr zero zero zero zero])
           = get_stock other self).
Proof.
  unfold insert_new_item_with_empty_stock. split; intros H; rewrite H; simpl.
  - reflexivity.
  - split; [reflexivity|]. split.
    + unfold get_stock. rewrite find_app_one. simpl.
      destruct (find _ self) as [p|] eqn:Hf.
      * assert (item_id_exists item self = true)
          by (apply item_id_exists_find; eauto).
        congruence.
      * rewrite Z.eqb_refl. reflexivity.
    + intros other Hne. apply (get_stock_other_app item). simpl. congruence.
Qed.

Lemma get_stock_map_other (item other : Z) (f : position -> position)
    (self : Stock.t) :
  (forall p, item_id (f p) = item_id p) ->
  other <> item ->
  get_stock other
    (map (fun p => if (item_id p =? item)%Z then f p else p) self)
  = get_stock other self.
Proof.
  intros Hf Hne. unfold get_stock. rewrite find_map_same_key.
  - destruct (find _ self) as [p|] eqn:Hp; simpl; [|reflexivity].
    apply find_item_id in Hp.
    destruct (item_id p =? item)%Z eqn:He; [|reflexivity].
    apply Z.eqb_eq in He. congruence.
  - intros p. destruct (item_id p =? item)%Z; [apply Hf | reflexivity].
Qed.

(** X2.  [insert_transaction] refuses an item that the ledger does not
    have.  Otherwise it adds no row and removes none; the position of the
    item has the quantity, the cost and the original cost of the transaction
    added to its own, and its average recomputed; every other item reads as
    before. *)
Theorem insert_transaction_spec
    (item : Z) (qty cost original : num) (self : Stock.t) :
  (item_id_exists item self = false ->
   insert_transaction item qty cost original self = Raise (ItemNotFound item))
  /\ (forall p,
        get_stock item self = OK p ->
        exists self',
          insert_transaction item qty cost original self = OK self'
          /\ map item_id self' = map item_id self
          /\ get_stock item self'
             = OK (mkPosition item (description p) (quantity p + qty)
                     (if neb (quantity p + qty) zero
                      then (total_cost p + cost) / (quantity p + qty)
                      else zero)
                     (total_cost p + cost) (original_total_cost p + original))%num
          /\ forall other, other <> item ->
               get_stock other self' = get_stock other self).
Proof.
  split.
  - intros H. unfold insert_transaction. rewrite H. reflexivity.
  - intros p Hp.
    destruct (insert_transaction_get_stock item qty cost original self p Hp)
      as [self' [Hins Hget]].
    exists self'. split; [exact Hins|].
    assert (Hitem : item_id p = item).
    { unfold get_stock in Hp. destruct (find _ self) as [q|] eqn:Hf; [|discriminate].
      injection Hp as ->. exact (find_item_id _ _ _ Hf). }
    unfold insert_transaction in Hins.
    rewrite (get_stock_OK_known _ _ _ Hp) in Hins. simpl in Hins.
    injection Hins as <-.
    split; [|split].
    + rewrite map_map. apply map_ext. intros q.
      destruct (item_id q =? item)%Z; reflexivity.
    + rewrite Hget. unfold transact. rewrite Hitem. reflexivity.
    + intros other Hne. apply get_stock_map_other; [|exact Hne].
      intros q. reflexivity.
Qed.

Lemma insert_transaction_spec_witness :
  exists self',
    insert_transaction 1 (Fin (Q2Qc 2)) (Fin (Q2Qc 30)) (Fin (Q2Qc 30))
      [mkPosition 1 "item" (Fin (Q2Qc 10)) (Fin (Q2Qc 10)) (Fin (Q2Qc 100))
         (Fin (Q2Qc 100))]
    = OK self'
    /\ map item_id self' = [1%Z].
Proof.
  destruct (proj2 (insert_transaction_spec 1 (Fin (Q2Qc 2)) (Fin (Q2Qc 30))
                     (Fin (Q2Qc 30))
                     [mkPosition 1 "item" (Fin (Q2Qc 10)) (Fin (Q2Qc 10))
                        (Fin (Q2Qc 100)) (Fin (Q2Qc 100))])
              (mkPosition 1 "item" (Fin (Q2Qc 10)) (Fin (Q2Qc 10))
                 (Fin (Q2Qc 100)) (Fin (Q2Qc 100)))
              eq_refl)
    as [self' [H1 [H2 _]]].
  exists self'. split; [exact H1 | exact H2].
Defined.

(** The invariant of a position. *)

Lemma init_average_ok (rows : Stock.t) : Forall average_ok (init rows).
Proof.
  unfold init, set_average_cost. apply Forall_forall. intros p Hp.
  apply in_map_iff in Hp. destruct Hp as [row [<- _]]. reflexivity.
Qed.

Lemma new_item_average_ok (item : Z) (descr : string) (self self' : Stock.t) :
  insert_new_item_with_empty_stock item descr self = OK self' ->
  Forall average_ok self -> Forall average_ok self'.
Proof.
  unfold insert_new_item_with_empty_stock.
  destruct (negb _); [|discriminate]. intros H. injection H as <-. intros Hok.
  apply Forall_app. split; [exact Hok|]. constructor; [reflexivity | constructor].
Qed.

Lemma transaction_average_ok (item : Z) (qty cost original : num)
    (self self' : Stock.t) :
  insert_transaction item qty cost original self = OK self' ->
  Forall average_ok self -> Forall average_ok self'.
Proof.
  unfold insert_transaction.
  destruct (negb _); [discriminate|]. intros H. injection H as <-. intros Hok.
  apply Forall_forall. intros p Hp. apply in_map_iff in Hp.
  destruct Hp as [q [<- Hq]]. rewrite Forall_forall in Hok.
  destruct (item_id q =? item)%Z; [reflexivity | apply Hok; exact Hq].
Qed.

End StockOperations.

(** ** Applying a movement to the ledger *)

Section ApplyMovement.

Import StockMovements.

Lemma loc_at_set_same (index : Z) (f : movement -> movement) (self : t)
    (m : movement) :
  (forall r, movement_id (f r) = movement_id r) ->
  loc index self = OK m ->
  loc index (at_set index f self) = OK (f m).
Proof.
  intros Hf. unfold loc, at_set.
  induction self as [|r rest IH]; simpl; [discriminate|].
  destruct (movement_id r =? index)%Z eqn:He.
  - intros H. injection H as <-. rewrite Hf, He. reflexivity.
  - rewrite He. exact IH.
Qed.

Lemma loc_at_set_other (index other : Z) (f : movement -> movement) (self : t) :
  (forall r, movement_id (f r) = movement_id r) ->
  other <> index ->
  loc other (at_set index f self) = loc other self.
Proof.
  intros Hf Hne. unfold loc, at_set.
  induction self as [|r rest IH]; simpl; [reflexivity|].
  destruct (movement_id r =? index)%Z eqn:He.
  - rewrite Hf. apply Z.eqb_eq in He.
    destruct (movement_id r =? other)%Z eqn:Ho.
    + apply Z.eqb_eq in Ho. congruence.
    + exact IH.
  - destruct (movement_id r =? other)%Z; [reflexivity | exact IH].
Qed.

Lemma with_item_exists (m : movement) (stock : Stock.t) :
  Stock.item_id_exists (item_id m) (with_item m stock) = true.
Proof.
  unfold with_item. destruct (Stock.item_id_exists (item_id m) stock) eqn:He;
    [exact He|].
  unfold Stock.item_id_exists. rewrite existsb_app. simpl.
  rewrite Z.eqb_refl. apply orb_true_r.
Qed.

Lemma item_id_exists_map (item : Z) (g : Stock.position -> Stock.position)
    (stock : Stock.t) :
  (forall p, Stock.item_id (g p) = Stock.item_id p) ->
  Stock.item_id_exists item (map g stock) = Stock.item_id_exists item stock.
Proof.
  intros Hg. unfold Stock.item_id_exists.
  induction stock as [|p rest IH]; simpl; [reflexivity|].
  rewrite Hg, IH. reflexivity.
Qed.

Lemma applied_exists (m : movement) (item : Z) (stock : Stock.t) :
  Stock.item_id_exists item (applied m stock)
  = Stock.item_id_exists item (with_item m stock).
Proof.
  unfold applied. apply item_id_exists_map. intros p.
  destruct (Stock.item_id p =? item_id m)%Z; reflexivity.
Qed.

(** What [insert_movement_to_stock] returns for a movement of the table. *)
Lemma insert_movement_to_stock_eq (index : Z) (stock : Stock.t) (self : t)
    (m : movement) :
  loc index self = OK m ->
  insert_movement_to_stock index stock self
  = OK (if guard_fires m
        then at_set index (with_total_cost (original_cost m)) self
        else self,
        applied m stock).
Proof.
  intros Hloc. unfold insert_movement_to_stock. rewrite Hloc. simpl.
  assert (H1 : (if negb (Stock.item_id_exists (item_id m) stock)
                then Stock.insert_new_item_with_empty_stock (item_id m)
                       (item_description m) stock
                else OK stock)
               = OK (with_item m stock)).
  { unfold with_item, Stock.insert_new_item_with_empty_stock.
    destruct (Stock.item_id_exists (item_id m) stock); reflexivity. }
  rewrite H1. simpl. unfold Stock.insert_transaction.
  rewrite with_item_exists. reflexivity.
Qed.

(** X3.  [insert_movement_to_stock] fails only on an id that is not in the
    table, with the error of the read.  For a movement of the table it
    returns: the item of the movement is then in the ledger, no row but the
    one of the movement is written, nothing is written outside the column
    [total_cost], and nothing at all when the history lacks INVENT. *)
Theorem insert_movement_to_stock_total (index : Z) (stock : Stock.t) (self : t) :
  match loc index self with
  | OK m =>
      exists self' stock',
        insert_movement_to_stock index stock self = OK (self', stock')
        /\ Stock.item_id_exists (item_id m) stock' = true
        /\ map frame self' = map frame self
        /\ (forall other, other <> index -> loc other self' = loc other self)
        /\ (contains "INVENT" (movement_history m) = false -> self' = self)
  | Raise e =>
      insert_movement_to_stock index stock self = Raise (KeyError index)
  end.
Proof.
  destruct (loc index self) as [m|e] eqn:Hloc.
  - rewrite (insert_movement_to_stock_eq index stock self m Hloc).
    eexists. eexists. split; [reflexivity|]. split; [|split; [|split]].
    + rewrite applied_exists. apply with_item_exists.
    + destruct (guard_fires m); [|reflexivity].
      apply at_set_frame. intros r. reflexivity.
    + intros other Hne. destruct (guard_fires m); [|reflexivity].
      apply loc_at_set_other; [intros r; reflexivity | exact Hne].
    + intros Hno. unfold guard_fires. rewrite Hno, andb_false_r. reflexivity.
  - unfold insert_movement_to_stock. rewrite Hloc. simpl.
    unfold loc in Hloc. destruct (find _ self); [discriminate|].
    injection Hloc as <-. reflexivity.
Qed.

Lemma applied_average_ok (m : movement) (stock : Stock.t) :
  Forall average_ok stock -> Forall average_ok (applied m stock).
Proof.
  intros H. unfold applied. apply Forall_forall. intros p Hp.
  apply in_map_iff in Hp. destruct Hp as [q [<- Hq]].
  destruct (Stock.item_id q =? item_id m)%Z; [reflexivity|].
  revert q Hq. apply Forall_forall. unfold with_item.
  destruct (Stock.item_id_exists (item_id m) stock); [exact H|].
  apply Forall_app. split; [exact H|]. constructor; [reflexivity | constructor].
Qed.

Lemma pass_step_stock (st st' : pass) (row : movement) :
  pass_step st row = OK st' ->
  exists m, movement_id m = movement_id row /\ stock st' = applied m (stock st).
Proof.
  unfold pass_step. intros H.
  apply bind_OK in H. destruct H as [self [_ H]].
  apply bind_OK in H. destruct H as [[self2 stock2] [Hi H]].
  injection H as <-. simpl.
  destruct (loc (movement_id row) self) as [m|e] eqn:Hloc.
  - rewrite (insert_movement_to_stock_eq _ _ _ _ Hloc) in Hi.
    injection Hi as _ <-. exists m. split; [|reflexivity].
    apply loc_In in Hloc. tauto.
  - unfold insert_movement_to_stock in Hi. rewrite Hloc in Hi. discriminate.
Qed.

(** X4.  The ledger keeps its invariant: in the ledger that [Stock(...)]
    builds, and in the ledger that a pass started on it returns, the average
    cost of every position is its total cost divided by its quantity, and
    zero where the quantity is zero. *)
Theorem ledger_average_invariant (seed_rows : Stock.t) (self : t)
    (resume : StockResume.t) (st' : pass) :
  correct_costs_and_generate_stocks self (Stock.init seed_rows) resume = OK st' ->
  Forall average_ok (Stock.init seed_rows) /\ Forall average_ok (stock st').
Proof.
  intros H. split; [apply init_average_ok|].
  unfold correct_costs_and_generate_stocks in H.
  assert (Hgen : forall rows st st1,
             pass_loop rows st = OK st1 ->
             Forall average_ok (stock st) -> Forall average_ok (stock st1)).
  { induction rows as [|row rest IH]; simpl; intros st st1 Hl Hok.
    - injection Hl as <-. exact Hok.
    - apply bind_OK in Hl. destruct Hl as [st2 [Hs Hl]].
      apply (IH _ _ Hl).
      destruct (pass_step_stock _ _ _ Hs) as [m [_ ->]].
      apply applied_average_ok. exact Hok. }
  apply (Hgen _ _ _ H). apply init_average_ok.
Qed.

Lemma ledger_average_invariant_witness :
  exists st',
    correct_costs_and_generate_stocks (init three_movements)
      (Stock.init [seed 1 (of_Z 10) (of_Z 100)]) [] = OK st'
    /\ Forall average_ok (stock st').
Proof.
  destruct (correct_costs_and_generate_stocks (init three_movements)
              (Stock.init [seed 1 (of_Z 10) (of_Z 100)]) []) as [st'|e] eqn:H.
  - exists st'. split; [reflexivity|].
    exact (proj2 (ledger_average_invariant _ _ _ _ H)).
  - vm_compute in H. discriminate.
Defined.

End ApplyMovement.

(** ** The ledger through a pass *)

Section LedgerThroughPass.

Import StockMovements.

(** The movement a turn of the loop applies is the row it iterates over,
    up to the three cells that corrections write. *)
Lemma pass_step_applied (table : t) (st st' : pass) (row : movement) :
  NoDup (map movement_id table) ->
  In row table ->
  map frame (movements st) = map frame table ->
  pass_step st row = OK st' ->
  exists m, frame m = frame row /\ stock st' = applied m (stock st).
Proof.
  intros Hnd Hin Hframe H. unfold pass_step in H.
  apply bind_OK in H. destruct H as [self [Hc H]].
  apply bind_OK in H. destruct H as [[self2 stock2] [Hi H]].
  injection H as <-. simpl.
  assert (Hself : map frame self = map frame table).
  { rewrite <- Hframe.
    destruct (movement_cost_is_already_correct row).
    { injection Hc as <-. reflexivity. }
    destruct (is_dismantling row).
    { exact (correct_dismantling_frame _ _ _ _ Hc). }
    destruct (is_production_order row).
    { exact (correct_production_order_frame _ _ _ _ Hc). }
    exact (correct_movement_cost_by_stock_frame _ _ _ _ Hc). }
  destruct (loc_frame (movement_id row) table self row Hself
              (loc_unique _ _ Hnd Hin)) as [m [Hm Hfm]].
  rewrite (insert_movement_to_stock_eq _ _ _ _ Hm) in Hi.
  injection Hi as _ <-. exists m. split; [exact Hfm | reflexivity].
Qed.

(** Whatever is read off the ledger and changes with each applied movement
    by a rule that looks at the frame of the movement only, is after the
    pass what the rule makes of it, movement after movement. *)
Lemma pass_loop_observe {A : Type} (obs : Stock.t -> A)
    (upd : movement -> A -> A) (table : t) :
  (forall m stock, obs (applied m stock) = upd (frame m) (obs stock)) ->
  NoDup (map movement_id table) ->
  forall rows : list movement,
    incl rows table ->
    forall st st' : pass,
      map frame (movements st) = map frame table ->
      pass_loop rows st = OK st' ->
      obs (stock st') = fold_left (fun a r => upd (frame r) a) rows (obs (stock st)).
Proof.
  intros Hobs Hnd rows. induction rows as [|row rest IH]; simpl;
    intros Hincl st st' Hf H.
  - injection H as <-. reflexivity.
  - apply bind_OK in H. destruct H as [st1 [H1 H]].
    assert (Hin : In row table) by (apply Hincl; left; reflexivity).
    assert (Hrest : incl rest table)
      by (intros x Hx; apply Hincl; right; exact Hx).
    assert (Hf1 : map frame (movements st1) = map frame table)
      by (rewrite (pass_step_frame _ _ _ H1); exact Hf).
    rewrite (IH Hrest _ _ Hf1 H).
    destruct (pass_step_applied table st st1 row Hnd Hin Hf H1) as [m [Hm ->]].
    rewrite Hobs, Hm. reflexivity.
Qed.

Lemma ledger_original_with_item (m : movement) (item : Z) (stock : Stock.t) :
  ledger_original item (with_item m stock) = ledger_original item stock.
Proof.
  unfold with_item, ledger_original.
  destruct (Stock.item_id_exists (item_id m) stock); [reflexivity|].
  rewrite find_app_one. destruct (find _ stock); [reflexivity|].
  simpl. destruct (item_id m =? item)%Z; reflexivity.
Qed.

Lemma ledger_original_applied (m : movement) (item : Z) (stock : Stock.t) :
  ledger_original item (applied m stock)
  = if (item_id m =? item)%Z
    then (ledger_original item stock + original_cost m)%num
    else ledger_original item stock.
Proof.
  rewrite <- (ledger_original_with_item m item stock).
  unfold applied, ledger_original. rewrite find_map_same_key.
  2:{ intros p. destruct (Stock.item_id p =? item_id m)%Z; reflexivity. }
  destruct (find _ (with_item m stock)) as [p|] eqn:Hf; simpl.
  - apply find_item_id in Hf. rewrite Hf, (Z.eqb_sym item (item_id m)).
    destruct (item_id m =? item)%Z; reflexivity.
  - destruct (item_id m =? item)%Z eqn:He; [|reflexivity].
    apply Z.eqb_eq in He. subst item.
    assert (H := with_item_exists m stock).
    apply item_id_exists_find in H. destruct H as [p Hp]. congruence.
Qed.

(** X5.  After a pass that completes on a table with unique ids, the
    original total cost the ledger holds of an item is the one it was seeded
    with (none for an item without a row) plus the original costs of the
    movements of that item, added in processing order: no correction and no
    override enters it. *)
Theorem ledger_original_total (self : t) (start_stock : Stock.t)
    (resume : StockResume.t) (st' : pass) (item : Z) :
  NoDup (map movement_id self) ->
  correct_costs_and_generate_stocks self start_stock resume = OK st' ->
  ledger_original item (stock st')
  = fold_left add
      (map original_cost (filter (fun r => (item_id r =? item)%Z) self))
      (ledger_original item start_stock).
Proof.
  intros Hnd H. unfold correct_costs_and_generate_stocks in H.
  rewrite (pass_loop_observe (ledger_original item)
             (fun m a => if (item_id m =? item)%Z then (a + original_cost m)%num
                         else a)
             self (fun m stock => ledger_original_applied m item stock)
             Hnd self (incl_refl self)
             (mkPass None self start_stock resume) st' eq_refl H).
  cbn [stock]. generalize (ledger_original item start_stock).
  clear. induction self as [|r rest IH]; intros a; simpl; [reflexivity|].
  change (item_id (frame r)) with (item_id r).
  change (original_cost (frame r)) with (original_cost r).
  destruct (item_id r =? item)%Z; simpl; apply IH.
Qed.

Lemma ledger_original_total_witness :
  exists st',
    correct_costs_and_generate_stocks (init three_movements) [] [] = OK st'
    /\ ledger_original 1 (stock st') = of_Z 84.
Proof.
  destruct (correct_costs_and_generate_stocks (init three_movements) [] [])
    as [st'|e] eqn:H.
  - exists st'. split; [reflexivity|].
    rewrite (ledger_original_total (init three_movements) [] [] st' 1
               ltac:(vm_compute; repeat constructor; simpl; intuition discriminate)
               H).
    num_eq.
  - vm_compute in H. discriminate.
Defined.

(** The items of the ledger. *)

Lemma item_id_exists_ids (item : Z) (stock : Stock.t) :
  Stock.item_id_exists item stock
  = existsb (fun i => (i =? item)%Z) (map Stock.item_id stock).
Proof.
  unfold Stock.item_id_exists.
  induction stock as [|p rest IH]; simpl; [reflexivity | now rewrite IH].
Qed.

Lemma applied_items (m : movement) (stock : Stock.t) :
  map Stock.item_id (applied m stock)
  = add_item (item_id (frame m)) (map Stock.item_id stock).
Proof.
  unfold applied, add_item, with_item. rewrite map_map.
  change (item_id (frame m)) with (item_id m).
  rewrite <- item_id_exists_ids.
  assert (H : forall l : Stock.t,
             map (fun p => Stock.item_id
                             (if (Stock.item_id p =? item_id m)%Z
                              then Stock.transact (quantity m) (total_cost m)
                                     (original_cost m) p
                              else p)) l
             = map Stock.item_id l).
  { intros l. apply map_ext. intros p.
    destruct (Stock.item_id p =? item_id m)%Z; reflexivity. }
  rewrite H. destruct (Stock.item_id_exists (item_id m) stock); [reflexivity|].
  rewrite map_app. reflexivity.
Qed.

Lemma existsb_eqb_In (item : Z) (ids : list Z) :
  existsb (fun i => (i =? item)%Z) ids = true <-> In item ids.
Proof.
  rewrite existsb_exists. split.
  - intros [i [Hi He]]. apply Z.eqb_eq in He. congruence.
  - intros H. exists item. split; [exact H | apply Z.eqb_refl].
Qed.

Lemma add_item_facts (item : Z) (ids : list Z) :
  (NoDup ids -> NoDup (add_item item ids))
  /\ (exists added, add_item item ids = ids ++ added)
  /\ In item (add_item item ids).
Proof.
  unfold add_item.
  destruct (existsb (fun i => (i =? item)%Z) ids) eqn:He.
  - split; [tauto|]. split; [exists []; symmetry; apply app_nil_r|].
    apply existsb_eqb_In. exact He.
  - split; [|split].
    + intros Hnd. apply NoDup_Add with (a := item) (l := ids).
      * rewrite <- (app_nil_r ids) at 1. apply Add_app.
      * split; [exact Hnd|]. intros Hin. apply existsb_eqb_In in Hin. congruence.
    + exists [item]. reflexivity.
    + apply in_or_app. right. left. reflexivity.
Qed.

(** X6.  After a pass that completes on a table with unique ids, the rows
    of the ledger are the rows it started with, in their order, followed by
    one row for each new item in the order the movements brought them: no
    item is dropped, none is listed twice if none was, and the item of every
    movement of the table is there. *)
Theorem ledger_items_after_pass (self : t) (start_stock : Stock.t)
    (resume : StockResume.t) (st' : pass) :
  NoDup (map movement_id self) ->
  correct_costs_and_generate_stocks self start_stock resume = OK st' ->
  (exists added,
      map Stock.item_id (stock st') = map Stock.item_id start_stock ++ added)
  /\ (NoDup (map Stock.item_id start_stock) ->
      NoDup (map Stock.item_id (stock st')))
  /\ (forall r, In r self -> Stock.item_id_exists (item_id r) (stock st') = true).
Proof.
  intros Hnd H. unfold correct_costs_and_generate_stocks in H.
  pose proof (pass_loop_observe (map Stock.item_id)
                (fun m ids => add_item (item_id m) ids)
                self applied_items Hnd self (incl_refl self)
                (mkPass None self start_stock resume) st' eq_refl H) as Heq.
  assert (Heq' : map Stock.item_id (stock st')
                 = fold_left (fun a r => add_item (item_id r) a) self
                     (map Stock.item_id start_stock)) by exact Heq.
  clear Heq.
  assert (Hrows : forall (rows : list movement) (ids : list Z),
             (exists added,
                 fold_left (fun a r => add_item (item_id r) a) rows ids
                 = ids ++ added)
             /\ (NoDup ids ->
                 NoDup (fold_left (fun a r => add_item (item_id r) a) rows ids))
             /\ (forall i, In i ids ->
                   In i (fold_left (fun a r => add_item (item_id r) a) rows ids))
             /\ (forall r, In r rows ->
                   In (item_id r)
                     (fold_left (fun a r => add_item (item_id r) a) rows ids))).
  { induction rows as [|r rest IH]; intros ids; cbn [fold_left].
    - split; [exists []; symmetry; apply app_nil_r|].
      split; [tauto|]. split; [tauto|]. intros r [].
    - destruct (add_item_facts (item_id r) ids) as [Hn [[added Ha] Hi]].
      destruct (IH (add_item (item_id r) ids)) as [[added' Ha'] [Hn' [Hk Hr]]].
      split; [|split; [|split]].
      + exists (added ++ added'). rewrite Ha', Ha, app_assoc. reflexivity.
      + intros Hids. apply Hn', Hn, Hids.
      + intros i Hin. apply Hk. rewrite Ha. apply in_or_app. left. exact Hin.
      + intros r' [<-|Hin]; [apply Hk, Hi | apply Hr, Hin]. }
  destruct (Hrows self (map Stock.item_id start_stock)) as [Ha [Hn [_ Hr]]].
  rewrite <- Heq' in Ha, Hn, Hr.
  split; [exact Ha|]. split; [exact Hn|].
  intros r Hin. rewrite item_id_exists_ids. apply existsb_eqb_In.
  apply Hr, Hin.
Qed.

Lemma ledger_items_after_pass_witness :
  exists st',
    correct_costs_and_generate_stocks (init three_movements) [] [] = OK st'
    /\ forall r, In r (init three_movements) ->
                 Stock.item_id_exists (item_id r) (stock st') = true.
Proof.
  destruct (correct_costs_and_generate_stocks (init three_movements) [] [])
    as [st'|e] eqn:H.
  - exists st'. split; [reflexivity|].
    exact (proj2 (proj2 (ledger_items_after_pass (init three_movements) [] [] st'
                           ltac:(vm_compute; repeat constructor; simpl;
                                 intuition discriminate)
                           H))).
  - vm_compute in H. discriminate.
Defined.

End LedgerThroughPass.

(** ** The anomaly guard and the individual correction *)

Section GuardAndCorrection.

Import StockMovements.
Open Scope Z_scope.

Lemma zero_minus (c : Qc) : (Q2Qc 0 - c)%Qc = Q2Qc 0 <-> c = Q2Qc 0.
Proof.
  split; intros H.
  - replace c with (Q2Qc 0 - (Q2Qc 0 - c))%Qc by ring. rewrite H. ring.
  - rewrite H. ring.
Qed.

Lemma guard_fires_finite (m : movement) (o c : Qc) :
  original_cost m = Fin o -> total_cost m = Fin c ->
  guard_fires m = contains "INVENT" (movement_history m) && deviates o c.
Proof.
  intros Ho Hc. unfold guard_fires, deviates. rewrite Ho, Hc, andb_comm.
  f_equal. cbn [sub neg add div].
  change (o + - c)%Qc with (o - c)%Qc.
  destruct (Qc_eqb o (Q2Qc 0)) eqn:Hz; [|reflexivity].
  apply Qc_eqb_true in Hz. subst o.
  destruct (Qc_eqb c (Q2Qc 0)) eqn:Hcz.
  - apply Qc_eqb_true in Hcz. subst c. reflexivity.
  - apply Qc_eqb_false in Hcz.
    destruct (Q2Qc 0 - c ?= Q2Qc 0)%Qc eqn:Hcmp; try reflexivity.
    exfalso. apply Hcz. apply zero_minus. apply Qceq_alt. exact Hcmp.
Qed.

(** X7.  The anomaly guard on finite costs.  A movement of the table whose
    history contains INVENT has its [total_cost] put back to the original
    cost exactly when the cost at hand deviates from the original by more
    than ten times the original in absolute value; by an original cost of
    zero every cost but zero deviates, and zero does not.  Without INVENT the
    table is left alone. *)
Theorem anomaly_guard_finite (index : Z) (stock : Stock.t) (self : t)
    (m : movement) (o c : Qc) :
  loc index self = OK m ->
  original_cost m = Fin o ->
  total_cost m = Fin c ->
  insert_movement_to_stock index stock self
  = OK (if contains "INVENT" (movement_history m) && deviates o c
        then at_set index (with_total_cost (Fin o)) self
        else self,
        applied m stock)
  /\ deviates (Q2Qc 0) c = negb (Qc_eqb c (Q2Qc 0))
  /\ (o <> Q2Qc 0 ->
      (deviates o c = true <-> (Q2Qc 10 < Qcabs ((o - c) / o))%Qc)).
Proof.
  intros Hloc Ho Hc. split; [|split].
  - rewrite (insert_movement_to_stock_eq index stock self m Hloc).
    rewrite (guard_fires_finite m o c Ho Hc), Ho. reflexivity.
  - reflexivity.
  - intros Hne. unfold deviates. apply Qc_eqb_false in Hne. rewrite Hne.
    rewrite Qclt_alt.
    destruct (Q2Qc 10 ?= Qcabs ((o - c) / o))%Qc; split; congruence.
Qed.

Lemma anomaly_guard_finite_witness :
  insert_movement_to_stock 1 ledger_without_stock inventory_count
  = OK (if contains "INVENT" "INVENT 2024" && deviates (Q2Qc 1) (Q2Qc 100)
        then at_set 1 (with_total_cost (Fin (Q2Qc 1))) inventory_count
        else inventory_count,
        applied (already_correct_row
                   (set_init_columns
                      (feed_row 1 (mkDate 2024 1 5) None "INV 1" "INVENT 2024" 1
                         (of_Z 5) (of_Z 1) (of_Z 100))))
          ledger_without_stock).
Proof.
  apply (anomaly_guard_finite 1 ledger_without_stock inventory_count
           (already_correct_row
              (set_init_columns
                 (feed_row 1 (mkDate 2024 1 5) None "INV 1" "INVENT 2024" 1
                    (of_Z 5) (of_Z 1) (of_Z 100))))
           (Q2Qc 1) (Q2Qc 100)).
  - reflexivity.
  - apply Fin_eq. reflexivity.
  - apply Fin_eq. reflexivity.
Defined.

Lemma correct_movement_cost_by_stock_OK (index : Z) (stock : Stock.t) (self : t)
    (m : movement) (p : Stock.position) :
  loc index self = OK m ->
  movement_cost_is_already_correct m = false ->
  Stock.get_stock (item_id m) stock = OK p ->
  correct_movement_cost_by_stock index stock self
  = OK (at_set index
          (resolved (Stock.average_cost p * quantity m)%num (Stock.average_cost p))
          self)
  /\ loc index
       (at_set index
          (resolved (Stock.average_cost p * quantity m)%num (Stock.average_cost p))
          self)
     = OK (resolved (Stock.average_cost p * quantity m)%num
             (Stock.average_cost p) m).
Proof.
  intros Hloc Hflag Hp. split.
  - unfold correct_movement_cost_by_stock. rewrite Hloc. simpl.
    rewrite Hflag, Hp. reflexivity.
  - apply loc_at_set_same; [intros r; reflexivity | exact Hloc].
Qed.

(** X8.  [correct_movement_cost_by_stock] by cases.  An id that is not in
    the table gives the error of the read; a movement that is marked correct
    is refused; an item that is not in the ledger gives the error of the
    ledger.  Otherwise the row read under the id afterwards has, as total
    cost, the average cost of the position of its item times its quantity,
    as average cost that average, the mark, and every other cell as before;
    every other id reads as before; and a second call on the same movement
    is refused. *)
Theorem correct_movement_cost_by_stock_spec (index : Z) (stock : Stock.t) (self : t) :
  match loc index self with
  | Raise _ => correct_movement_cost_by_stock index stock self = Raise (KeyError index)
  | OK m =>
      if movement_cost_is_already_correct m
      then correct_movement_cost_by_stock index stock self
           = Raise (AlreadyCorrect index)
      else
        match Stock.get_stock (item_id m) stock with
        | Raise _ =>
            correct_movement_cost_by_stock index stock self
            = Raise (ItemNotFound (item_id m))
        | OK p =>
            exists self' m',
              correct_movement_cost_by_stock index stock self = OK self'
              /\ loc index self' = OK m'
              /\ total_cost m' = (Stock.average_cost p * quantity m)%num
              /\ average_cost m' = Stock.average_cost p
              /\ movement_cost_is_already_correct m' = true
              /\ kept m m'
              /\ (forall other, other <> index -> loc other self' = loc other self)
              /\ correct_movement_cost_by_stock index stock self'
                 = Raise (AlreadyCorrect index)
        end
  end.
Proof.
  destruct (loc index self) as [m|e] eqn:Hloc.
  - destruct (movement_cost_is_already_correct m) eqn:Hflag.
    { unfold correct_movement_cost_by_stock. rewrite Hloc. simpl.
      rewrite Hflag. reflexivity. }
    destruct (Stock.get_stock (item_id m) stock) as [p|e] eqn:Hp.
    + destruct (correct_movement_cost_by_stock_OK index stock self m p
                  Hloc Hflag Hp) as [Hok Hloc'].
      eexists. eexists. split; [exact Hok|]. split; [exact Hloc'|].
      split; [reflexivity|]. split; [reflexivity|]. split; [reflexivity|].
      split; [apply kept_resolved|]. split.
      * intros other Hne. apply loc_at_set_other; [intros r; reflexivity | exact Hne].
      * unfold correct_movement_cost_by_stock. rewrite Hloc'. reflexivity.
    + unfold correct_movement_cost_by_stock. rewrite Hloc. simpl.
      rewrite Hflag, Hp. simpl.
      unfold Stock.get_stock in Hp. destruct (find _ stock); [discriminate|].
      injection Hp as <-. reflexivity.
  - unfold correct_movement_cost_by_stock. rewrite Hloc. simpl.
    unfold loc in Hloc. destruct (find _ self); [discriminate|].
    injection Hloc as <-. reflexivity.
Qed.

(** Three units issued from a position of ten units worth 100: the issue
    is costed at 10 a unit. *)
Remark correct_movement_cost_by_stock_at_ten :
  exists self',
    correct_movement_cost_by_stock 4 ledger_at_ten order_without_outputs = OK self'
    /\ map total_cost self' = [of_Z (-30)]
    /\ map average_cost self' = [of_Z 10]
    /\ map movement_cost_is_already_correct self' = [true].
Proof.
  eexists. split; [vm_compute; reflexivity|].
  split; [num_eq|]. split; [num_eq | reflexivity].
Qed.

Lemma get_stock_applied (m : movement) (stock : Stock.t) (p : Stock.position) :
  Stock.get_stock (item_id m) stock = OK p ->
  Stock.get_stock (item_id m) (applied m stock)
  = OK (Stock.transact (quantity m) (total_cost m) (original_cost m) p).
Proof.
  intros Hp. unfold applied, with_item.
  rewrite (get_stock_OK_known _ _ _ Hp).
  destruct (insert_transaction_get_stock (item_id m) (quantity m) (total_cost m)
              (original_cost m) stock p Hp) as [self' [Hins Hget]].
  unfold Stock.insert_transaction in Hins.
  rewrite (get_stock_OK_known _ _ _ Hp) in Hins. simpl in Hins.
  injection Hins as <-. exact Hget.
Qed.

(** X9.  Issuing at the average cost leaves the average cost alone.  A
    movement that is individually corrected against a position of quantity
    [Q] and total cost [T], and then applied, leaves the position at the same
    average cost [T / Q], as long as some quantity is left. *)
Theorem issue_at_average (index : Z) (stock : Stock.t) (self : t)
    (m : movement) (p : Stock.position) (Q T q : Qc) :
  loc index self = OK m ->
  movement_cost_is_already_correct m = false ->
  Stock.get_stock (item_id m) stock = OK p ->
  average_ok p ->
  Stock.quantity p = Fin Q -> Stock.total_cost p = Fin T -> quantity m = Fin q ->
  Q <> Q2Qc 0 -> (Q + q)%Qc <> Q2Qc 0 ->
  exists self1 self2 stock2 p2,
    correct_movement_cost_by_stock index stock self = OK self1
    /\ insert_movement_to_stock index stock self1 = OK (self2, stock2)
    /\ Stock.get_stock (item_id m) stock2 = OK p2
    /\ Stock.quantity p2 = Fin (Q + q)%Qc
    /\ Stock.average_cost p = Fin (T / Q)%Qc
    /\ Stock.average_cost p2 = Fin (T / Q)%Qc.
Proof.
  intros Hloc Hflag Hp Hok HQ HT Hq HQ0 HQq.
  assert (Havg : Stock.average_cost p = Fin (T / Q)%Qc).
  { rewrite Hok, HQ, HT, neb_Fin_zero.
    rewrite (proj2 (Qc_eqb_false _ _) HQ0). simpl negb. cbv iota.
    apply div_Fin. exact HQ0. }
  destruct (correct_movement_cost_by_stock_OK index stock self m p Hloc Hflag Hp)
    as [H1 Hloc1].
  set (m1 := resolved (Stock.average_cost p * quantity m)%num
               (Stock.average_cost p) m) in *.
  set (self1 := at_set index
                  (resolved (Stock.average_cost p * quantity m)%num
                     (Stock.average_cost p)) self) in *.
  exists self1. eexists. eexists. eexists.
  split; [exact H1|].
  split; [exact (insert_movement_to_stock_eq index stock self1 m1 Hloc1)|].
  split; [exact (get_stock_applied m1 stock p Hp)|].
  split; [|split; [exact Havg|]].
  - cbn [Stock.transact Stock.quantity]. rewrite HQ.
    change (quantity m1) with (quantity m). rewrite Hq. reflexivity.
  - cbn [Stock.transact Stock.average_cost]. rewrite HQ, HT.
    change (quantity m1) with (quantity m).
    change (total_cost m1) with (Stock.average_cost p * quantity m)%num.
    rewrite Hq, Havg. cbn [add mul]. rewrite neb_Fin_zero.
    rewrite (proj2 (Qc_eqb_false _ _) HQq). simpl negb. cbv iota.
    rewrite div_Fin by exact HQq. f_equal. field. split; assumption.
Qed.

Lemma issue_at_average_witness :
  exists self1 self2 stock2 p2,
    correct_movement_cost_by_stock 4 ledger_at_ten order_without_outputs = OK self1
    /\ insert_movement_to_stock 4 ledger_at_ten self1 = OK (self2, stock2)
    /\ Stock.get_stock 1 stock2 = OK p2
    /\ Stock.quantity p2 = Fin (Q2Qc 10 + Q2Qc (-3))%Qc
    /\ Stock.average_cost
         (Stock.mkPosition 1 "item" (Fin (Q2Qc 10)) (Fin (Q2Qc 100 / Q2Qc 10)%Qc)
            (Fin (Q2Qc 100)) (Fin (Q2Qc 100)))
       = Fin (Q2Qc 100 / Q2Qc 10)%Qc
    /\ Stock.average_cost p2 = Fin (Q2Qc 100 / Q2Qc 10)%Qc.
Proof.
  apply (issue_at_average 4 ledger_at_ten order_without_outputs
           (already_correct_row
              (set_init_columns
                 (feed_row 4 (mkDate 2024 2 1) (Some 9) "OP 9" "REQUISICAO OP 9" 1
                    (of_Z (-3)) (of_Z (-27)) NaN)))
           (Stock.mkPosition 1 "item" (Fin (Q2Qc 10)) (Fin (Q2Qc 100 / Q2Qc 10)%Qc)
              (Fin (Q2Qc 100)) (Fin (Q2Qc 100)))
           (Q2Qc 10) (Q2Qc 100) (Q2Qc (-3))).
  - reflexivity.
  - reflexivity.
  - reflexivity.
  - reflexivity.
  - reflexivity.
  - reflexivity.
  - apply Fin_eq. reflexivity.
  - intros H. apply (f_equal this) in H. discriminate.
  - intros H. apply (f_equal this) in H. discriminate.
Defined.

End GuardAndCorrection.

(** ** The errors of the group resolvers *)

Section ResolverErrors.

Import StockMovements.
Open Scope Z_scope.

Lemma correct_inputs_outcome (stock : Stock.t) (rows : list movement) :
  forall (self : t) (acc : num),
    correct_inputs rows stock self acc
    = match first_unknown stock rows with
      | Some item => Raise (ItemNotFound item)
      | None => OK (apply_writes (writes_in stock rows) self,
                    liberated stock rows acc)
      end.
Proof.
  unfold first_unknown.
  induction rows as [|row rest IH]; intros self acc; simpl; [reflexivity|].
  unfold known at 1. destruct (Stock.item_id_exists (item_id row) stock) eqn:Hex.
  - destruct (get_stock_known _ _ Hex) as [p Hp]. rewrite Hp. simpl.
    rewrite IH. unfold avg_of. rewrite Hp.
    destruct (find _ rest); reflexivity.
  - apply get_stock_absent in Hex. rewrite Hex. reflexivity.
Qed.

Lemma resolve_outcome (stock : Stock.t) (inputs outputs : list movement) (self : t) :
  ('(self1, l) <- correct_inputs inputs stock self zero ;;
   OK (correct_outputs outputs (sum (map original_cost outputs)) l self1))
  = match first_unknown stock inputs with
    | Some item => Raise (ItemNotFound item)
    | None => OK (map (row_writes (resolve_writes stock inputs outputs)) self)
    end.
Proof.
  rewrite correct_inputs_outcome.
  destruct (first_unknown stock inputs); [reflexivity|]. simpl.
  rewrite correct_outputs_writes, <- apply_writes_map. unfold resolve_writes.
  rewrite apply_writes_app. reflexivity.
Qed.

Lemma has_dismantling_id_false (self : t) :
  has_dismantling_id self = false <-> forall r, In r self -> is_dismantling r = false.
Proof.
  unfold has_dismantling_id. split.
  - intros H r Hr. destruct (is_dismantling r) eqn:Hd; [|reflexivity].
    assert (Ht : existsb is_dismantling self = true)
      by (apply existsb_exists; eauto).
    congruence.
  - intros H. destruct (existsb is_dismantling self) eqn:He; [|reflexivity].
    apply existsb_exists in He. destruct He as [r [Hr Hd]].
    rewrite (H r Hr) in Hd. discriminate.
Qed.

Lemma correct_dismantling_selected (id : option Z) (stock : Stock.t) (self : t) :
  has_dismantling_id self = true ->
  (correct_dismantling id stock self = Raise (NoDismantlingFound id)
   <-> filter (fun r => same_id (dismantling_id r) id) self = [])
  /\ (correct_dismantling id stock self = Raise (DismantlingIncomplete id)
      <-> filter (fun r => same_id (dismantling_id r) id) self <> []
          /\ (dismantling_inputs id self = [] \/ dismantling_outputs id self = []))
  /\ (forall item,
        correct_dismantling id stock self = Raise (ItemNotFound item)
        <-> dismantling_inputs id self <> [] /\ dismantling_outputs id self <> []
            /\ first_unknown stock (dismantling_inputs id self) = Some item)
  /\ (forall e,
        correct_dismantling id stock self = Raise e ->
        e = NoDismantlingFound id \/ e = DismantlingIncomplete id
        \/ exists item, e = ItemNotFound item).
Proof.
  intros Hcol.
  unfold correct_dismantling, dismantling_inputs, dismantling_outputs.
  rewrite Hcol. cbn [negb].
  destruct (filter (fun r => same_id (dismantling_id r) id) self) as [|r0 g] eqn:Hsel.
  { simpl. split; [tauto|]. split; [|split].
    - split; [discriminate | intros [H _]; congruence].
    - intros item. split; [discriminate | intros [H _]; congruence].
    - intros e H. injection H as <-. auto. }
  simpl empty at 1. cbv iota. rewrite resolve_outcome.
  set (ins := filter is_dismantling_input (r0 :: g)).
  set (outs := filter is_dismantling_output (r0 :: g)).
  destruct ins as [|i0 ins'] eqn:Hins.
  { simpl. split; [split; [discriminate | discriminate]|]. split; [|split].
    - split; [intros _; split; [discriminate | left; reflexivity] | reflexivity].
    - intros item. split; [discriminate | intros [H _]; congruence].
    - intros e H. injection H as <-. auto. }
  destruct outs as [|o0 outs'] eqn:Houts.
  { simpl. split; [split; [discriminate | discriminate]|]. split; [|split].
    - split; [intros _; split; [discriminate | right; reflexivity] | reflexivity].
    - intros item. split; [discriminate | intros [_ [H _]]; congruence].
    - intros e H. injection H as <-. auto. }
  simpl empty. cbv iota. simpl orb. cbv iota.
  destruct (first_unknown stock (i0 :: ins')) as [item0|] eqn:Hu.
  - split; [split; [discriminate | discriminate]|]. split; [|split].
    + split; [discriminate | intros [_ [H|H]]; discriminate].
    + intros item. split.
      * intros H. injection H as <-. repeat split; discriminate || reflexivity.
      * intros [_ [_ H]]. congruence.
    + intros e H. injection H as <-. right. right. eauto.
  - split; [split; [discriminate | discriminate]|]. split; [|split].
    + split; [discriminate | intros [_ [H|H]]; discriminate].
    + intros item. split; [discriminate | intros [_ [_ H]]; discriminate].
    + intros e H. discriminate.
Qed.

(** X10.  The outcomes of [correct_dismantling].  On a table without any
    dismantling, and only there, it stops on the missing column
    [dismantling_id].  On a table with a dismantling it reports that there
    is no such dismantling exactly when no row carries the group id; that
    the group is incomplete exactly when some row does and the group lacks
    an input or lacks an output; an unknown item exactly when the group is
    complete and that item is the item of its first input, in table order,
    that the ledger does not have.  It raises no other error. *)
Theorem correct_dismantling_outcomes (id : option Z) (stock : Stock.t) (self : t) :
  (correct_dismantling id stock self = Raise (AttributeError "dismantling_id")
   <-> forall r, In r self -> is_dismantling r = false)
  /\ ((exists r, In r self /\ is_dismantling r = true) ->
      (correct_dismantling id stock self = Raise (NoDismantlingFound id)
       <-> filter (fun r => same_id (dismantling_id r) id) self = [])
      /\ (correct_dismantling id stock self = Raise (DismantlingIncomplete id)
          <-> filter (fun r => same_id (dismantling_id r) id) self <> []
              /\ (dismantling_inputs id self = []
                  \/ dismantling_outputs id self = []))
      /\ (forall item,
            correct_dismantling id stock self = Raise (ItemNotFound item)
            <-> dismantling_inputs id self <> []
                /\ dismantling_outputs id self <> []
                /\ first_unknown stock (dismantling_inputs id self) = Some item))
  /\ (forall e,
        correct_dismantling id stock self = Raise e ->
        e = AttributeError "dismantling_id"
        \/ e = NoDismantlingFound id \/ e = DismantlingIncomplete id
        \/ exists item, e = ItemNotFound item).
Proof.
  destruct (has_dismantling_id self) eqn:Hcol.
  - destruct (correct_dismantling_selected id stock self Hcol)
      as [Hnone [Hinc [Hitem Hall]]].
    split; [|split].
    + split.
      * intros H. destruct (Hall _ H) as [He|[He|[item He]]]; discriminate.
      * intros H. apply has_dismantling_id_false in H. congruence.
    + intros _. split; [exact Hnone|]. split; [exact Hinc | exact Hitem].
    + intros e H. right. exact (Hall e H).
  - assert (Hr : correct_dismantling id stock self
                 = Raise (AttributeError "dismantling_id"))
      by (unfold correct_dismantling; rewrite Hcol; reflexivity).
    split; [|split].
    + split; [intros _; apply has_dismantling_id_false; exact Hcol | intros _; exact Hr].
    + intros [r [Hin Hd]].
      rewrite (proj1 (has_dismantling_id_false self) Hcol r Hin) in Hd.
      discriminate.
    + intros e H. rewrite Hr in H. injection H as <-. left. reflexivity.
Qed.

(** On a table of three entries there is no column to select by. *)
Remark correct_dismantling_without_column :
  correct_dismantling (Some 2) ledger_at_ten (init three_movements)
  = Raise (AttributeError "dismantling_id").
Proof. reflexivity. Qed.

(** X11.  The outcomes of [correct_production_order] beside the incomplete
    order.  It reports that there is no such order exactly when no row
    carries the order id, and an unknown item exactly when the order has an
    input and that item is the item of its first input, in table order, that
    the ledger does not have.  With an input and every input item in the
    ledger it returns, whatever the outputs. *)
Theorem correct_production_order_outcomes
    (id : option Z) (stock : Stock.t) (self : t) :
  (correct_production_order id stock self = Raise (NoProductionOrderFound id)
   <-> filter (fun r => same_id (production_order_id r) id) self = [])
  /\ (forall item,
        correct_production_order id stock self = Raise (ItemNotFound item)
        <-> production_order_inputs id self <> []
            /\ first_unknown stock (production_order_inputs id self) = Some item)
  /\ ((exists self', correct_production_order id stock self = OK self')
      <-> production_order_inputs id self <> []
          /\ first_unknown stock (production_order_inputs id self) = None).
Proof.
  unfold correct_production_order, production_order_inputs.
  destruct (filter (fun r => same_id (production_order_id r) id) self)
    as [|r0 g] eqn:Hsel.
  { simpl. split; [tauto|]. split.
    - intros item. split; [discriminate | intros [H _]; congruence].
    - split; [intros [s H]; discriminate | intros [H _]; congruence]. }
  simpl empty at 1. cbv iota. rewrite resolve_outcome.
  set (ins := filter is_production_order_input (r0 :: g)).
  destruct ins as [|i0 ins'] eqn:Hins.
  { simpl. split; [split; discriminate|]. split.
    - intros item. split; [discriminate | intros [H _]; congruence].
    - split; [intros [s H]; discriminate | intros [H _]; congruence]. }
  simpl empty. cbv iota.
  destruct (first_unknown stock (i0 :: ins')) as [item0|] eqn:Hu.
  - split; [split; discriminate|]. split.
    + intros item. split.
      * intros H. injection H as <-. split; [discriminate | reflexivity].
      * intros [_ H]. congruence.
    + split; [intros [s H]; discriminate | intros [_ H]; discriminate].
  - split; [split; discriminate|]. split.
    + intros item. split; [discriminate | intros [_ H]; discriminate].
    + split; [intros _; split; [discriminate | reflexivity] | intros _; eauto].
Qed.

End ResolverErrors.

(** ** The mark of a correct cost *)

Section Marks.

Import StockMovements.
Open Scope Z_scope.

Lemma carried_refl (l : t) : Forall2 carried l l.
Proof. induction l; constructor; [split; [reflexivity | tauto] | assumption]. Qed.

Lemma carried_trans (l1 : t) :
  forall l2 l3, Forall2 carried l1 l2 -> Forall2 carried l2 l3 -> Forall2 carried l1 l3.
Proof.
  induction l1 as [|a l1 IH]; intros l2 l3 H12 H23;
    inversion H12; subst; inversion H23; subst; constructor.
  - destruct H1 as [Hf1 Hm1]. destruct H2 as [Hf2 Hm2].
    split; [congruence | tauto].
  - eapply IH; eassumption.
Qed.

Lemma carried_map (g : movement -> movement) (l : t) :
  (forall r, carried r (g r)) -> Forall2 carried l (map g l).
Proof. intros Hg. induction l; simpl; constructor; [apply Hg | assumption]. Qed.

Lemma carried_at_set (index : Z) (f : movement -> movement) (l : t) :
  (forall r, carried r (f r)) -> Forall2 carried l (at_set index f l).
Proof.
  intros Hf. apply carried_map. intros r.
  destruct (movement_id r =? index); [apply Hf | split; [reflexivity | tauto]].
Qed.

Lemma carried_resolved (a b : num) (r : movement) : carried r (resolved a b r).
Proof. split; reflexivity. Qed.

Lemma carried_row_writes (ws : list cell_write) (r : movement) :
  carried r (row_writes ws r).
Proof.
  split; [apply row_writes_frame|].
  destruct (row_writes_cases ws (movement_id r)) as [H|[a [b H]]];
    rewrite (H r eq_refl); [tauto | reflexivity].
Qed.

Lemma pass_step_carried (st st' : pass) (row : movement) :
  pass_step st row = OK st' -> Forall2 carried (movements st) (movements st').
Proof.
  unfold pass_step. intros H.
  apply bind_OK in H. destruct H as [self [Hc H]].
  apply bind_OK in H. destruct H as [[self2 stock2] [Hi H]].
  injection H as <-. simpl.
  apply (carried_trans _ self).
  - destruct (movement_cost_is_already_correct row).
    { injection Hc as <-. apply carried_refl. }
    destruct (is_dismantling row).
    { apply correct_dismantling_OK in Hc. destruct Hc as [_ [_ [_ ->]]].
      apply carried_map. intros r. apply carried_row_writes. }
    destruct (is_production_order row).
    { apply correct_production_order_OK in Hc. destruct Hc as [_ [_ ->]].
      apply carried_map. intros r. apply carried_row_writes. }
    unfold correct_movement_cost_by_stock in Hc.
    apply bind_OK in Hc. destruct Hc as [m [_ Hc]].
    destruct (movement_cost_is_already_correct m); [discriminate|].
    apply bind_OK in Hc. destruct Hc as [p [_ Hc]]. injection Hc as <-.
    apply carried_at_set. intros r. apply carried_resolved.
  - destruct (loc (movement_id row) self) as [m|e] eqn:Hloc.
    + rewrite (insert_movement_to_stock_eq _ _ _ _ Hloc) in Hi.
      injection Hi as <- _. destruct (guard_fires m); [|apply carried_refl].
      apply carried_at_set. intros r. split; [reflexivity | tauto].
    + unfold insert_movement_to_stock in Hi. rewrite Hloc in Hi. discriminate.
Qed.

Lemma pass_loop_carried (rows : list movement) :
  forall st st', pass_loop rows st = OK st' ->
                 Forall2 carried (movements st) (movements st').
Proof.
  induction rows as [|row rest IH]; simpl; intros st st' H.
  - injection H as <-. apply carried_refl.
  - apply bind_OK in H. destruct H as [st1 [H1 H]].
    exact (carried_trans _ _ _ (pass_step_carried _ _ _ H1) (IH _ _ H)).
Qed.

Lemma loc_carried (index : Z) (l : t) :
  forall (l' : t) (m : movement),
    Forall2 carried l l' -> loc index l = OK m ->
    exists m', loc index l' = OK m' /\ carried m m'.
Proof.
  unfold loc. induction l as [|r rest IH]; intros l' m H; inversion H; subst;
    simpl; [discriminate|].
  destruct H2 as [Hf Hm].
  rewrite (frame_movement_id _ _ Hf).
  destruct (movement_id r =? index).
  - intros Hr. injection Hr as <-. exists y. split; [reflexivity | split; assumption].
  - apply IH. assumption.
Qed.

(** A turn of the loop on a row that is not marked and is neither a
    dismantling nor of a production order leaves the movement marked. *)
Lemma pass_step_marks (st st' : pass) (row : movement) :
  movement_cost_is_already_correct row = false ->
  is_dismantling row = false -> is_production_order row = false ->
  pass_step st row = OK st' ->
  exists m', loc (movement_id row) (movements st') = OK m'
             /\ movement_cost_is_already_correct m' = true.
Proof.
  intros Hflag Hd Ho H. unfold pass_step in H. rewrite Hflag, Hd, Ho in H.
  apply bind_OK in H. destruct H as [self [Hc H]].
  apply bind_OK in H. destruct H as [[self2 stock2] [Hi H]].
  injection H as <-. simpl.
  unfold correct_movement_cost_by_stock in Hc.
  apply bind_OK in Hc. destruct Hc as [m [Hloc0 Hc]].
  destruct (movement_cost_is_already_correct m) eqn:Hm; [discriminate|].
  apply bind_OK in Hc. destruct Hc as [p [Hp Hc]].
  destruct (correct_movement_cost_by_stock_OK _ (stock st) _ m p Hloc0 Hm Hp)
    as [_ Hloc].
  injection Hc as <-.
  rewrite (insert_movement_to_stock_eq _ _ _ _ Hloc) in Hi.
  injection Hi as <- _.
  destruct (guard_fires _).
  - eexists. split.
    + apply loc_at_set_same; [intros r; reflexivity | exact Hloc].
    + reflexivity.
  - eexists. split; [exact Hloc | reflexivity].
Qed.

Lemma pass_loop_marks (rows : list movement) :
  forall st st',
    pass_loop rows st = OK st' ->
    forall r, In r rows ->
      movement_cost_is_already_correct r = false ->
      is_dismantling r = false -> is_production_order r = false ->
      exists m', loc (movement_id r) (movements st') = OK m'
                 /\ movement_cost_is_already_correct m' = true.
Proof.
  induction rows as [|row rest IH]; intros st st' H r Hin Hflag Hd Ho;
    [contradiction|].
  simpl in H. apply bind_OK in H. destruct H as [st1 [H1 H]].
  destruct Hin as [<-|Hin]; [|exact (IH st1 st' H r Hin Hflag Hd Ho)].
  destruct (pass_step_marks _ _ _ Hflag Hd Ho H1) as [m1 [Hloc1 Hm1]].
  destruct (loc_carried _ _ _ _ (pass_loop_carried _ _ _ H) Hloc1)
    as [m' [Hloc' [_ Hm']]].
  exists m'. split; [exact Hloc' | exact (Hm' Hm1)].
Qed.

(** X12.  Through a pass that completes, no mark is taken back: a movement
    whose cost was marked correct, by an override, as an entry or by a
    correction, is still marked at the end.  And, ids being unique, every
    movement of the table that is neither a dismantling nor of a production
    order is marked at the end. *)
Theorem marks_after_pass (self : t) (start_stock : Stock.t)
    (resume : StockResume.t) (st' : pass) :
  NoDup (map movement_id self) ->
  correct_costs_and_generate_stocks self start_stock resume = OK st' ->
  Forall2 (fun r r' => movement_id r' = movement_id r
                       /\ (movement_cost_is_already_correct r = true ->
                           movement_cost_is_already_correct r' = true))
    self (movements st')
  /\ (forall r, In r self ->
        is_dismantling r = false -> is_production_order r = false ->
        exists m', loc (movement_id r) (movements st') = OK m'
                   /\ movement_cost_is_already_correct m' = true).
Proof.
  intros Hnd H. unfold correct_costs_and_generate_stocks in H.
  pose proof (pass_loop_carried _ _ _ H) as Hc. simpl in Hc. split.
  - eapply Forall2_impl; [|exact Hc].
    intros r r' [Hf Hm]. split; [exact (frame_movement_id _ _ Hf) | exact Hm].
  - intros r Hin Hd Ho.
    destruct (movement_cost_is_already_correct r) eqn:Hflag.
    + destruct (loc_carried _ _ _ _ Hc (loc_unique _ _ Hnd Hin))
        as [m' [Hloc' [_ Hm']]].
      exists m'. split; [exact Hloc' | exact (Hm' Hflag)].
    + exact (pass_loop_marks _ _ _ H r Hin Hflag Hd Ho).
Qed.

Lemma marks_after_pass_witness :
  exists st',
    correct_costs_and_generate_stocks (init three_movements) [] [] = OK st'
    /\ forall r, In r (init three_movements) ->
         is_dismantling r = false -> is_production_order r = false ->
         exists m', loc (movement_id r) (movements st') = OK m'
                    /\ movement_cost_is_already_correct m' = true.
Proof.
  destruct (correct_costs_and_generate_stocks (init three_movements) [] [])
    as [st'|e] eqn:H.
  - exists st'. split; [reflexivity|].
    exact (proj2 (marks_after_pass (init three_movements) [] [] st'
                    ltac:(vm_compute; repeat constructor; simpl;
                          intuition discriminate)
                    H)).
  - vm_compute in H. discriminate.
Defined.

End Marks.

(** ** What the constructor leaves in the table *)

Section Constructor.

Import StockMovements.
Open Scope Z_scope.

Lemma ltb_both_ways (x : num) : ltb x zero && ltb zero x = false.
Proof.
  destruct x as [q| | |]; try reflexivity.
  destruct (ltb (Fin q) zero) eqn:H1; [|reflexivity].
  destruct (ltb zero (Fin q)) eqn:H2; [|reflexivity].
  exfalso. apply ltb_zero_negative in H1. apply ltb_zero_positive in H2.
  exact (Qclt_not_le _ _ H2 (Qclt_le_weak _ _ H1)).
Qed.

(** X13.  The columns of a constructed table.  Every row comes from a row of
    the feed, of which it keeps the id, the item, the quantity and the
    texts.  Its effective date is the entry date if there is one, else the
    movement date; its original cost is the fed total cost; its total cost
    is the override if there is one, else the fed total cost; it is marked
    correct iff it has an override or is an entry.  It is never both a
    dismantling input and a dismantling output, and is a dismantling if it
    is either; it is a production order output iff its history contains both
    ENC and ORDEM as written and it has an order id. *)
Theorem constructor_columns (feed : list Feed.row) (m : movement) :
  In m (init feed) ->
  exists row,
    In row feed
    /\ movement_id m = Feed.movement_id row
    /\ item_id m = Feed.item_id row
    /\ quantity m = Feed.quantity row
    /\ movement_history m = Feed.movement_history row
    /\ document_number m = Feed.document_number row
    /\ correct_movement_date m
       = match Feed.entry_date row with
         | Some d => d
         | None => Feed.movement_date row
         end
    /\ original_cost m = Feed.total_cost row
    /\ total_cost m
       = (if isna (Feed.correct_cost row) then Feed.total_cost row
          else Feed.correct_cost row)
    /\ movement_cost_is_already_correct m
       = negb (isna (Feed.correct_cost row)) || is_entry m
    /\ is_dismantling_input m && is_dismantling_output m = false
    /\ (is_dismantling_input m || is_dismantling_output m = true ->
        is_dismantling m = true)
    /\ is_production_order_output m
       = contains "ENC" (movement_history m)
         && contains "ORDEM" (movement_history m)
         && match production_order_id m with Some _ => true | None => false end.
Proof.
  intros H. apply init_rows in H. destruct H as [row [g [Hrow ->]]].
  exists row. split; [exact Hrow|].
  repeat (split; [reflexivity|]).
  split; [|split; [|split; [|split]]].
  - cbn. unfold notnull. destruct (isna (Feed.correct_cost row)); reflexivity.
  - reflexivity.
  - cbn. unfold set_is_dismantling_input, set_is_dismantling_output.
    destruct (set_is_dismantling row); rewrite ?andb_false_r, ?andb_true_r;
      [apply ltb_both_ways | reflexivity].
  - cbn. unfold set_is_dismantling_input, set_is_dismantling_output.
    destruct (set_is_dismantling row); rewrite ?andb_false_r; simpl;
      [reflexivity | discriminate].
  - reflexivity.
Qed.

Lemma constructor_columns_witness :
  exists row,
    In row [ feed_row 5 (mkDate 2024 1 8) (Some 9) "NF 12"
               "Recebimento e requisicao" 1 (of_Z 1) (of_Z 10) NaN ]
    /\ movement_id lower_case_movement = Feed.movement_id row
    /\ item_id lower_case_movement = Feed.item_id row
    /\ quantity lower_case_movement = Feed.quantity row
    /\ movement_history lower_case_movement = Feed.movement_history row
    /\ document_number lower_case_movement = Feed.document_number row
    /\ correct_movement_date lower_case_movement
       = match Feed.entry_date row with
         | Some d => d
         | None => Feed.movement_date row
         end
    /\ original_cost lower_case_movement = Feed.total_cost row
    /\ total_cost lower_case_movement
       = (if isna (Feed.correct_cost row) then Feed.total_cost row
          else Feed.correct_cost row)
    /\ movement_cost_is_already_correct lower_case_movement
       = negb (isna (Feed.correct_cost row)) || is_entry lower_case_movement
    /\ is_dismantling_input lower_case_movement
       && is_dismantling_output lower_case_movement = false
    /\ (is_dismantling_input lower_case_movement
        || is_dismantling_output lower_case_movement = true ->
        is_dismantling lower_case_movement = true)
    /\ is_production_order_output lower_case_movement
       = contains "ENC" (movement_history lower_case_movement)
         && contains "ORDEM" (movement_history lower_case_movement)
         && match production_order_id lower_case_movement with
            | Some _ => true
            | None => false
            end.
Proof.
  apply (constructor_columns
           [ feed_row 5 (mkDate 2024 1 8) (Some 9) "NF 12"
               "Recebimento e requisicao" 1 (of_Z 1) (of_Z 10) NaN ]
           lower_case_movement).
  left. reflexivity.
Defined.

(** The rows that the scan does not visit. *)
Lemma loop_rows (todo : list movement) :
  forall (current : option Z) (lwo : bool) (table : t) (r1 : movement),
    In r1 (set_dismantling_id_loop todo current lwo table) ->
    exists r0,
      In r0 table
      /\ (r1 = r0
          \/ exists g, r1 = with_dismantling_id g r0
                       /\ In (movement_id r0) (map movement_id todo)).
Proof.
  induction todo as [|row rest IH]; intros current lwo table r1 H.
  - exists r1. split; [exact H | left; reflexivity].
  - cbn [set_dismantling_id_loop] in H.
    apply IH in H. destruct H as [r [Hr Hcase]].
    unfold at_set in Hr. apply in_map_iff in Hr. destruct Hr as [r0 [Hr0 Hin0]].
    exists r0. split; [exact Hin0|].
    destruct (movement_id r0 =? movement_id row) eqn:He.
    + apply Z.eqb_eq in He. right. subst r.
      destruct Hcase as [->|[g [-> _]]]; eexists; (split; [reflexivity|]);
        left; congruence.
    + subst r. destruct Hcase as [->|[g [-> Hin]]]; [left; reflexivity|].
      right. exists g. split; [reflexivity | right; exact Hin].
Qed.

(** The scan keeps its invariant to the end. *)
Lemma scan_inv_end (todo : list movement) :
  forall (done : list movement) (current : option Z) (lwo : bool),
    scan_inv done current lwo ->
    NoDup (map movement_id (done ++ todo)) ->
    exists current' lwo', scan_inv (done ++ scan todo current lwo) current' lwo'.
Proof.
  induction todo as [|x rest IH]; intros done current lwo Hinv Hnd.
  - simpl. rewrite app_nil_r. eauto.
  - assert (Hnew : ~ In (movement_id x) (map movement_id done)).
    { rewrite map_app in Hnd. simpl in Hnd. apply NoDup_remove_2 in Hnd.
      intros H. apply Hnd. apply in_or_app. left. exact H. }
    destruct (scan_step done current lwo x Hinv Hnew) as [_ Hinv'].
    cbn [scan].
    match goal with
    | |- context [with_dismantling_id ?c x :: scan rest ?c ?l] =>
        destruct (IH (done ++ [with_dismantling_id c x]) c l) as [c' [l' H]]
    end.
    + exact Hinv'.
    + rewrite <- app_assoc. simpl. rewrite map_app in *. simpl in *. exact Hnd.
    + rewrite <- app_assoc in H. eauto.
Qed.

Lemma init_sorted_ids (feed : list Feed.row) :
  NoDup (map Feed.movement_id feed) ->
  NoDup (map movement_id
           (order_by_correct_movement_date (map set_init_columns feed))).
Proof.
  intros Hfeed.
  apply (Permutation_NoDup (l := map movement_id (map set_init_columns feed))).
  - apply Permutation_map. symmetry. apply order_perm.
  - rewrite map_map. exact Hfeed.
Qed.

Lemma init_plain_group (feed : list Feed.row) (m : movement) :
  NoDup (map Feed.movement_id feed) ->
  In m (init feed) -> is_dismantling m = false -> dismantling_id m = None.
Proof.
  intros Hfeed Hm.
  set (sorted := order_by_correct_movement_date (map set_init_columns feed)).
  pose proof (init_sorted_ids feed Hfeed) as Hnd. fold sorted in Hnd.
  unfold init, set_movement_cost_is_already_correct in Hm.
  apply in_map_iff in Hm. destruct Hm as [r1 [<- Hr1]].
  fold sorted in Hr1.
  change (is_dismantling r1 = false -> dismantling_id r1 = None).
  intros Hd. unfold set_dismantling_id in Hr1.
  destruct (loop_rows _ _ _ _ _ Hr1) as [r0 [Hr0 [->|[g [-> Hin]]]]].
  - apply (Permutation_in _ (order_perm _)) in Hr0.
    apply in_map_iff in Hr0. destruct Hr0 as [row [<- _]]. reflexivity.
  - exfalso. change (is_dismantling r0 = false) in Hd.
    apply in_map_iff in Hin. destruct Hin as [d [Hid Hdin]].
    apply filter_In in Hdin. destruct Hdin as [Hds Hdd].
    assert (d = r0) by (apply (NoDup_map_inj movement_id sorted); assumption).
    congruence.
Qed.

Lemma init_dismantling_group (feed : list Feed.row) (m : movement) :
  NoDup (map Feed.movement_id feed) ->
  In m (init feed) -> is_dismantling m = true ->
  exists p, In p (init feed) /\ is_dismantling p = true
            /\ dismantling_id m = Some (movement_id p).
Proof.
  intros Hfeed Hm.
  set (sorted := order_by_correct_movement_date (map set_init_columns feed)).
  pose proof (init_sorted_ids feed Hfeed) as Hnd. fold sorted in Hnd.
  unfold init, set_movement_cost_is_already_correct in Hm.
  apply in_map_iff in Hm. destruct Hm as [r1 [<- Hr1]].
  fold sorted in Hr1.
  change (is_dismantling r1 = true ->
          exists p, In p (init feed) /\ is_dismantling p = true
                    /\ dismantling_id r1 = Some (movement_id p)).
  intros Hd.
  assert (Hin : In r1 (filter is_dismantling (set_dismantling_id sorted)))
    by (apply filter_In; auto).
  rewrite (set_dismantling_id_scan sorted Hnd) in Hin.
  assert (Hinv : scan_inv [] None false).
  { split; [reflexivity|]. split; [discriminate|]. split.
    - split; [discriminate | intros [o [[] _]]].
    - intros o []. }
  destruct (scan_inv_end (filter is_dismantling sorted) [] None false Hinv
              ltac:(simpl; apply NoDup_map_filter; exact Hnd))
    as [c [l [_ [_ [_ Hids]]]]].
  simpl in Hids. destruct (Hids r1 Hin) as [p [Hp Hgp]].
  rewrite <- (set_dismantling_id_scan sorted Hnd) in Hp.
  apply filter_In in Hp. destruct Hp as [Hp Hpd].
  exists (already_correct_row p). split; [|split].
  - unfold init, set_movement_cost_is_already_correct. fold sorted.
    apply in_map. exact Hp.
  - exact Hpd.
  - exact Hgp.
Qed.

(** X14.  Group ids in a constructed table, ids being unique.  A movement
    that is not a dismantling has no group id.  The group id of a
    dismantling is the id of a dismantling of the table, so the group it
    names is never empty. *)
Theorem constructor_group_ids (feed : list Feed.row) (m : movement) :
  NoDup (map Feed.movement_id feed) ->
  In m (init feed) ->
  (is_dismantling m = false -> dismantling_id m = None)
  /\ (is_dismantling m = true ->
      exists p, In p (init feed) /\ is_dismantling p = true
                /\ dismantling_id m = Some (movement_id p)
                /\ filter (fun r => same_id (dismantling_id r) (dismantling_id m))
                     (init feed) <> []).
Proof.
  intros Hfeed Hm. split; [exact (init_plain_group feed m Hfeed Hm)|].
  intros Hd.
  destruct (init_dismantling_group feed m Hfeed Hm Hd) as [p [Hp [Hpd Hgp]]].
  exists p. repeat (split; [assumption|]).
  intros Hempty.
  assert (Hself : In m (filter (fun r => same_id (dismantling_id r)
                                           (dismantling_id m))
                          (init feed))).
  { apply filter_In. split; [exact Hm|].
    rewrite Hgp. simpl. apply Z.eqb_refl. }
  rewrite Hempty in Hself. exact Hself.
Qed.

Lemma constructor_group_ids_witness :
  In (nth 1 dismantling_pair blank_row) dismantling_pair
  /\ (is_dismantling (nth 1 dismantling_pair blank_row) = true ->
      exists p, In p dismantling_pair /\ is_dismantling p = true
                /\ dismantling_id (nth 1 dismantling_pair blank_row)
                   = Some (movement_id p)
                /\ filter (fun r => same_id (dismantling_id r)
                                      (dismantling_id
                                         (nth 1 dismantling_pair blank_row)))
                     dismantling_pair <> []).
Proof.
  split; [right; left; reflexivity|].
  apply (constructor_group_ids
           [ feed_row 2 (mkDate 2024 1 5) None "DESMONTE 7" "DESMONTE" 1
               (of_Z (-2)) (of_Z (-30)) NaN;
             feed_row 3 (mkDate 2024 1 5) None "DESMONTE 7" "DESMONTE" 2
               (of_Z 2) (of_Z 30) NaN ]
           (nth 1 dismantling_pair blank_row)).
  - vm_compute. repeat constructor; simpl; intuition discriminate.
  - right. left. reflexivity.
Defined.

End Constructor.

(** ** The errors of a pass *)

Section PassErrors.

Import StockMovements.
Open Scope Z_scope.

Lemma grouped_frame (r r' : movement) : frame r' = frame r -> grouped r -> grouped r'.
Proof.
  intros Hf. unfold grouped.
  rewrite (f_equal is_dismantling Hf : is_dismantling r' = is_dismantling r),
    (f_equal dismantling_id Hf : dismantling_id r' = dismantling_id r),
    (f_equal is_dismantling_input Hf
       : is_dismantling_input r' = is_dismantling_input r),
    (f_equal is_dismantling_output Hf
       : is_dismantling_output r' = is_dismantling_output r),
    (f_equal is_production_order Hf
       : is_production_order r' = is_production_order r),
    (f_equal production_order_id Hf
       : production_order_id r' = production_order_id r),
    (f_equal is_production_order_input Hf
       : is_production_order_input r' = is_production_order_input r),
    (f_equal is_production_order_output Hf
       : is_production_order_output r' = is_production_order_output r).
  tauto.
Qed.

Lemma init_grouped (feed : list Feed.row) (m : movement) :
  NoDup (map Feed.movement_id feed) -> In m (init feed) -> grouped m.
Proof.
  intros Hfeed Hm. split; [|split; [|split]].
  - intros Hd. destruct (init_dismantling_group feed m Hfeed Hm Hd) as [p [_ [_ H]]].
    eauto.
  - destruct (proj1 (Forall_forall _ _) (init_classified feed) m Hm) as [Hi Ho].
    rewrite Hi, Ho. intros [H|H]; apply andb_true_iff in H; tauto.
  - apply init_rows in Hm. destruct Hm as [row [g [_ ->]]]. cbn.
    unfold set_is_production_order.
    destruct (Feed.production_order_id row); [eauto | discriminate].
  - apply init_rows in Hm. destruct Hm as [row [g [_ ->]]]. cbn.
    unfold set_is_production_order_input, set_is_production_order_output.
    intros [H|H]; apply andb_true_iff in H; tauto.
Qed.

Lemma touched_map (row : movement) (g : movement -> movement) (l : t) :
  (forall m, In m l -> touched row m (g m)) -> Forall2 (touched row) l (map g l).
Proof.
  induction l as [|a l IH]; intros H; simpl; constructor.
  - apply H. left. reflexivity.
  - apply IH. intros m Hm. apply H. right. exact Hm.
Qed.

Lemma touched_refl (row : movement) (l : t) : Forall2 (touched row) l l.
Proof. induction l; constructor; [split; reflexivity | assumption]. Qed.

Lemma touched_trans (row : movement) (l1 : t) :
  forall l2 l3,
    Forall2 (touched row) l1 l2 -> Forall2 (touched row) l2 l3 ->
    Forall2 (touched row) l1 l3.
Proof.
  induction l1 as [|a l1 IH]; intros l2 l3 H12 H23;
    inversion H12; subst; inversion H23; subst; constructor.
  - destruct H1 as [Hf1 Hm1]. destruct H2 as [Hf2 Hm2].
    split; [congruence|]. intros Hid Hd Ho.
    rewrite Hm2, Hm1; try assumption; try reflexivity.
    + rewrite (frame_movement_id _ _ Hf1). exact Hid.
    + rewrite (f_equal is_dismantling Hf1 : is_dismantling y = is_dismantling a).
      exact Hd.
    + rewrite (f_equal is_production_order Hf1
                 : is_production_order y = is_production_order a).
      exact Ho.
  - eapply IH; eassumption.
Qed.

Lemma touched_frames (row : movement) (l : t) :
  forall l', Forall2 (touched row) l l' -> map frame l' = map frame l.
Proof.
  induction l as [|a l IH]; intros l' H; inversion H; subst; simpl;
    [reflexivity|].
  destruct H2 as [Hf _]. rewrite Hf. f_equal. apply IH. assumption.
Qed.

Lemma touched_In (row : movement) (l : t) :
  forall l' m', Forall2 (touched row) l l' -> In m' l' ->
                exists m, In m l /\ touched row m m'.
Proof.
  induction l as [|a l IH]; intros l' m' H Hin; inversion H; subst;
    [contradiction|].
  destruct Hin as [<-|Hin].
  - exists a. split; [left; reflexivity | assumption].
  - destruct (IH _ _ H4 Hin) as [m [Hm Ht]]. exists m. split; [right|]; assumption.
Qed.

(** A resolution writes in the rows of its inputs and outputs only. *)
Lemma resolve_writes_rows (stock : Stock.t) (inputs outputs : list movement)
    (w : cell_write) :
  In w (resolve_writes stock inputs outputs) ->
  exists x, (In x inputs \/ In x outputs) /\ w_id w = movement_id x.
Proof.
  unfold resolve_writes, writes_in, writes_out. intros H.
  apply in_app_or in H. destruct H as [H|H];
    apply in_map_iff in H; destruct H as [x [<- Hx]]; exists x; auto.
Qed.

Lemma resolve_touched (row : movement) (stock : Stock.t)
    (inputs outputs : list movement) (self : t) :
  NoDup (map movement_id self) ->
  (forall x, In x inputs \/ In x outputs ->
             In x self /\ (is_dismantling x = true \/ is_production_order x = true)) ->
  Forall2 (touched row) self
    (map (row_writes (resolve_writes stock inputs outputs)) self).
Proof.
  intros Hnd Hsel. apply touched_map. intros m Hm.
  split; [apply row_writes_frame|]. intros _ Hd Ho.
  rewrite row_writes_miss; [reflexivity|].
  intros w Hw Hid. apply resolve_writes_rows in Hw.
  destruct Hw as [x [Hx Hwx]]. destruct (Hsel x Hx) as [Hin Hkind].
  assert (x = m).
  { apply (NoDup_map_inj movement_id self); try assumption. congruence. }
  subst x. destruct Hkind; congruence.
Qed.

Lemma same_id_Some (a : option Z) (g : Z) : same_id a (Some g) = true -> a = Some g.
Proof.
  destruct a as [x|]; simpl; [|discriminate].
  intros H. apply Z.eqb_eq in H. congruence.
Qed.

(** The correction of one turn: it fails with an error of the data, or
    leaves the marks of the other self-corrected movements alone. *)
Lemma correction_outcome (st : pass) (row m0 : movement) :
  NoDup (map movement_id (movements st)) ->
  Forall grouped (movements st) ->
  In m0 (movements st) -> frame m0 = frame row ->
  (movement_cost_is_already_correct row = false ->
   is_dismantling row = false -> is_production_order row = false ->
   movement_cost_is_already_correct m0 = false) ->
  match (if movement_cost_is_already_correct row then OK (movements st)
         else if is_dismantling row
              then correct_dismantling (dismantling_id row) (stock st) (movements st)
              else if is_production_order row
                   then correct_production_order (production_order_id row)
                          (stock st) (movements st)
                   else correct_movement_cost_by_stock (movement_id row) (stock st)
                          (movements st))
  with
  | Raise e => data_error e = true
  | OK self => Forall2 (touched row) (movements st) self
  end.
Proof.
  intros Hnd Hgr Hin0 Hf0 Hplain.
  pose proof (proj1 (Forall_forall _ _) Hgr) as Hg.
  assert (Hrow : grouped row) by exact (grouped_frame _ _ (eq_sym Hf0) (Hg m0 Hin0)).
  destruct Hrow as [Hgd [_ [Hgo _]]].
  destruct (movement_cost_is_already_correct row) eqn:Hflag.
  { apply touched_refl. }
  destruct (is_dismantling row) eqn:Hd.
  { destruct (Hgd eq_refl) as [g Hgid]. rewrite Hgid.
    assert (Hcol : has_dismantling_id (movements st) = true).
    { apply existsb_exists. exists m0. split; [exact Hin0|].
      rewrite (f_equal is_dismantling Hf0 : is_dismantling m0 = is_dismantling row).
      exact Hd. }
    unfold correct_dismantling. rewrite Hcol. cbn [negb].
    destruct (filter (fun r => same_id (dismantling_id r) (Some g)) (movements st))
      as [|d0 group] eqn:Hgroup.
    { exfalso.
      assert (H : In m0 (filter (fun r => same_id (dismantling_id r) (Some g))
                           (movements st))).
      { apply filter_In. split; [exact Hin0|].
        rewrite (f_equal dismantling_id Hf0 : dismantling_id m0 = dismantling_id row),
          Hgid. simpl. apply Z.eqb_refl. }
      rewrite Hgroup in H. exact H. }
    cbn [empty]. rewrite <- Hgroup.
    destruct (empty _ || empty _); [reflexivity|].
    rewrite resolve_outcome.
    destruct (first_unknown _ _); [reflexivity|].
    apply resolve_touched; [exact Hnd|].
    intros x Hx.
    assert (Hxin : In x (movements st)
                   /\ (is_dismantling_input x = true \/ is_dismantling_output x = true)).
    { destruct Hx as [Hx|Hx]; apply filter_In in Hx; destruct Hx as [Hx Hk];
        apply filter_In in Hx; tauto. }
    destruct Hxin as [Hxin Hk]. split; [exact Hxin|]. left.
    exact (proj1 (proj2 (Hg x Hxin)) Hk). }
  destruct (is_production_order row) eqn:Ho.
  { destruct (Hgo eq_refl) as [o Hoid]. rewrite Hoid.
    unfold correct_production_order.
    destruct (filter (fun r => same_id (production_order_id r) (Some o))
                (movements st)) as [|d0 group] eqn:Hgroup.
    { exfalso.
      assert (H : In m0 (filter (fun r => same_id (production_order_id r) (Some o))
                           (movements st))).
      { apply filter_In. split; [exact Hin0|].
        rewrite (f_equal production_order_id Hf0
                   : production_order_id m0 = production_order_id row),
          Hoid. simpl. apply Z.eqb_refl. }
      rewrite Hgroup in H. exact H. }
    cbn [empty]. rewrite <- Hgroup.
    destruct (empty _); [reflexivity|].
    rewrite resolve_outcome.
    destruct (first_unknown _ _); [reflexivity|].
    apply resolve_touched; [exact Hnd|].
    intros x Hx.
    assert (Hxin : In x (movements st)
                   /\ (is_production_order_input x = true
                       \/ is_production_order_output x = true)).
    { destruct Hx as [Hx|Hx]; apply filter_In in Hx; destruct Hx as [Hx Hk];
        apply filter_In in Hx; tauto. }
    destruct Hxin as [Hxin Hk]. split; [exact Hxin|]. right.
    exact (proj2 (proj2 (proj2 (Hg x Hxin))) Hk). }
  assert (Hloc : loc (movement_id row) (movements st) = OK m0).
  { rewrite <- (frame_movement_id _ _ Hf0). apply loc_unique; assumption. }
  unfold correct_movement_cost_by_stock. rewrite Hloc. simpl.
  rewrite (Hplain eq_refl eq_refl eq_refl).
  unfold Stock.get_stock. destruct (find _ (stock st)) as [p|]; simpl;
    [|reflexivity].
  apply touched_map. intros m _. split.
  - destruct (movement_id m =? movement_id row); reflexivity.
  - intros Hid _ _. apply Z.eqb_neq in Hid. rewrite Hid. reflexivity.
Qed.

(** One turn of a pass. *)
Lemma pass_step_outcome (st : pass) (row m0 : movement) :
  NoDup (map movement_id (movements st)) ->
  Forall grouped (movements st) ->
  In m0 (movements st) -> frame m0 = frame row ->
  (movement_cost_is_already_correct row = false ->
   is_dismantling row = false -> is_production_order row = false ->
   movement_cost_is_already_correct m0 = false) ->
  match pass_step st row with
  | Raise e => data_error e = true
  | OK st' => Forall2 (touched row) (movements st) (movements st')
  end.
Proof.
  intros Hnd Hgr Hin0 Hf0 Hplain.
  pose proof (correction_outcome st row m0 Hnd Hgr Hin0 Hf0 Hplain) as Hc.
  unfold pass_step.
  destruct (if movement_cost_is_already_correct row then _ else _) as [self|e];
    [|exact Hc].
  simpl.
  assert (Hloc : loc (movement_id row) (movements st) = OK m0).
  { rewrite <- (frame_movement_id _ _ Hf0). apply loc_unique; assumption. }
  destruct (loc_frame _ _ self _ (touched_frames _ _ _ Hc) Hloc) as [m1 [Hloc1 _]].
  rewrite (insert_movement_to_stock_eq _ _ _ _ Hloc1). simpl.
  apply (touched_trans row _ self); [exact Hc|].
  destruct (guard_fires m1); [|apply touched_refl].
  apply touched_map. intros m _. split.
  - destruct (movement_id m =? movement_id row); reflexivity.
  - intros _ _ _. destruct (movement_id m =? movement_id row); reflexivity.
Qed.

Lemma pass_loop_outcome (table : t) :
  NoDup (map movement_id table) ->
  (forall r, In r table -> grouped r) ->
  forall (rows : list movement) (st : pass) (e : error),
    incl rows table ->
    NoDup (map movement_id rows) ->
    map frame (movements st) = map frame table ->
    (forall r m, In r rows -> In m (movements st) ->
                 movement_id m = movement_id r ->
                 movement_cost_is_already_correct r = false ->
                 is_dismantling r = false -> is_production_order r = false ->
                 movement_cost_is_already_correct m = false) ->
    pass_loop rows st = Raise e -> data_error e = true.
Proof.
  intros Hnd Hgr rows.
  induction rows as [|row rest IH]; intros st e Hincl Hrows Hf Hun H;
    [discriminate|].
  simpl in H.
  assert (Hrow : In row table) by (apply Hincl; left; reflexivity).
  assert (Hids : map movement_id (movements st) = map movement_id table).
  { rewrite <- (map_map frame movement_id), Hf, map_map. reflexivity. }
  assert (Hnd' : NoDup (map movement_id (movements st)))
    by (rewrite Hids; exact Hnd).
  assert (Hback : forall m, In m (movements st) ->
                            exists r, In r table /\ frame m = frame r)
    by (intros m Hm; exact (map_eq_In frame table _ m Hf Hm)).
  assert (Hgr' : Forall grouped (movements st)).
  { apply Forall_forall. intros m Hm. destruct (Hback m Hm) as [r [Hr Hfr]].
    exact (grouped_frame _ _ Hfr (Hgr r Hr)). }
  assert (Hm0 : exists m0, In m0 (movements st) /\ frame m0 = frame row).
  { assert (Hfin : In (frame row) (map frame (movements st)))
      by (rewrite Hf; apply in_map; exact Hrow).
    apply in_map_iff in Hfin. destruct Hfin as [m0 [Hm0 Hin0]]. eauto. }
  destruct Hm0 as [m0 [Hin0 Hf0]].
  pose proof (pass_step_outcome st row m0 Hnd' Hgr' Hin0 Hf0
                (Hun row m0 (or_introl eq_refl) Hin0 (frame_movement_id _ _ Hf0)))
    as Hstep.
  destruct (pass_step st row) as [st1|e1]; simpl in H;
    [|injection H as <-; exact Hstep].
  inversion Hrows as [|x l Hnotin Hrest]; subst.
  apply (IH st1 e); try assumption.
  - intros r Hr. apply Hincl. right. exact Hr.
  - rewrite (touched_frames _ _ _ Hstep). exact Hf.
  - intros r m' Hr Hm' Hid Hflag Hd Ho.
    destruct (touched_In _ _ _ _ Hstep Hm') as [m [Hm [Hfm Hmark]]].
    assert (Hidm : movement_id m = movement_id r)
      by (rewrite <- (frame_movement_id _ _ Hfm); exact Hid).
    destruct (Hback m Hm) as [r0 [Hr0 Hfr0]].
    assert (r0 = r).
    { apply (NoDup_map_inj movement_id table); try assumption.
      - apply Hincl. right. exact Hr.
      - rewrite <- (frame_movement_id _ _ Hfr0). exact Hidm. }
    subst r0.
    rewrite Hmark.
    + apply (Hun r m); try assumption. right. exact Hr.
    + rewrite Hidm. intros Heq. apply Hnotin. rewrite <- Heq.
      apply in_map. exact Hr.
    + rewrite (f_equal is_dismantling Hfr0 : is_dismantling m = is_dismantling r).
      exact Hd.
    + rewrite (f_equal is_production_order Hfr0
                 : is_production_order m = is_production_order r).
      exact Ho.
Qed.

(** X15.  The errors of a pass over a constructed table, ids being unique.
    A pass that stops has met a dismantling group without inputs or without
    outputs, a production order without inputs, or a movement to correct
    whose item the ledger does not have.  It never stops on a movement id,
    a group or an order that is not in the table, on an item the ledger
    has already, or on a movement that is already marked correct. *)
Theorem pass_errors (feed : list Feed.row) (start_stock : Stock.t)
    (resume : StockResume.t) (e : error) :
  NoDup (map Feed.movement_id feed) ->
  correct_costs_and_generate_stocks (init feed) start_stock resume = Raise e ->
  (exists g, e = DismantlingIncomplete g)
  \/ (exists o, e = ProductionOrderIncomplete o)
  \/ (exists item, e = ItemNotFound item).
Proof.
  intros Hfeed H.
  assert (Hnd : NoDup (map movement_id (init feed))).
  { change movement_id with (fun r => snd (key r)) at 1.
    rewrite <- (map_map key snd), init_keys, map_map.
    exact (init_sorted_ids feed Hfeed). }
  assert (He : data_error e = true).
  { apply (pass_loop_outcome (init feed) Hnd
             (fun r Hr => init_grouped feed r Hfeed Hr)
             (init feed) (mkPass None (init feed) start_stock resume) e).
    - apply incl_refl.
    - exact Hnd.
    - reflexivity.
    - intros r m Hr Hm Hid Hflag _ _.
      assert (m = r) by (apply (NoDup_map_inj movement_id (init feed)); assumption).
      subst m. exact Hflag.
    - exact H. }
  destruct e; try discriminate; eauto.
Qed.

Lemma pass_errors_witness :
  (exists g, ItemNotFound 1 = DismantlingIncomplete g)
  \/ (exists o, ItemNotFound 1 = ProductionOrderIncomplete o)
  \/ (exists item, ItemNotFound 1 = ItemNotFound item).
Proof.
  apply (pass_errors
           [ feed_row 1 (mkDate 2024 1 5) None "NF 1" "SAIDA" 1
               (of_Z (-2)) (of_Z (-20)) NaN ]
           [] []).
  - repeat constructor. simpl. tauto.
  - reflexivity.
Defined.

End PassErrors.

(** ** The dates of the timeline *)

Section TimelineDates.

Import StockMovements.
Open Scope Z_scope.

Lemma last_day_eq (m y : Z) :
  1 <= m <= 12 ->
  StockResume.get_last_day_of_month m y = mkDate y m (days_in_month y m).
Proof.
  intros Hm. unfold StockResume.get_last_day_of_month.
  destruct (m =? 12) eqn:H12.
  - apply Z.eqb_eq in H12. subst m. reflexivity.
  - apply Z.eqb_neq in H12. unfold minus_one_day. cbn [day month year].
    replace (1 <? m + 1) with true by (symmetry; apply Z.ltb_lt; lia).
    replace (m + 1 - 1) with m by lia. reflexivity.
Qed.

Lemma days_in_month_bounds (y m : Z) : 28 <= days_in_month y m <= 31.
Proof.
  unfold days_in_month.
  destruct (m =? 2); [destruct (is_leap y); lia|].
  destruct (_ || _); lia.
Qed.

(** X16.  [get_last_day_of_month], for a month from 1 to 12 of a year from
    1 to 9999: the date returned is a date of that month and year, and no
    date of that month and year comes after it. *)
Theorem get_last_day_of_month_spec (m y : Z) :
  1 <= m <= 12 -> 1 <= y <= 9999 ->
  let d := StockResume.get_last_day_of_month m y in
  valid_date d = true /\ year d = y /\ month d = m
  /\ (forall d', valid_date d' = true -> year d' = y -> month d' = m ->
                 date_le d' d).
Proof.
  intros Hm Hy. rewrite (last_day_eq m y Hm). cbv zeta.
  pose proof (days_in_month_bounds y m) as Hb.
  split; [|split; [reflexivity | split; [reflexivity|]]].
  - unfold valid_date. cbn [year month day].
    rewrite !andb_true_iff, !Z.leb_le. lia.
  - intros d' Hv Hy' Hm'. unfold valid_date in Hv.
    rewrite !andb_true_iff, !Z.leb_le in Hv.
    destruct Hv as [[[[[_ _] _] _] Hd1] Hd2]. rewrite Hy', Hm' in Hd2.
    destruct (Z.eq_dec (day d') (days_in_month y m)) as [He|Hne].
    + right. destruct d' as [y' m' dd]. simpl in *. congruence.
    + left. unfold datetime_lt. cbn [year month day]. lia.
Qed.

Lemma get_last_day_of_month_spec_witness :
  let d := StockResume.get_last_day_of_month 2 2024 in
  valid_date d = true /\ year d = 2024 /\ month d = 2
  /\ (forall d', valid_date d' = true -> year d' = 2024 -> month d' = 2 ->
                 date_le d' d).
Proof.
  apply (get_last_day_of_month_spec 2 2024); lia.
Defined.

Lemma sorted_snoc {A : Type} (R : A -> A -> Prop) (l : list A) (x : A) :
  StronglySorted R l -> Forall (fun a => R a x) l -> StronglySorted R (l ++ [x]).
Proof.
  induction l as [|a l IH]; intros Hs Hf; simpl.
  - constructor; constructor.
  - inversion Hs; subst. inversion Hf; subst. constructor.
    + apply IH; assumption.
    + apply Forall_app. split; [assumption | constructor; [assumption | constructor]].
Qed.

Lemma month_changed_lt (l d : datetime) :
  date_le l d -> month_changed l d = true -> month_lt l d.
Proof.
  unfold month_changed, month_lt. intros Hle H.
  apply orb_true_iff in H. rewrite !negb_true_iff, !Z.eqb_neq in H.
  destruct Hle as [Hlt| ->]; [unfold datetime_lt in Hlt; lia | lia].
Qed.

Lemma month_same (l d : datetime) :
  month_changed l d = false -> year l = year d /\ month l = month d.
Proof.
  unfold month_changed. intros H. apply orb_false_iff in H.
  rewrite !negb_false_iff, !Z.eqb_eq in H. tauto.
Qed.

Lemma month_lt_le (a l d : datetime) : month_lt a l -> date_le l d -> month_lt a d.
Proof.
  unfold month_lt. intros Ha [Hlt| ->]; [unfold datetime_lt in Hlt; lia | exact Ha].
Qed.

Lemma key_le_date (a b : movement) :
  key_le a b -> date_le (correct_movement_date a) (correct_movement_date b).
Proof. intros [H|[H _]]; [left | right]; assumption. Qed.

Lemma close_month_ok (table : t) (l_opt : option datetime) (row : movement)
    (ledger : Stock.t) (resume : StockResume.t) :
  In row table ->
  (forall r, In r table -> 1 <= month (correct_movement_date r) <= 12) ->
  (forall l, l_opt = Some l -> date_le l (correct_movement_date row)) ->
  timeline_ok table l_opt resume ->
  timeline_ok table (Some (correct_movement_date row))
    (close_month l_opt (correct_movement_date row) ledger resume).
Proof.
  intros Hrow Hmonths Hle [Hs [Hdays Hlast]].
  set (d := correct_movement_date row) in *.
  assert (Hd : exists r, In r table /\ d = correct_movement_date r) by eauto.
  destruct l_opt as [l|]; simpl.
  - destruct Hlast as [[r [Hr Hl]] Hlt]. specialize (Hle l eq_refl).
    assert (Hnew : StockResume.get_last_day_of_month (month l) (year l)
                   = mkDate (year l) (month l) (days_in_month (year l) (month l))).
    { apply last_day_eq. rewrite Hl. apply Hmonths. exact Hr. }
    destruct (month_changed l d) eqn:Hc.
    + unfold StockResume.insert_new_entry. rewrite Hnew.
      split; [|split; [|split; [exact Hd|]]].
      * rewrite map_app. apply sorted_snoc; [exact Hs|].
        apply Forall_map. refine (Forall_impl _ _ Hlt).
        intros e He. unfold month_lt in He. unfold datetime_lt. simpl. lia.
      * apply Forall_app. split; [exact Hdays|]. constructor; [|constructor].
        exists r. split; [exact Hr|]. simpl. rewrite Hl. reflexivity.
      * apply Forall_app. split.
        -- refine (Forall_impl _ _ Hlt). intros e He.
           exact (month_lt_le _ _ _ He Hle).
        -- constructor; [|constructor]. simpl.
           pose proof (month_changed_lt l d Hle Hc) as H.
           unfold month_lt in *. simpl. exact H.
    + split; [exact Hs|]. split; [exact Hdays|]. split; [exact Hd|].
      refine (Forall_impl _ _ Hlt). intros e He.
      exact (month_lt_le _ _ _ He Hle).
  - subst resume. split; [constructor|]. split; [constructor|].
    split; [exact Hd | constructor].
Qed.

Lemma pass_loop_dates (table : t) :
  (forall r, In r table -> 1 <= month (correct_movement_date r) <= 12) ->
  forall (rows : list movement) (st st' : pass),
    incl rows table ->
    StronglySorted key_le rows ->
    (forall l r, last_date st = Some l -> In r rows ->
                 date_le l (correct_movement_date r)) ->
    timeline_ok table (last_date st) (stock_resume st) ->
    pass_loop rows st = OK st' ->
    timeline_ok table (last_date st') (stock_resume st').
Proof.
  intros Hmonths rows.
  induction rows as [|row rest IH]; intros st st' Hincl Hs Hle Hok H; simpl in H.
  - injection H as <-. exact Hok.
  - apply bind_OK in H. destruct H as [st1 [H1 H]].
    destruct (pass_step_timeline _ _ _ H1) as [Hlast Hresume].
    inversion Hs as [|x l Hs' Hall]; subst.
    apply (IH st1 st'); try assumption.
    + intros r Hr. apply Hincl. right. exact Hr.
    + rewrite Hlast. intros l r Hl Hr. injection Hl as <-.
      apply key_le_date. exact (proj1 (Forall_forall _ _) Hall r Hr).
    + rewrite Hlast, Hresume. apply close_month_ok; try assumption.
      * apply Hincl. left. reflexivity.
      * intros l Hl. apply (Hle l row Hl). left. reflexivity.
Qed.

(** X17.  The dates of the timeline.  After a pass that completes over a
    constructed table, started with an empty timeline, the dates of the
    snapshots go strictly up, and each is the last day of a month in which a
    movement of the table falls. *)
Theorem timeline_dates (feed : list Feed.row) (start_stock : Stock.t) (st' : pass) :
  (forall row, In row feed ->
               valid_date (set_correct_movement_date row) = true) ->
  correct_costs_and_generate_stocks (init feed) start_stock StockResume.new_empty
  = OK st' ->
  StronglySorted datetime_lt (map StockResume.date (stock_resume st'))
  /\ forall e, In e (stock_resume st') ->
       exists r, In r (init feed)
         /\ year (StockResume.date e) = year (correct_movement_date r)
         /\ month (StockResume.date e) = month (correct_movement_date r)
         /\ day (StockResume.date e)
            = days_in_month (year (correct_movement_date r))
                (month (correct_movement_date r)).
Proof.
  intros Hvalid H.
  assert (Hmonths : forall r, In r (init feed) ->
                              1 <= month (correct_movement_date r) <= 12).
  { intros r Hr. apply init_rows in Hr. destruct Hr as [row [g [Hrow ->]]].
    specialize (Hvalid row Hrow). unfold valid_date in Hvalid.
    rewrite !andb_true_iff, !Z.leb_le in Hvalid. cbn. tauto. }
  destruct (pass_loop_dates (init feed) Hmonths (init feed)
              (mkPass None (init feed) start_stock StockResume.new_empty) st'
              (incl_refl _) (init_sorted feed)) as [Hs [Hdays _]].
  - intros l r Hl. discriminate.
  - split; [constructor|]. split; [constructor | reflexivity].
  - exact H.
  - split; [exact Hs|]. intros e He.
    destruct (proj1 (Forall_forall _ _) Hdays e He) as [r [Hr Hd]].
    exists r. rewrite Hd. auto.
Qed.

Lemma timeline_dates_witness :
  exists st',
    correct_costs_and_generate_stocks (init three_movements) []
      StockResume.new_empty = OK st'
    /\ StronglySorted datetime_lt (map StockResume.date (stock_resume st'))
    /\ forall e, In e (stock_resume st') ->
         exists r, In r (init three_movements)
           /\ year (StockResume.date e) = year (correct_movement_date r)
           /\ month (StockResume.date e) = month (correct_movement_date r)
           /\ day (StockResume.date e)
              = days_in_month (year (correct_movement_date r))
                  (month (correct_movement_date r)).
Proof.
  destruct (correct_costs_and_generate_stocks (init three_movements) []
              StockResume.new_empty) as [st'|e] eqn:H.
  - exists st'. split; [reflexivity|].
    apply (timeline_dates three_movements [] st'); [|exact H].
    intros row [<-|[<-|[<-|[]]]]; reflexivity.
  - vm_compute in H. discriminate.
Defined.

End TimelineDates.

(** ** What a resolution writes *)

Section ResolutionCells.

Import StockMovements.
Open Scope Z_scope.

Lemma row_writes_cells (stock : Stock.t) (inputs outputs : list movement) (self : t) :
  NoDup (map movement_id self) ->
  incl inputs self -> incl outputs self ->
  NoDup (map movement_id inputs ++ map movement_id outputs) ->
  forallb (known stock) inputs = true ->
  Forall2 (resolution_cells stock inputs outputs) self
    (map (row_writes (resolve_writes stock inputs outputs)) self).
Proof.
  intros Hnd Hin Hout Hone Hk.
  assert (Hws : NoDup (map w_id (resolve_writes stock inputs outputs)))
    by (rewrite resolve_writes_ids; exact Hone).
  apply Forall2_map_In. intros r Hr. split; [|split].
  - intros Hi.
    rewrite (row_writes_hit _ r
               (mkWrite (movement_id r)
                  (quantity r * avg_of stock (item_id r))%num
                  (avg_of stock (item_id r))) Hws).
    + exact (input_cells_resolved stock inputs r Hk Hi).
    + unfold resolve_writes. apply in_or_app. left.
      unfold writes_in. apply in_map_iff. exists r. auto.
    + reflexivity.
  - intros Ho.
    rewrite (row_writes_hit _ r
               (mkWrite (movement_id r)
                  (liberated stock inputs zero
                   * (original_cost r / sum (map original_cost outputs)))%num
                  ((liberated stock inputs zero
                    * (original_cost r / sum (map original_cost outputs)))
                   / quantity r)%num) Hws).
    + apply output_cells_resolved.
    + unfold resolve_writes. apply in_or_app. right.
      unfold writes_out. apply in_map_iff. exists r. auto.
    + reflexivity.
  - intros Hi Ho. apply row_writes_miss. intros w Hw Hid.
    apply resolve_writes_rows in Hw. destruct Hw as [x [Hx Hwx]].
    assert (x = r).
    { apply (NoDup_map_inj movement_id self); try assumption; [|congruence].
      destruct Hx as [Hx|Hx]; [apply Hin | apply Hout]; exact Hx. }
    subst x. tauto.
Qed.

(** X18.  What [correct_dismantling] writes when it succeeds, ids being
    unique and the input and output flags being those of the classifier.
    Row by row: an input of the group has its item in the ledger, and gets
    as total cost its quantity times the average cost of that position, as
    average cost that average, and the mark; an output gets as total cost,
    of the value so taken from the inputs, the share of its original cost
    in the original costs of the outputs, as average cost that total over
    its quantity, and the mark; in both every other cell is kept.  A row
    that is neither is left as it is. *)
Theorem correct_dismantling_cells (id : option Z) (stock : Stock.t) (self self' : t) :
  NoDup (map movement_id self) ->
  Forall dismantling_classified self ->
  correct_dismantling id stock self = OK self' ->
  Forall2 (fun r r' =>
             (In r (dismantling_inputs id self) ->
              kept r r'
              /\ exists p,
                   Stock.get_stock (item_id r) stock = OK p
                   /\ total_cost r' = (quantity r * Stock.average_cost p)%num
                   /\ average_cost r' = Stock.average_cost p
                   /\ movement_cost_is_already_correct r' = true)
             /\ (In r (dismantling_outputs id self) ->
                 kept r r'
                 /\ total_cost r'
                    = (liberated stock (dismantling_inputs id self) zero
                       * (original_cost r
                          / sum (map original_cost (dismantling_outputs id self))))%num
                 /\ average_cost r'
                    = ((liberated stock (dismantling_inputs id self) zero
                        * (original_cost r
                           / sum (map original_cost (dismantling_outputs id self))))
                       / quantity r)%num
                 /\ movement_cost_is_already_correct r' = true)
             /\ (~ In r (dismantling_inputs id self) ->
                 ~ In r (dismantling_outputs id self) -> r' = r))
    self self'.
Proof.
  intros Hnd Hcl H. apply correct_dismantling_OK in H.
  destruct H as [_ [_ [Hk ->]]].
  apply (row_writes_cells stock (dismantling_inputs id self)
           (dismantling_outputs id self) self Hnd); [| | |exact Hk].
  - intros r Hr. unfold dismantling_inputs in Hr.
    apply filter_In in Hr. destruct Hr as [Hr _].
    apply filter_In in Hr. tauto.
  - intros r Hr. unfold dismantling_outputs in Hr.
    apply filter_In in Hr. destruct Hr as [Hr _].
    apply filter_In in Hr. tauto.
  - unfold dismantling_inputs, dismantling_outputs.
    apply NoDup_filter_app; [apply NoDup_map_filter; exact Hnd|].
    intros r Hr Hi Ho. apply filter_In in Hr. destruct Hr as [Hr _].
    destruct (proj1 (Forall_forall _ _) Hcl r Hr) as [Hci Hco].
    rewrite Hci in Hi. rewrite Hco in Ho.
    apply andb_true_iff in Hi. apply andb_true_iff in Ho.
    pose proof (ltb_both_ways (original_cost r)) as Hb.
    rewrite (proj1 Hi), (proj1 Ho) in Hb. discriminate.
Qed.

(** Two units of item 1 at 10 a unit become two units of item 2: the input
    is costed at -20, the output at 20, both at 10 a unit. *)
Lemma correct_dismantling_cells_witness :
  exists self',
    correct_dismantling (Some 2) ledger_at_ten dismantling_pair = OK self'
    /\ map total_cost self' = [of_Z (-20); of_Z 20]
    /\ map average_cost self' = [of_Z 10; of_Z 10]
    /\ map movement_cost_is_already_correct self' = [true; true]
    /\ Forall2 (fun r r' =>
                  (In r (dismantling_inputs (Some 2) dismantling_pair) ->
                   kept r r'
                   /\ exists p,
                        Stock.get_stock (item_id r) ledger_at_ten = OK p
                        /\ total_cost r' = (quantity r * Stock.average_cost p)%num
                        /\ average_cost r' = Stock.average_cost p
                        /\ movement_cost_is_already_correct r' = true)
                  /\ (In r (dismantling_outputs (Some 2) dismantling_pair) ->
                      kept r r'
                      /\ total_cost r'
                         = (liberated ledger_at_ten
                              (dismantling_inputs (Some 2) dismantling_pair) zero
                            * (original_cost r
                               / sum (map original_cost
                                        (dismantling_outputs (Some 2)
                                           dismantling_pair))))%num
                      /\ average_cost r'
                         = ((liberated ledger_at_ten
                               (dismantling_inputs (Some 2) dismantling_pair) zero
                             * (original_cost r
                                / sum (map original_cost
                                         (dismantling_outputs (Some 2)
                                            dismantling_pair))))
                            / quantity r)%num
                      /\ movement_cost_is_already_correct r' = true)
                  /\ (~ In r (dismantling_inputs (Some 2) dismantling_pair) ->
                      ~ In r (dismantling_outputs (Some 2) dismantling_pair) ->
                      r' = r))
         dismantling_pair self'.
Proof.
  eexists. split; [vm_compute; reflexivity|].
  split; [num_eq|]. split; [num_eq|]. split; [reflexivity|].
  apply (correct_dismantling_cells (Some 2) ledger_at_ten dismantling_pair).
  - vm_compute. repeat constructor; simpl; intuition discriminate.
  - apply init_classified.
  - vm_compute. reflexivity.
Defined.

(** X19.  What [correct_production_order] writes when it succeeds, ids
    being unique and no movement being both an input and an output of an
    order.  Row by row: an input of the order has its item in the ledger,
    and gets as total cost its quantity times the average cost of that
    position, as average cost that average, and the mark; an output gets as
    total cost, of the value so taken from the inputs, the share of its
    original cost in the original costs of the outputs, as average cost that
    total over its quantity, and the mark; in both every other cell is kept.
    A row that is neither is left as it is. *)
Theorem correct_production_order_cells (id : option Z) (stock : Stock.t)
    (self self' : t) :
  NoDup (map movement_id self) ->
  (forall r, In r self ->
             is_production_order_input r && is_production_order_output r = false) ->
  correct_production_order id stock self = OK self' ->
  Forall2 (fun r r' =>
             (In r (production_order_inputs id self) ->
              kept r r'
              /\ exists p,
                   Stock.get_stock (item_id r) stock = OK p
                   /\ total_cost r' = (quantity r * Stock.average_cost p)%num
                   /\ average_cost r' = Stock.average_cost p
                   /\ movement_cost_is_already_correct r' = true)
             /\ (In r (production_order_outputs id self) ->
                 kept r r'
                 /\ total_cost r'
                    = (liberated stock (production_order_inputs id self) zero
                       * (original_cost r
                          / sum (map original_cost
                                   (production_order_outputs id self))))%num
                 /\ average_cost r'
                    = ((liberated stock (production_order_inputs id self) zero
                        * (original_cost r
                           / sum (map original_cost
                                    (production_order_outputs id self))))
                       / quantity r)%num
                 /\ movement_cost_is_already_correct r' = true)
             /\ (~ In r (production_order_inputs id self) ->
                 ~ In r (production_order_outputs id self) -> r' = r))
    self self'.
Proof.
  intros Hnd Hcl H. apply correct_production_order_OK in H.
  destruct H as [_ [Hk ->]].
  apply (row_writes_cells stock (production_order_inputs id self)
           (production_order_outputs id self) self Hnd); [| | |exact Hk].
  - intros r Hr. unfold production_order_inputs in Hr.
    apply filter_In in Hr. destruct Hr as [Hr _].
    apply filter_In in Hr. tauto.
  - intros r Hr. unfold production_order_outputs in Hr.
    apply filter_In in Hr. destruct Hr as [Hr _].
    apply filter_In in Hr. tauto.
  - unfold production_order_inputs, production_order_outputs.
    apply NoDup_filter_app; [apply NoDup_map_filter; exact Hnd|].
    intros r Hr Hi Ho. apply filter_In in Hr. destruct Hr as [Hr _].
    specialize (Hcl r Hr). rewrite Hi, Ho in Hcl. discriminate.
Qed.

(** Four units of item 1 at 10 a unit go into an order with two outputs
    recorded at 30 and 10: the requisition is costed at -40, the outputs at
    30 and 10, that is 10 a unit for the three units of the first. *)
Lemma correct_production_order_cells_witness :
  exists self',
    correct_production_order (Some 9) ledger_at_ten order_with_outputs = OK self'
    /\ map total_cost self' = [of_Z (-40); of_Z 30; of_Z 10]
    /\ map average_cost self' = [of_Z 10; of_Z 10; of_Z 10]
    /\ map movement_cost_is_already_correct self' = [true; true; true]
    /\ Forall2 (fun r r' =>
                  (In r (production_order_inputs (Some 9) order_with_outputs) ->
                   kept r r'
                   /\ exists p,
                        Stock.get_stock (item_id r) ledger_at_ten = OK p
                        /\ total_cost r' = (quantity r * Stock.average_cost p)%num
                        /\ average_cost r' = Stock.average_cost p
                        /\ movement_cost_is_already_correct r' = true)
                  /\ (In r (production_order_outputs (Some 9) order_with_outputs) ->
                      kept r r'
                      /\ total_cost r'
                         = (liberated ledger_at_ten
                              (production_order_inputs (Some 9) order_with_outputs)
                              zero
                            * (original_cost r
                               / sum (map original_cost
                                        (production_order_outputs (Some 9)
                                           order_with_outputs))))%num
                      /\ average_cost r'
                         = ((liberated ledger_at_ten
                               (production_order_inputs (Some 9) order_with_outputs)
                               zero
                             * (original_cost r
                                / sum (map original_cost
                                         (production_order_outputs (Some 9)
                                            order_with_outputs))))
                            / quantity r)%num
                      /\ movement_cost_is_already_correct r' = true)
                  /\ (~ In r (production_order_inputs (Some 9) order_with_outputs) ->
                      ~ In r (production_order_outputs (Some 9) order_with_outputs) ->
                      r' = r))
         order_with_outputs self'.
Proof.
  eexists. split; [vm_compute; reflexivity|].
  split; [num_eq|]. split; [num_eq|]. split; [reflexivity|].
  apply (correct_production_order_cells (Some 9) ledger_at_ten order_with_outputs).
  - vm_compute. repeat constructor; simpl; intuition discriminate.
  - intros r [<-|[<-|[<-|[]]]]; reflexivity.
  - vm_compute. reflexivity.
Defined.

End ResolutionCells.

(** ** The processing order *)

Section ProcessingOrder.

Import StockMovements.
Open Scope Z_scope.








End ProcessingOrder.
